(** * Contact manager (address book): a shallow embedding of [src/main.py]

    The development follows the layout of the program: first the parts of
    the Python runtime the program calls ([len], [re.match], [int],
    [datetime.strptime], [date.replace], [date + timedelta],
    [date.strftime]), then the validated fields ([Name], [Phone],
    [Birthday]), the [Record] methods, the [AddressBook] over a heap of
    shared record objects, and last the command handlers and the loop of
    [main]. *)

From Stdlib Require Import ZArith NArith Lia Bool String Ascii.
From stdpp Require Import base option list pretty.

Local Open Scope Z_scope.

(** ** Python values *)

(** A Python [str] is a sequence of Unicode code points. *)
Abbreviation str := (list N).

(** A literal of the program text (ASCII) as a [str]. *)
Definition lit (s : string) : str :=
  map N_of_ascii (list_ascii_of_string s).

(** Exceptions carry their class and message.  [ValueError] serves the
    program both for validation failures and for a phone that is not found;
    the message tells them apart. *)
Inductive exn : Type :=
| ValueError (msg : string)
| KeyError (msg : string)
| OverflowError (msg : string).

(** The outcome of a call: a returned value or a raised exception. *)
Inductive result (A : Type) : Type :=
| Return (a : A)
| Raise (e : exn).
Arguments Return {A} a.
Arguments Raise {A} e.

Definition is_return {A} (r : result A) : bool :=
  match r with Return _ => true | Raise _ => false end.

(** The white space that [int] strips from its argument, as inclusive
    ranges: the ASCII white space of C's [isspace], and the white space of
    Unicode beyond ASCII. *)
Definition whitespace_ranges : list (N * N) :=
  [ (9, 13); (32, 32); (0x85, 0x85); (0xa0, 0xa0); (0x1680, 0x1680);
    (0x2000, 0x200a); (0x2028, 0x2029); (0x202f, 0x202f); (0x205f, 0x205f);
    (0x3000, 0x3000) ]%N.

Definition is_int_space (c : N) : bool :=
  existsb (fun r => (r.1 <=? c) && (c <=? r.2))%N whitespace_ranges.

(** ** The platform

    Two facts about the interpreter the program runs on are not fixed by
    the program text: the Unicode database behind [\d] and [int], and how
    the C library's [strftime] renders [%Y] for years below 1000 (glibc
    does not pad, other platforms and later CPython versions pad to four
    digits).  They are collected in a class so that every definition and
    theorem below is stated for any platform. *)
Class Platform : Type := {
  (** [Py_UNICODE_TODECIMAL]: the digit value of a code point of category Nd *)
  Py_UNICODE_TODECIMAL : N -> option N;
  todecimal_ascii : forall c : N, (c < 128)%N ->
    Py_UNICODE_TODECIMAL c =
      if ((48 <=? c) && (c <=? 57))%N then Some (c - 48)%N else None;
  todecimal_bound : forall c d : N,
    Py_UNICODE_TODECIMAL c = Some d -> (d < 10)%N;
  todecimal_not_space : forall c d : N,
    Py_UNICODE_TODECIMAL c = Some d -> is_int_space c = false;
  (** whether [strftime("%Y")] pads a year below 1000 with zeros *)
  strftime_Y_padded : bool
}.

(** The Nd blocks of Unicode 14.0 (the database of CPython 3.11): the first
    code point of each block and its length. In every block the digit value
    of the [i]-th code point is [i mod 10]. *)
Definition unicode_14_Nd : list (N * N) :=
  [ (0x30, 10); (0x660, 10); (0x6f0, 10); (0x7c0, 10); (0x966, 10);
    (0x9e6, 10); (0xa66, 10); (0xae6, 10); (0xb66, 10); (0xbe6, 10);
    (0xc66, 10); (0xce6, 10); (0xd66, 10); (0xde6, 10); (0xe50, 10);
    (0xed0, 10); (0xf20, 10); (0x1040, 10); (0x1090, 10); (0x17e0, 10);
    (0x1810, 10); (0x1946, 10); (0x19d0, 10); (0x1a80, 10); (0x1a90, 10);
    (0x1b50, 10); (0x1bb0, 10); (0x1c40, 10); (0x1c50, 10); (0xa620, 10);
    (0xa8d0, 10); (0xa900, 10); (0xa9d0, 10); (0xa9f0, 10); (0xaa50, 10);
    (0xabf0, 10); (0xff10, 10); (0x104a0, 10); (0x10d30, 10); (0x11066, 10);
    (0x110f0, 10); (0x11136, 10); (0x111d0, 10); (0x112f0, 10);
    (0x11450, 10); (0x114d0, 10); (0x11650, 10); (0x116c0, 10);
    (0x11730, 10); (0x118e0, 10); (0x11950, 10); (0x11c50, 10);
    (0x11d50, 10); (0x11da0, 10); (0x16a60, 10); (0x16ac0, 10);
    (0x16b50, 10); (0x1d7ce, 50); (0x1e140, 10); (0x1e2f0, 10);
    (0x1e950, 10); (0x1fbf0, 10) ]%N.

Fixpoint table_decimal (tbl : list (N * N)) (c : N) : option N :=
  match tbl with
  | [] => None
  | (start, len) :: tbl' =>
      if ((start <=? c) && (c <? start + len))%N
      then Some ((c - start) mod 10)%N
      else table_decimal tbl' c
  end.

(** ** Regular expressions

    The fragment of Python's [re] that the program and [_strptime] use,
    with the backtracking semantics of [re.match]: alternatives are tried
    left to right, [+] is greedy, and the first way to match wins. *)

Inductive cclass : Type :=
| CLit (c : N)            (** an (escaped) literal character *)
| CRange (lo hi : N)      (** [[lo-hi]] *)
| CDigit.                 (** [\d]: any Unicode decimal digit *)

Inductive regex : Type :=
| RChar (cc : cclass)
| RCat (r1 r2 : regex)
| RAlt (r1 r2 : regex)
| RPlus (cc : cclass)     (** [cc+], greedy *)
| RBol                    (** [^] *)
| REol                    (** [$] *)
| RGroup (name : string) (r : regex).   (** [(?P<name>r)] *)

(** The matcher's position: characters consumed, the remaining input, and
    the groups captured so far. *)
Record mstate : Type := MState {
  pos : nat;
  rest : str;
  groups : list (string * str)
}.

Section Runtime.
Context `{Platform}.

Definition Py_UNICODE_ISDECIMAL (c : N) : bool :=
  match Py_UNICODE_TODECIMAL c with Some _ => true | None => false end.

Definition cclass_matches (cc : cclass) (c : N) : bool :=
  match cc with
  | CLit c' => (c =? c')%N
  | CRange lo hi => ((lo <=? c) && (c <=? hi))%N
  | CDigit => Py_UNICODE_ISDECIMAL c
  end.

Definition orelse {R} (a b : option R) : option R :=
  match a with Some x => Some x | None => b end.

Fixpoint plus_loop {R} (cc : cclass) (p : nat) (s : str)
    (k : nat -> str -> option R) : option R :=
  match s with
  | c :: s' =>
      if cclass_matches cc c
      then orelse (plus_loop cc (S p) s' k) (k (S p) s')
      else None
  | [] => None
  end.

Fixpoint exec {R} (r : regex) (st : mstate) (k : mstate -> option R)
    : option R :=
  match r with
  | RChar cc =>
      match rest st with
      | c :: s' =>
          if cclass_matches cc c
          then k (MState (S (pos st)) s' (groups st))
          else None
      | [] => None
      end
  | RCat r1 r2 => exec r1 st (fun st' => exec r2 st' k)
  | RAlt r1 r2 => orelse (exec r1 st k) (exec r2 st k)
  | RPlus cc =>
      plus_loop cc (pos st) (rest st)
        (fun p s' => k (MState p s' (groups st)))
  | RBol => if Nat.eqb (pos st) 0 then k st else None
  | REol =>
      (* the end of the string, or just before a newline that ends it *)
      match rest st with
      | [] => k st
      | [c] => if (c =? 10)%N then k st else None
      | _ => None
      end
  | RGroup name r =>
      exec r st (fun st' =>
        k (MState (pos st') (rest st')
             ((name, take (pos st' - pos st) (rest st)) :: groups st')))
  end.

(** [re.match(r, s)]: the match object ([end()] and the groups), or [None]. *)
Definition re_match (r : regex) (s : str) : option mstate :=
  exec r (MState 0 s []) Some.

End Runtime.

(** ** [int] and [datetime.date] *)

Fixpoint lstrip (s : str) : str :=
  match s with
  | c :: s' => if is_int_space c then lstrip s' else s
  | [] => []
  end.

Definition strip (s : str) : str := reverse (lstrip (reverse (lstrip s))).

Record date : Type := Date { year : Z; month : Z; day : Z }.

Definition MINYEAR : Z := 1.
Definition MAXYEAR : Z := 9999.
Definition MAXORDINAL : Z := 3652059.

Definition is_leap (y : Z) : bool :=
  (y mod 4 =? 0) && (negb (y mod 100 =? 0) || (y mod 400 =? 0)).

(** [_DAYS_IN_MONTH] and [_DAYS_BEFORE_MONTH], indexed from 1. *)
Definition DAYS_IN_MONTH : list Z :=
  [-1; 31; 28; 31; 30; 31; 30; 31; 31; 30; 31; 30; 31].
Definition DAYS_BEFORE_MONTH : list Z :=
  [-1; 0; 31; 59; 90; 120; 151; 181; 212; 243; 273; 304; 334].

Definition days_in_month (y m : Z) : Z :=
  if (m =? 2) && is_leap y then 29
  else nth (Z.to_nat m) DAYS_IN_MONTH 0.

Definition days_before_year (y : Z) : Z :=
  let y := y - 1 in y * 365 + y / 4 - y / 100 + y / 400.

Definition days_before_month (y m : Z) : Z :=
  nth (Z.to_nat m) DAYS_BEFORE_MONTH 0
  + (if (2 <? m) && is_leap y then 1 else 0).

Definition ymd2ord (y m d : Z) : Z :=
  days_before_year y + days_before_month y m + d.

Definition DI400Y : Z := 146097.
Definition DI100Y : Z := 36524.
Definition DI4Y : Z := 1461.

(** [_ord2ymd]: [divmod] is floor division, as [Z.div] and [Z.modulo] are
    for a positive divisor. *)
Definition ord2ymd (n : Z) : date :=
  let n := n - 1 in
  let n400 := n / DI400Y in
  let n := n mod DI400Y in
  let y := n400 * 400 + 1 in
  let n100 := n / DI100Y in
  let n := n mod DI100Y in
  let n4 := n / DI4Y in
  let n := n mod DI4Y in
  let n1 := n / 365 in
  let n := n mod 365 in
  let y := y + n100 * 100 + n4 * 4 + n1 in
  if (n1 =? 4) || (n100 =? 4) then Date (y - 1) 12 31
  else
    let leapyear := (n1 =? 3) && (negb (n4 =? 24) || (n100 =? 3)) in
    let m := Z.shiftr (n + 50) 5 in
    let preceding :=
      nth (Z.to_nat m) DAYS_BEFORE_MONTH 0
      + (if (2 <? m) && leapyear then 1 else 0) in
    if n <? preceding then
      let m := m - 1 in
      let preceding :=
        preceding - (nth (Z.to_nat m) DAYS_IN_MONTH 0
                     + (if (m =? 2) && leapyear then 1 else 0)) in
      Date y m (n - preceding + 1)
    else Date y m (n - preceding + 1).

(** The checks of the [date] constructor. *)
Definition date_new (y m d : Z) : result date :=
  if negb ((MINYEAR <=? y) && (y <=? MAXYEAR)) then
    Raise (ValueError ("year " +:+ pretty y +:+ " is out of range"))
  else if negb ((1 <=? m) && (m <=? 12)) then
    Raise (ValueError "month must be in 1..12")
  else if negb ((1 <=? d) && (d <=? days_in_month y m)) then
    Raise (ValueError "day is out of range for month")
  else Return (Date y m d).

Definition toordinal (d : date) : Z := ymd2ord (year d) (month d) (day d).

(** [d.replace(year=y)] builds a new date, and so checks it. *)
Definition replace_year (d : date) (y : Z) : result date :=
  date_new y (month d) (day d).

(** [d + timedelta(days=n)] *)
Definition date_add_days (d : date) (n : Z) : result date :=
  let o := toordinal d + n in
  if (0 <? o) && (o <=? MAXORDINAL) then Return (ord2ymd o)
  else Raise (OverflowError "date value out of range").

(** Dates compare as the tuples (year, month, day). *)
Definition date_le (a b : date) : bool :=
  (year a <? year b)
  || (year a =? year b)
     && ((month a <? month b)
         || (month a =? month b) && (day a <=? day b)).

(** Decimal rendering, for the widths [strftime] needs. *)
Definition digit_char (d : Z) : N := Z.to_N (48 + d).

Definition fmt_02d (n : Z) : str :=
  [digit_char (n / 10 mod 10); digit_char (n mod 10)].

Definition fmt_04d (n : Z) : str :=
  [digit_char (n / 1000 mod 10); digit_char (n / 100 mod 10);
   digit_char (n / 10 mod 10); digit_char (n mod 10)].

Definition fmt_d (n : Z) : str :=
  if n <? 10 then drop 3 (fmt_04d n)
  else if n <? 100 then drop 2 (fmt_04d n)
  else if n <? 1000 then drop 1 (fmt_04d n)
  else fmt_04d n.

(** ** Calls that may raise, and methods that also mutate [self] *)

Definition result_bind {A B} (f : A -> result B) (r : result A) : result B :=
  match r with
  | Return a => f a
  | Raise e => Raise e
  end.

#[global] Instance result_mret : MRet result := @Return.
#[global] Instance result_mbind : MBind result := @result_bind.

(** A method on a mutable object of state [S]: it returns or raises, and in
    both cases leaves a state behind: what was mutated before an exception
    stays mutated. *)
Definition M (S A : Type) : Type := S -> result A * S.

Definition M_ret {S A} (a : A) : M S A := fun s => (Return a, s).

Definition M_bind {S A B} (f : A -> M S B) (m : M S A) : M S B :=
  fun s =>
    match m s with
    | (Return a, s') => f a s'
    | (Raise e, s') => (Raise e, s')
    end.

#[global] Instance M_mret {S} : MRet (M S) := @M_ret S.
#[global] Instance M_mbind {S} : MBind (M S) := @M_bind S.

(** Evaluating an expression that does not touch the object. *)
Definition call {S A} (r : result A) : M S A := fun s => (r, s).

Definition get {S} : M S S := fun s => (Return s, s).
Definition put {S} (s : S) : M S unit := fun _ => (Return tt, s).

(** ** [_strptime] for the format ['%d.%m.%Y'] *)

Section Strptime.
Context `{Platform}.

Fixpoint digits_value (acc : Z) (s : str) : option Z :=
  match s with
  | [] => Some acc
  | c :: s' =>
      match Py_UNICODE_TODECIMAL c with
      | Some d => digits_value (10 * acc + Z.of_N d) s'
      | None => None
      end
  end.

(** [int(s)] for the texts a group of the format's pattern can hold:
    decimal digits, with white space around them stripped.  (Signs and
    underscores, which [int] also accepts, cannot occur in such a group.) *)
Definition py_int (s : str) : result Z :=
  match strip s with
  | [] => Raise (ValueError "invalid literal for int() with base 10")
  | t =>
      match digits_value 0 t with
      | Some v => Return v
      | None => Raise (ValueError "invalid literal for int() with base 10")
      end
  end.

Definition chr (a : ascii) : N := N_of_ascii a.
Definition one (a : ascii) : regex := RChar (CLit (chr a)).
Definition range (a b : ascii) : regex := RChar (CRange (chr a) (chr b)).
Definition digit : regex := RChar CDigit.

(** The entries of [TimeRE] for the three directives:
    ['d': (?P<d>3[0-1]|[1-2]\d|0[1-9]|[1-9]| [1-9])],
    ['m': (?P<m>1[0-2]|0[1-9]|[1-9])] and ['Y': (?P<Y>\d\d\d\d)]. *)
Definition directive_d : regex :=
  RGroup "d"
    (RAlt (RCat (one "3") (range "0" "1"))
    (RAlt (RCat (range "1" "2") digit)
    (RAlt (RCat (one "0") (range "1" "9"))
    (RAlt (range "1" "9")
          (RCat (one " ") (range "1" "9")))))).

Definition directive_m : regex :=
  RGroup "m"
    (RAlt (RCat (one "1") (range "0" "2"))
    (RAlt (RCat (one "0") (range "1" "9"))
          (range "1" "9"))).

Definition directive_Y : regex :=
  RGroup "Y" (RCat digit (RCat digit (RCat digit digit))).

(** [TimeRE.pattern('%d.%m.%Y')]: the dots are escaped.  The pattern is
    compiled with [re.IGNORECASE], which changes nothing for digits, dots
    and spaces. *)
Definition format_regex : regex :=
  RCat directive_d (RCat (one ".") (RCat directive_m
    (RCat (one ".") directive_Y))).

Fixpoint groupdict_get (name : string) (g : list (string * str))
    : option str :=
  match g with
  | [] => None
  | (n, s) :: g' => if String.eqb n name then Some s else groupdict_get name g'
  end.

(** A field of the parse: the group converted by [int], or the default. *)
Definition field (name : string) (default : Z) (found : mstate) : result Z :=
  match groupdict_get name (groups found) with
  | Some s => py_int s
  | None => Return default
  end.

(** [datetime.strptime(data_string, '%d.%m.%Y').date()].  The texts of the
    first two messages are shortened: the original ones quote the input. *)
Definition strptime (data_string : str) : result date :=
  match re_match format_regex data_string with
  | None => Raise (ValueError "time data does not match format")
  | Some found =>
      if negb (Nat.eqb (length data_string) (pos found))
      then Raise (ValueError "unconverted data remains")
      else
        d ← field "d" 1 found;
        m ← field "m" 1 found;
        y ← field "Y" 1900 found;
        date_new y m d
  end.

(** [d.strftime('%d.%m.%Y')] *)
Definition strftime (d : date) : str :=
  fmt_02d (day d) ++ lit "." ++ fmt_02d (month d) ++ lit "."
  ++ (if strftime_Y_padded then fmt_04d (year d) else fmt_d (year d)).

End Strptime.

(** ** The program: fields *)

Record Name : Type := MkName { name_value : str }.
Record Phone : Type := MkPhone { phone_value : str }.
Record Birthday : Type := MkBirthday { birthday_value : date }.

#[global] Instance Phone_eq_dec : EqDecision Phone.
Proof. solve_decision. Defined.

Record ContactRecord : Type := MkRecord {
  name : Name;
  phones : list Phone;
  birthday : option Birthday
}.

(** One entry of the list [get_upcoming_birthdays] returns: the dict with
    the keys ['name'] and ['birthday']. *)
Record upcoming : Type := Upcoming { up_name : str; up_birthday : str }.

(** The objects of the program: the records live in a heap and are known
    by their address; the book's [data] is a dict from name strings to
    record addresses that keeps the insertion order of its keys. *)
Record World : Type := MkWorld {
  heap : list ContactRecord;
  data : list (str * nat)
}.

(** *** dict operations, on the ordered association list *)

Section Dict.
Context {V : Type}.

Fixpoint dict_get (k : str) (d : list (str * V)) : option V :=
  match d with
  | [] => None
  | (k', v) :: d' => if decide (k' = k) then Some v else dict_get k d'
  end.

Definition dict_contains (k : str) (d : list (str * V)) : bool :=
  match dict_get k d with Some _ => true | None => false end.

(** [d[k] = v]: an existing key keeps its place, a new key goes last. *)
Fixpoint dict_set (k : str) (v : V) (d : list (str * V)) : list (str * V) :=
  match d with
  | [] => [(k, v)]
  | (k', v') :: d' =>
      if decide (k' = k) then (k', v) :: d' else (k', v') :: dict_set k v d'
  end.

(** [del d[k]] for a key that is present. *)
Fixpoint dict_del (k : str) (d : list (str * V)) : list (str * V) :=
  match d with
  | [] => []
  | (k', v') :: d' =>
      if decide (k' = k) then d' else (k', v') :: dict_del k d'
  end.

End Dict.

Section Program.
Context `{Platform}.

(** [Name.__init__] *)
Definition Name_init (value : str) : result Name :=
  if negb (Nat.eqb (length value) 0) then Return (MkName value)
  else Raise (ValueError "Name cannot be empty").

(** [Phone.validate_number]: [len(number) == 10 and re.match(r"^\d+$", number)],
    as a truth value. *)
Definition validate_number (number : str) : bool :=
  Nat.eqb (length number) 10
  && match re_match (RCat RBol (RCat (RPlus CDigit) REol)) number with
     | Some _ => true
     | None => false
     end.

(** [Phone.__init__] *)
Definition Phone_init (number : str) : result Phone :=
  if validate_number number then Return (MkPhone number)
  else Raise (ValueError "Invalid phone number").

(** [Phone.__eq__], between two phones *)
Definition Phone_eq (self other : Phone) : bool :=
  bool_decide (phone_value self = phone_value other).

(** [Birthday.__init__]: any [ValueError] of [strptime] is replaced. *)
Definition Birthday_init (value : str) : result Birthday :=
  match strptime value with
  | Return d => Return (MkBirthday d)
  | Raise (ValueError _) =>
      Raise (ValueError "Invalid date format. Use DD.MM.YYYY")
  | Raise e => Raise e
  end.

(** ** The program: [Record] *)

(** [Record.__init__] *)
Definition Record_init (name : str) : result ContactRecord :=
  n ← Name_init name;
  Return (MkRecord n [] None).

Definition set_phones (ps : list Phone) : M ContactRecord unit :=
  fun self => (Return tt, MkRecord (name self) ps (birthday self)).

Definition set_birthday (b : option Birthday) : M ContactRecord unit :=
  fun self => (Return tt, MkRecord (name self) (phones self) b).

Definition add_phone (phone_number : str) : M ContactRecord unit :=
  number ← call (Phone_init phone_number);
  self ← get;
  set_phones (phones self ++ [number]).

(** [list.remove(x)]: drops the first element equal to [x]. *)
Fixpoint list_remove (x : Phone) (l : list Phone) : result (list Phone) :=
  match l with
  | [] => Raise (ValueError "list.remove(x): x not in list")
  | y :: l' =>
      if Phone_eq y x then Return l'
      else l'' ← list_remove x l'; Return (y :: l'')
  end.

(** The loop of [remove_phone] over the elements still to visit; [ps] is
    the list being iterated, untouched until the [break]. *)
Fixpoint remove_phone_loop (phone_obj : Phone) (todo ps : list Phone)
    : result (list Phone) :=
  match todo with
  | [] => Return ps
  | obj :: todo' =>
      if Phone_eq obj phone_obj then list_remove obj ps
      else remove_phone_loop phone_obj todo' ps
  end.

Definition remove_phone (phone_number : str) : M ContactRecord unit :=
  phone_obj ← call (Phone_init phone_number);
  self ← get;
  ps ← call (remove_phone_loop phone_obj (phones self) (phones self));
  set_phones ps.

Definition edit_phone (old_number new_number : str) : M ContactRecord unit :=
  _ ← remove_phone old_number;
  add_phone new_number.

Fixpoint find_phone_loop (phone : str) (ps : list Phone) : result Phone :=
  match ps with
  | [] => Raise (ValueError "Phone number not found")
  | p :: ps' =>
      if bool_decide (phone_value p = phone) then Return p
      else find_phone_loop phone ps'
  end.

Definition find_phone (phone : str) : M ContactRecord Phone :=
  self ← get;
  call (find_phone_loop phone (phones self)).

Definition add_birthday (birthday : str) : M ContactRecord unit :=
  b ← call (Birthday_init birthday);
  set_birthday (Some b).

End Program.

(** ** The program: [AddressBook] *)

Section Book.
Context `{Platform}.

(** The book at the start of [main]: no objects, an empty dict. *)
Definition empty_world : World := MkWorld [] [].

(** [Record(name)]: a new object, known by the next free address. *)
Definition new_record (name : str) : M World nat :=
  fun w =>
    match Record_init name with
    | Return r => (Return (length (heap w)), MkWorld (heap w ++ [r]) (data w))
    | Raise e => (Raise e, w)
    end.

(** A method call on the record object at address [a].  Addresses come
    from [new_record] and are always allocated; the [None] case is there
    only to make the function total. *)
Definition on_record (a : nat) (m : M ContactRecord unit) : M World unit :=
  fun w =>
    match heap w !! a with
    | Some r =>
        let '(res, r') := m r in
        (res, MkWorld (<[a := r']> (heap w)) (data w))
    | None => (Return tt, w)
    end.

(** [AddressBook.add_record(record_item)], for the object at address [a] *)
Definition add_record (a : nat) : M World unit :=
  fun w =>
    match heap w !! a with
    | Some record_item =>
        (Return tt,
         MkWorld (heap w) (dict_set (name_value (name record_item)) a (data w)))
    | None => (Return tt, w)
    end.

(** [AddressBook.find(key)]: the record object, by its address *)
Definition find (key : str) : M World nat :=
  fun w =>
    match dict_get key (data w) with
    | Some a => (Return a, w)
    | None => (Raise (KeyError "Record not found"), w)
    end.

(** [AddressBook.delete_record(name)] *)
Definition delete_record (name : str) : M World str :=
  fun w =>
    if dict_contains name (data w)
    then (Return (lit "Contact " ++ name ++ lit " deleted"),
          MkWorld (heap w) (dict_del name (data w)))
    else (Return (lit "Contact " ++ name ++ lit " not found"), w).

(** [self.data.values()]: the record objects, in the order of the dict *)
Definition values (w : World) : list ContactRecord :=
  omap (fun kv => heap w !! kv.2) (data w).

(** [today <= next_birthday <= today + timedelta(days=7)]: a chained
    comparison, whose right part is computed only if the left part holds. *)
Definition in_window (today next_birthday : date) : result bool :=
  if date_le today next_birthday then
    limit ← date_add_days today 7;
    Return (date_le next_birthday limit)
  else Return false.

(** The loop of [get_upcoming_birthdays]; [acc] is [upcoming_birthdays]. *)
Fixpoint upcoming_loop (today : date) (records : list ContactRecord)
    (acc : list upcoming) : result (list upcoming) :=
  match records with
  | [] => Return acc
  | record :: records' =>
      match birthday record with
      | Some b =>
          next_birthday ← replace_year (birthday_value b) (year today);
          hit ← in_window today next_birthday;
          if hit : bool then
            upcoming_loop today records'
              (acc ++ [Upcoming (name_value (name record))
                                (strftime next_birthday)])
          else upcoming_loop today records' acc
      | None => upcoming_loop today records' acc
      end
  end.

(** [AddressBook.get_upcoming_birthdays()], with the reading of the clock
    ([datetime.today().date()]) as the argument [today]. *)
Definition get_upcoming_birthdays (today : date) : M World (list upcoming) :=
  fun w => (upcoming_loop today (values w) [], w).

(** The calls by which a client changes the objects: the core operations
    of the book and of the records it may hold a reference to. *)
Inductive command : Type :=
| CNewRecord (name : str)
| CAddPhone (a : nat) (phone_number : str)
| CRemovePhone (a : nat) (phone_number : str)
| CEditPhone (a : nat) (old_number new_number : str)
| CAddBirthday (a : nat) (birthday : str)
| CAddRecord (a : nat)
| CDeleteRecord (name : str).

Definition run (c : command) (w : World) : World :=
  match c with
  | CNewRecord name => (new_record name w).2
  | CAddPhone a p => (on_record a (add_phone p) w).2
  | CRemovePhone a p => (on_record a (remove_phone p) w).2
  | CEditPhone a p q => (on_record a (edit_phone p q) w).2
  | CAddBirthday a b => (on_record a (add_birthday b) w).2
  | CAddRecord a => (add_record a w).2
  | CDeleteRecord name => (delete_record name w).2
  end.

(** The states a client can bring about, starting from the empty book. *)
Inductive reachable : World -> Prop :=
| reachable_empty : reachable empty_world
| reachable_run c w : reachable w -> reachable (run c w).

End Book.

(** ** The program: the command handlers and [main] *)

(** *** The built-ins they use *)

(** The characters for which [str.isspace] holds, as inclusive ranges:
    the white space of [str.strip] and [str.split]. *)
Definition isspace_ranges : list (N * N) :=
  [ (9, 13); (0x1c, 0x20); (0x85, 0x85); (0xa0, 0xa0); (0x1680, 0x1680);
    (0x2000, 0x200a); (0x2028, 0x2029); (0x202f, 0x202f); (0x205f, 0x205f);
    (0x3000, 0x3000) ]%N.

Definition Py_UNICODE_ISSPACE (c : N) : bool :=
  existsb (fun r => (r.1 <=? c) && (c <=? r.2))%N isspace_ranges.

Fixpoint str_lstrip (s : str) : str :=
  match s with
  | c :: s' => if Py_UNICODE_ISSPACE c then str_lstrip s' else s
  | [] => []
  end.

(** [s.strip()] *)
Definition str_strip (s : str) : str :=
  reverse (str_lstrip (reverse (str_lstrip s))).

(** The scan of [s.split()]: [word] is the word begun and not yet ended. *)
Fixpoint split_whitespace (word s : str) : list str :=
  match s with
  | [] => match word with [] => [] | _ => [word] end
  | c :: s' =>
      if Py_UNICODE_ISSPACE c then
        match word with
        | [] => split_whitespace [] s'
        | _ => word :: split_whitespace [] s'
        end
      else split_whitespace (word ++ [c]) s'
  end.

(** [s.split()] *)
Definition str_split (s : str) : list str := split_whitespace [] s.

(** [sep.join(parts)] *)
Fixpoint join (sep : str) (parts : list str) : str :=
  match parts with
  | [] => []
  | part :: parts' =>
      match parts' with
      | [] => part
      | _ => part ++ sep ++ join sep parts'
      end
  end.

(** [str(e)] of an exception: its message, and for a [KeyError] the [repr]
    of its message (the messages of the program hold no quote, backslash
    or control character, so the [repr] only adds the quotes). *)
Definition exn_str (e : exn) : str :=
  match e with
  | ValueError msg => lit msg
  | KeyError msg => lit "'" ++ lit msg ++ lit "'"
  | OverflowError msg => lit msg
  end.

(** The [ValueError] of [x1, ..., xn = args] when [args] has not [n]
    elements, with the texts of CPython 3.11. *)
Definition unpack_error (expected got : nat) : exn :=
  if (got <? expected)%nat then
    ValueError ("not enough values to unpack (expected " +:+ pretty expected
                +:+ ", got " +:+ pretty got +:+ ")")
  else
    ValueError ("too many values to unpack (expected " +:+ pretty expected
                +:+ ")").

(** *** The handlers *)

(** What the body of a handler can raise: the exceptions of the book and
    its records, and the [IndexError] of [args[0]]. *)
Inductive raised : Type :=
| Core (e : exn)
| IndexError (msg : string).

Inductive outcome : Type :=
| Done (text : str)
| Failed (e : raised).

Section Handlers.
Context `{Platform}.

Definition core (m : M World str) : World -> outcome * World :=
  fun w =>
    match m w with
    | (Return text, w') => (Done text, w')
    | (Raise e, w') => (Failed (Core e), w')
    end.

(** The decorator [input_error]: the wrapper it returns, for the call of
    [func] on given arguments. *)
Definition input_error (func : World -> outcome * World)
    : World -> str * World :=
  fun w =>
    match func w with
    | (Done text, w') => (text, w')
    | (Failed (Core (ValueError msg)), w') =>
        (lit "ValueError: " ++ exn_str (ValueError msg), w')
    | (Failed (Core (KeyError msg)), w') =>
        (lit "KeyError: " ++ exn_str (KeyError msg), w')
    | (Failed (IndexError _), w') =>
        (lit "IndexError: Invalid input, please try again.", w')
    | (Failed (Core e), w') =>
        (lit "An unexpected error occurred: " ++ exn_str e, w')
    end.

(** The record object at an address of the book (addresses of the dict are
    always allocated; the default only makes the function total). *)
Definition record_at (a : nat) (w : World) : ContactRecord :=
  default (MkRecord (MkName []) [] None) (heap w !! a).

Definition add_contact (args : list str) : World -> str * World :=
  input_error (core
    match args with
    | [name; phone] =>
        record ← new_record name;
        _ ← on_record record (add_phone phone);
        _ ← add_record record;
        mret (lit "Contact " ++ name ++ lit " added with phone number "
              ++ phone)
    | _ => call (Raise (unpack_error 2 (length args)))
    end).

Definition change_phone (args : list str) : World -> str * World :=
  input_error (core
    match args with
    | [name; old_phone; new_phone] =>
        record ← find name;
        _ ← on_record record (edit_phone old_phone new_phone);
        mret (lit "Phone number for " ++ name ++ lit " changed from "
              ++ old_phone ++ lit " to " ++ new_phone)
    | _ => call (Raise (unpack_error 3 (length args)))
    end).

Definition show_phones (args : list str) : World -> str * World :=
  input_error
    match args with
    | [] => fun w => (Failed (IndexError "list index out of range"), w)
    | name :: _ =>
        core (record ← find name;
              w ← get;
              mret (name ++ lit "'s phones: "
                    ++ join (lit ", ")
                         (phone_value <$> phones (record_at record w))))
    end.

(** One turn of the loop of [show_all_contacts]: the text appended. *)
Definition contact_line (record : ContactRecord) : str :=
  let phones := join (lit ", ") (phone_value <$> phones record) in
  let birthday :=
    match birthday record with
    | Some b => strftime (birthday_value b)
    | None => lit "No birthday"
    end in
  lit "Name: " ++ name_value (name record) ++ lit ", Phones: " ++ phones
  ++ lit ", Birthday: " ++ birthday.

Definition show_all_contacts : World -> str * World :=
  input_error (core
    (w ← get;
     mret (join [10%N] (contact_line <$> values w)))).

(** *** [main] *)

(** [try: m except ...: handler] *)
Definition try_except {A} (m : M World A) (handler : exn -> M World A)
    : M World A :=
  fun w =>
    match m w with
    | (Raise e, w') => handler e w'
    | done => done
    end.

Inductive control : Type := Continue | Break.

(** [print] of each of [lines], after which the loop goes on. *)
Definition say (lines : list str) : M World (list str * control) :=
  mret (lines, Continue).

(** [print(handler(...))] *)
Definition shown (handler : World -> str * World)
    : M World (list str * control) :=
  fun w => let '(text, w') := handler w in (Return ([text], Continue), w').

(** One turn of the loop of [main], from [command, *args = tokens] on,
    where [tokens] is [user_input.split()] and [today] the reading of the
    clock.  The result holds the lines printed, [print] being taken to
    succeed; a [Raise] is an exception that leaves [main]. *)
Definition main_step (today : date) (tokens : list str)
    : M World (list str * control) :=
  match tokens with
  | [] =>
      call (Raise (ValueError
        "not enough values to unpack (expected at least 1, got 0)"))
  | command :: args =>
      try_except
        (if bool_decide (command ∈ [lit "close"; lit "exit"]) then
           mret ([lit "Good bye!"], Break)
         else if bool_decide (command = lit "hello") then
           say [lit "How can I help you?"]
         else if bool_decide (command = lit "add") then
           shown (add_contact args)
         else if bool_decide (command = lit "change") then
           shown (change_phone args)
         else if bool_decide (command = lit "phone") then
           shown (show_phones args)
         else if bool_decide (command = lit "all") then
           shown show_all_contacts
         else if bool_decide (command = lit "delete") then
           match args with
           | name :: _ =>
               text ← delete_record name;
               say [text]
           | [] =>
               say [lit "Please provide the name of the contact to delete."]
           end
         else if bool_decide (command = lit "add-birthday") then
           match args with
           | [name; birthday] =>
               w ← get;
               match dict_get name (data w) with
               | Some record =>
                   try_except
                     (_ ← on_record record (add_birthday birthday);
                      say [lit "Birthday for " ++ name ++ lit " added."])
                     (fun e =>
                        match e with
                        | ValueError _ => say [exn_str e]
                        | _ => call (Raise e)
                        end)
               | None => say [lit "Contact " ++ name ++ lit " not found."]
               end
           | _ =>
               say [lit "Please provide both the contact name and the birthday date."]
           end
         else if bool_decide (command = lit "show-birthday") then
           match args with
           | name :: _ =>
               w ← get;
               match dict_get name (data w) with
               | Some record =>
                   match birthday (record_at record w) with
                   | Some b =>
                       say [name ++ lit "'s birthday is "
                            ++ strftime (birthday_value b)]
                   | None =>
                       say [lit "No birthday found for " ++ name ++ lit "."]
                   end
               | None =>
                   say [lit "No birthday found for " ++ name ++ lit "."]
               end
           | [] => say [lit "Please provide the contact name."]
           end
         else if bool_decide (command = lit "birthdays") then
           upcoming_birthdays ← get_upcoming_birthdays today;
           match upcoming_birthdays with
           | [] => say [lit "No upcoming birthdays in the next 7 days."]
           | _ =>
               say ((fun contact =>
                       lit "Name: " ++ up_name contact ++ lit ", Birthday: "
                       ++ up_birthday contact) <$> upcoming_birthdays)
           end
         else say [lit "Invalid command."])
        (fun e => say [lit "An error occurred: " ++ exn_str e])
  end.

(** How a run of [main] stands after the lines given to it: waiting for
    the next line, ended by [break], or left by an exception. *)
Inductive ending : Type :=
| Waiting
| Exited
| Crashed (e : exn).

Section Main.

(** [str.lower], which follows the case mappings of Unicode. *)
Variable lower : str -> str.

(** [input(...).strip().lower()] and then [.split()], for the line read *)
Definition tokens (line : str) : list str :=
  str_split (lower (str_strip line)).

(** The loop of [main] over the lines read, each with the reading of the
    clock while it is handled. *)
Fixpoint main_loop (inputs : list (date * str)) (w : World)
    : list str * ending * World :=
  match inputs with
  | [] => ([], Waiting, w)
  | (today, line) :: inputs' =>
      match main_step today (tokens line) w with
      | (Return (printed, Continue), w') =>
          let '(printed', e, w'') := main_loop inputs' w' in
          (printed ++ printed', e, w'')
      | (Return (printed, Break), w') => (printed, Exited, w')
      | (Raise e, w') => ([], Crashed e, w')
      end
  end.

(** [main()]: the lines printed, how the run stands, and the book. *)
Definition main (inputs : list (date * str)) : list str * ending * World :=
  let '(printed, e, w) := main_loop inputs empty_world in
  (lit "Welcome to the assistant bot!" :: printed, e, w).

End Main.

End Handlers.

(** * Specification

    The notions in which the properties below are stated and proved: the
    texts that denote a date, the phone list without the first entry of a
    value, the window of a week, the invariant of the book.  The program
    above uses none of them. *)

Section Specification.
Context `{Platform}.

(** The exceptions of the program, by name. *)
Definition invalid_phone : exn := ValueError "Invalid phone number".
Definition invalid_date : exn := ValueError "Invalid date format. Use DD.MM.YYYY".
Definition phone_not_found : exn := ValueError "Phone number not found".

(** *** Records and the book *)

(** The phone list without its first entry of value [s]. *)
Fixpoint remove_first (s : str) (ps : list Phone) : list Phone :=
  match ps with
  | [] => []
  | y :: ps' =>
      if decide (phone_value y = s) then ps' else y :: remove_first s ps'
  end.

(** Modelled on the words of the specification: remove the old number,
    then add the new one, each step validating its argument first. *)
Definition editPhone_spec (old new : str) (r : ContactRecord)
    : result unit * ContactRecord :=
  if negb (validate_number old) then (Raise invalid_phone, r)
  else
    let removed := remove_first old (phones r) in
    if negb (validate_number new)
    then (Raise invalid_phone, MkRecord (name r) removed (birthday r))
    else (Return tt,
          MkRecord (name r) (removed ++ [MkPhone new]) (birthday r)).

(** The invariant of the book: the dict has no key twice, and every entry
    refers to a live record whose name is the entry's key. *)
Definition book_inv (w : World) : Prop :=
  NoDup (data w).*1
  /\ forall k a, (k, a) ∈ data w ->
       exists r, heap w !! a = Some r /\ name_value (name r) = k.

(** *** The texts that denote a date, told without the matcher *)

Definition is_char (a : ascii) (c : N) : bool := (c =? chr a)%N.
Definition ascii_in (lo hi : ascii) (c : N) : bool :=
  ((chr lo <=? c) && (c <=? chr hi))%N.
Definition ascii_val (c : N) : Z := Z.of_N c - 48.
Definition decimal_val (c : N) : Z :=
  match Py_UNICODE_TODECIMAL c with Some d => Z.of_N d | None => 0 end.

(** The day: a digit 1-9 alone or after a 0 or a space, or 10 to 31; the
    second digit of 10 to 29 may be any decimal digit of Unicode. *)
Definition day_token (t : str) : option Z :=
  match t with
  | [a] => if ascii_in "1" "9" a then Some (ascii_val a) else None
  | [a; b] =>
      if is_char "3" a && ascii_in "0" "1" b then Some (30 + ascii_val b)
      else if ascii_in "1" "2" a && Py_UNICODE_ISDECIMAL b
      then Some (10 * ascii_val a + decimal_val b)
      else if (is_char "0" a || is_char " " a) && ascii_in "1" "9" b
      then Some (ascii_val b)
      else None
  | _ => None
  end.

(** The month: a digit 1-9 alone or after a 0, or 10 to 12. *)
Definition month_token (t : str) : option Z :=
  match t with
  | [a] => if ascii_in "1" "9" a then Some (ascii_val a) else None
  | [a; b] =>
      if is_char "1" a && ascii_in "0" "2" b then Some (10 + ascii_val b)
      else if is_char "0" a && ascii_in "1" "9" b then Some (ascii_val b)
      else None
  | _ => None
  end.

(** The year: exactly four decimal digits. *)
Definition year_token (t : str) : option Z :=
  match t with
  | [a; b; c; d] =>
      if forallb Py_UNICODE_ISDECIMAL t
      then Some (1000 * decimal_val a + 100 * decimal_val b
                 + 10 * decimal_val c + decimal_val d)
      else None
  | _ => None
  end.

(** A token of one or two characters, and the text after the dot that
    closes it. *)
Definition token_dot (s : str) : option (str * str) :=
  match s with
  | a :: p :: s' =>
      if is_char "." p then Some ([a], s')
      else match s' with
           | q :: s'' => if is_char "." q then Some ([a; p], s'') else None
           | [] => None
           end
  | _ => None
  end.

(** The calendar: every fourth year is a leap year, except the centuries
    not divisible by 400. *)
Definition leap_year (y : Z) : bool :=
  (y mod 4 =? 0) && negb (y mod 100 =? 0) || (y mod 400 =? 0).

(** The number of days of a month. *)
Definition month_length (y m : Z) : Z :=
  if m =? 2 then (if leap_year y then 29 else 28)
  else if (m =? 4) || (m =? 6) || (m =? 9) || (m =? 11) then 30
  else 31.

(** A date of the calendar, in the years 1 to 9999. *)
Definition valid_ymd (y m d : Z) : bool :=
  (1 <=? y) && (y <=? 9999) && (1 <=? m) && (m <=? 12)
  && (1 <=? d) && (d <=? month_length y m).

(** The date a text denotes: day, dot, month, dot, year, and the three
    numbers a date of the calendar. *)
Definition date_text (s : str) : option date :=
  '(dd, s1) ← token_dot s;
  '(mm, yyyy) ← token_dot s1;
  d ← day_token dd;
  m ← month_token mm;
  y ← year_token yyyy;
  if valid_ymd y m d then Some (Date y m d) else None.

(** The match object [re.match] returns for the format's pattern, in
    terms of the tokens. *)
Definition found_dmY (s : str) : option mstate :=
  '(dd, s1) ← token_dot s;
  _ ← day_token dd;
  '(mm, s2) ← token_dot s1;
  _ ← month_token mm;
  match s2 with
  | a :: b :: c :: d :: s' =>
      if forallb Py_UNICODE_ISDECIMAL [a; b; c; d]
      then Some (MState (4 + (length mm + 1 + (length dd + 1 + 0))) s'
                   [("Y", [a; b; c; d]); ("m", mm); ("d", dd)])
      else None
  | _ => None
  end.

(** The pattern of the specification: two digits, a dot, two digits, a
    dot, four digits, the digits being ASCII digits. *)
Definition is_DD_MM_YYYY (s : str) : bool :=
  match s with
  | [d1; d2; p; m1; m2; q; y1; y2; y3; y4] =>
      forallb (ascii_in "0" "9") [d1; d2; m1; m2; y1; y2; y3; y4]
      && is_char "." p && is_char "." q
  | _ => false
  end.

(** *** Dates and their ordinals *)

(** Month and day are those of a date of the calendar. *)
Definition valid_md (d : date) : Prop :=
  1 <= month d <= 12 /\ 1 <= day d <= days_in_month (year d) (month d).

(** [P n && P (n+1) && ...], for [fuel] numbers. *)
Fixpoint all_from (fuel : nat) (n : Z) (P : Z -> bool) : bool :=
  match fuel with
  | O => true
  | S fuel' => P n && all_from fuel' (n + 1) P
  end.

(** What [_ord2ymd] owes its caller, for one ordinal. *)
Definition date_ok (n : Z) (d : date) : bool :=
  (toordinal d =? n) && (1 <=? month d) && (month d <=? 12)
  && (1 <=? day d) && (day d <=? days_in_month (year d) (month d)).

(** The same day [k] years later. *)
Definition add_years (k : Z) (d : date) : date :=
  Date (year d + k) (month d) (day d).

(** *** Upcoming birthdays *)

(** The candidate date: the birthday's month and day in today's year. *)
Definition candidate (today b : date) : date :=
  Date (year today) (month b) (day b).

(** The inclusive window of today and the seven days after it. *)
Definition in_week (today c : date) : bool :=
  (toordinal today <=? toordinal c) && (toordinal c <=? toordinal today + 7).

(** What the specification asks of [get_upcoming_birthdays]: the records
    with a birthday whose candidate date is in the window, in the order of
    the book, each with its name and its candidate date as text. *)
Definition upcoming_spec (today : date) (records : list ContactRecord)
    : list upcoming :=
  omap (fun r =>
          b ← birthday r;
          let c := candidate today (birthday_value b) in
          if in_week today c
          then Some (Upcoming (name_value (name r)) (strftime c))
          else None)
       records.

(** The candidate date exists: it is not the 29th of February of a year
    that has none. *)
Definition has_candidate (today : date) (r : ContactRecord) : Prop :=
  forall b, birthday r = Some b ->
    1 <= month (birthday_value b) <= 12
    /\ 1 <= day (birthday_value b)
            <= days_in_month (year today) (month (birthday_value b)).

(** A stored birthday is a date of the calendar. *)
Definition birthday_ok (r : ContactRecord) : Prop :=
  forall b, birthday r = Some b ->
    valid_ymd (year (birthday_value b)) (month (birthday_value b))
      (day (birthday_value b)) = true.

(** *** Further notions *)

(** What [replace] raises for a 29th of February in a year that is not a
    leap year. *)
Definition leap_day_error : exn := ValueError "day is out of range for month".

(** What every record a client can build satisfies: a name that is not
    empty, phones that passed [validate_number], a birthday of the
    calendar. *)
Definition record_valid (r : ContactRecord) : Prop :=
  name_value (name r) <> []
  /\ Forall (fun p => validate_number (phone_value p) = true) (phones r)
  /\ birthday_ok r.

(** A birthday on a 29th of February. *)
Definition is_leap_day (r : ContactRecord) : bool :=
  match birthday r with
  | Some b => (month (birthday_value b) =? 2) && (day (birthday_value b) =? 29)
  | None => false
  end.

(** A branch of [main]'s loop that prints and goes on: it keeps the
    property [P] of the book, and if it returns, it has printed at least
    one line and does not end the loop. *)
Definition goes_on (P : World -> Prop) (m : M World (list str * control))
    : Prop :=
  forall w,
    (P w -> P (m w).2)
    /\ match (m w).1 with
       | Return (printed, c) => c = Continue /\ printed <> []
       | Raise _ => True
       end.

(** A phone number of ten decimal digits, and a book whose records hold
    only such numbers. *)
Definition plain_number (s : str) : Prop :=
  length s = 10%nat /\ Forall (fun c => Py_UNICODE_ISDECIMAL c = true) s.

Definition plain_phones (w : World) : Prop :=
  Forall (fun r => Forall (fun p => plain_number (phone_value p)) (phones r))
    (heap w).

(** A text without white space, as [str.split] cuts them. *)
Definition word (s : str) : Prop :=
  Forall (fun c => Py_UNICODE_ISSPACE c = false) s.

End Specification.

(** ** A concrete platform: CPython 3.11 on Linux *)

(** No block of digits meets a range of white space. *)
Definition ranges_apart (digits spaces : list (N * N)) : bool :=
  forallb (fun b =>
    forallb (fun r => (r.2 <? b.1) || (b.1 + b.2 <=? r.1))%N spaces) digits.

#[global] Instance cpython_3_11_linux : Platform.
Proof.
  refine {| Py_UNICODE_TODECIMAL := table_decimal unicode_14_Nd;
            todecimal_ascii := _;
            todecimal_bound := _;
            todecimal_not_space := _;
            strftime_Y_padded := false |}.
  - abstract
      (intros c Hc;
       assert (Hall : forallb (fun n =>
                 bool_decide (table_decimal unicode_14_Nd (N.of_nat n) =
                   if ((48 <=? N.of_nat n) && (N.of_nat n <=? 57))%N
                   then Some (N.of_nat n - 48)%N else None)) (seq 0 128)
               = true) by (vm_compute; reflexivity);
       rewrite forallb_forall in Hall;
       assert (Hin : In (N.to_nat c) (seq 0 128)) by (apply in_seq; lia);
       apply Hall in Hin; rewrite N2Nat.id in Hin;
       exact (proj1 (bool_decide_eq_true _) Hin)).
  - abstract
      (intros c d; generalize unicode_14_Nd as tbl;
       induction tbl as [|[start len] tbl IH]; cbn [table_decimal];
       [discriminate|];
       destruct (_ && _); [|exact IH];
       intros [= <-]; apply N.mod_lt; discriminate).
  - abstract
      (intros c d Hd;
       assert (Hrange : exists b, In b unicode_14_Nd
                                  /\ (b.1 <= c < b.1 + b.2)%N);
       [ revert Hd; generalize unicode_14_Nd as tbl;
         induction tbl as [|[start len] tbl IH]; cbn [table_decimal];
         [discriminate|];
         destruct (_ && _) eqn:Hin;
         [ intros _; exists (start, len); split; [now left|];
           apply andb_true_iff in Hin as [H1 H2];
           apply N.leb_le in H1; apply N.ltb_lt in H2; cbn [fst snd]; lia
         | intros Hd; destruct (IH Hd) as (b & Hb & Hc);
           exists b; split; [now right | exact Hc] ]
       | destruct Hrange as (b & Hb & Hc);
         assert (Hapart : ranges_apart unicode_14_Nd whitespace_ranges = true)
           by (vm_compute; reflexivity);
         unfold ranges_apart in Hapart; rewrite forallb_forall in Hapart;
         specialize (Hapart _ Hb); rewrite forallb_forall in Hapart;
         unfold is_int_space;
         destruct (existsb _ whitespace_ranges) eqn:Hex; [|reflexivity];
         apply existsb_exists in Hex as (r & Hr & Hbetween);
         specialize (Hapart _ Hr);
         apply andb_true_iff in Hbetween as [H1 H2];
         apply N.leb_le in H1; apply N.leb_le in H2;
         apply orb_true_iff in Hapart as [H3|H3];
         [apply N.ltb_lt in H3 | apply N.leb_le in H3]; lia ]).
Defined.

(** ** Example data *)

Definition mia (ps : list str) : ContactRecord :=
  MkRecord (MkName (lit "Mia")) (map MkPhone ps) None.

Definition mia_born_1990 : ContactRecord :=
  MkRecord (MkName (lit "Mia")) [MkPhone (lit "0991234567")]
    (Some (MkBirthday (Date 1990 12 25))).

(** A book with one record, and the state before a second record of the
    same name is added to it. *)
Definition book_mia : World :=
  run (CAddRecord 0) (run (CNewRecord (lit "Mia")) empty_world).

Definition book_mia_and_namesake : World :=
  run (CNewRecord (lit "Mia"))
    (run (CAddPhone 0 (lit "0991234567")) book_mia).

(** Bob and Mia: a birthday tomorrow, and one on a 29th of February. *)
Definition book_bob : World :=
  run (CAddRecord 0)
    (run (CAddBirthday 0 (lit "26.02.1990"))
       (run (CNewRecord (lit "Bob")) empty_world)).

Definition book_bob_mia : World :=
  run (CAddRecord 1)
    (run (CAddBirthday 1 (lit "29.02.2000"))
       (run (CNewRecord (lit "Mia")) book_bob)).

(** A book whose one record, Mia, has the given birthday. *)
Definition book_mia_born (birthday : str) : World :=
  run (CAddRecord 0)
    (run (CAddBirthday 0 birthday) (run (CNewRecord (lit "Mia")) empty_world)).

(** Mia's record of 1990, created and then added to the book. *)
Definition book_mia_born_1990 : World :=
  run (CAddRecord 0) (MkWorld [mia_born_1990] []).

(** Lowercasing of the ASCII letters, on which [str.lower] and this
    function agree for texts of ASCII. *)
Definition ascii_lower (s : str) : str :=
  (fun c => if (65 <=? c) && (c <=? 90) then c + 32 else c)%N <$> s.

(** * Properties *)

(** ** The matcher *)

(** Closes a goal about a continuation from a hypothesis that differs only
    in how the position is written. *)
Ltac same_position Hk :=
  match type of Hk with
  | is_Some (?k ?b ?s) =>
      match goal with
      | |- is_Some (k ?a s) => replace a with b by lia; exact Hk
      end
  end.

Section RegexFacts.
Context `{Platform}.

Lemma orelse_is_Some {R} (a b : option R) :
  is_Some (orelse a b) <-> is_Some a \/ is_Some b.
Proof.
  destruct a as [x|]; simpl.
  - split; [intros _; left; eauto | eauto].
  - split; [intros Hb; now right | intros [[x Hx]|Hb]; [discriminate|exact Hb]].
Qed.

(** [cc+] succeeds exactly when some non-empty prefix of characters of the
    class can be followed by the continuation. *)
Lemma plus_loop_is_Some {R} cc (s : str) (k : nat -> str -> option R) p :
  is_Some (plus_loop cc p s k) <->
  exists n : nat,
    (0 < n <= length s)%nat
    /\ Forall (fun c => cclass_matches cc c = true) (take n s)
    /\ is_Some (k (p + n)%nat (drop n s)).
Proof.
  revert p. induction s as [|c s IH]; intros p; cbn [plus_loop].
  - split; [intros [x Hx]; discriminate | intros (n & Hn & _); simpl in Hn; lia].
  - destruct (cclass_matches cc c) eqn:Hc.
    + rewrite orelse_is_Some, IH. split.
      * intros [(n & Hn & Hall & Hk) | Hk].
        -- exists (S n). cbn [take drop length]. split; [lia|].
           split; [constructor; auto|]. same_position Hk.
        -- exists 1%nat. cbn [take drop length]. rewrite take_0, drop_0.
           split; [lia|]. split; [repeat constructor; auto|]. same_position Hk.
      * intros (n & Hn & Hall & Hk). cbn [length] in Hn.
        destruct n as [|[|n]]; [lia| |]; cbn [take drop] in Hall, Hk.
        -- right. rewrite drop_0 in Hk. same_position Hk.
        -- left. exists (S n).
           apply Forall_cons in Hall as [_ Hall].
           split; [lia|]. split; [exact Hall|]. same_position Hk.
    + split; [intros [x Hx]; discriminate|].
      intros (n & Hn & Hall & _). destruct n as [|n]; [lia|].
      cbn [take] in Hall. apply Forall_cons in Hall as [Hc' _]. congruence.
Qed.

(** [validate_number]: ten characters that are all decimal digits, or nine
    decimal digits and a final newline, which [$] lets through. *)
Lemma validate_number_spec (number : str) :
  validate_number number = true <->
  length number = 10%nat
  /\ (Forall (fun c => Py_UNICODE_ISDECIMAL c = true) number
      \/ exists ds, number = ds ++ [10%N]
                    /\ Forall (fun c => Py_UNICODE_ISDECIMAL c = true) ds).
Proof.
  unfold validate_number, re_match. simpl exec.
  rewrite andb_true_iff, Nat.eqb_eq.
  set (k := fun (p : nat) (s' : str) => _).
  assert (Hk : forall p s', is_Some (k p s') <-> s' = [] \/ s' = [10%N]).
  { intros p s'. unfold k. destruct s' as [|c [|c' s']]; cbn [rest].
    - split; [intros _; now left | intros _; eauto].
    - destruct (N.eqb_spec c 10) as [->|Hc].
      + split; [intros _; now right | intros _; eauto].
      + split; [intros [x Hx]; discriminate|].
        intros [|[= ->]]; [discriminate | congruence].
    - split; [intros [x Hx]; discriminate | intros [|]; discriminate]. }
  assert (Hsome : match plus_loop CDigit 0 number k with
                  | Some _ => true | None => false end = true
                  <-> is_Some (plus_loop CDigit 0 number k)).
  { destruct (plus_loop CDigit 0 number k) as [x|].
    - split; [intros _; eauto | reflexivity].
    - split; [discriminate | intros [y Hy]; discriminate]. }
  rewrite Hsome, plus_loop_is_Some. clear Hsome.
  split; intros [Hlen Hm]; (split; [exact Hlen|]).
  - destruct Hm as (n & Hn & Hall & Hrest).
    apply Hk in Hrest as [Hrest|Hrest].
    + left. apply drop_nil_inv in Hrest. rewrite take_ge in Hall by lia.
      exact Hall.
    + right. exists (take n number). split; [|exact Hall].
      rewrite <- Hrest. symmetry. apply take_drop.
  - destruct Hm as [Hall | (ds & -> & Hall)].
    + exists 10%nat. split; [lia|].
      rewrite take_ge, drop_ge by lia. split; [exact Hall|].
      apply Hk. now left.
    + rewrite length_app in Hlen. cbn [length] in Hlen.
      exists (length ds). split; [rewrite length_app; cbn [length]; lia|].
      rewrite take_app_length, drop_app_length. split; [exact Hall|].
      apply Hk. now right.
Qed.

End RegexFacts.

(** ** Phones of a record *)

(** Unfolds the sequencing of a method body applied to a record. *)
Ltac step_method :=
  unfold mbind, M_mbind, M_bind, mret, M_mret, M_ret, call, get, put,
    set_phones, set_birthday;
  cbn beta iota.

Section RecordFacts.
Context `{Platform}.

Lemma Phone_init_valid (s : str) :
  validate_number s = true -> Phone_init s = Return (MkPhone s).
Proof. unfold Phone_init. now intros ->. Qed.

Lemma Phone_init_invalid (s : str) :
  validate_number s = false -> Phone_init s = Raise invalid_phone.
Proof. unfold Phone_init. now intros ->. Qed.

Lemma Phone_eq_true (a b : Phone) :
  Phone_eq a b = true <-> phone_value a = phone_value b.
Proof. unfold Phone_eq. apply bool_decide_eq_true. Qed.

Lemma Phone_eq_false (a b : Phone) :
  Phone_eq a b = false <-> phone_value a <> phone_value b.
Proof. unfold Phone_eq. apply bool_decide_eq_false. Qed.

(** [list.remove] takes out the first element that compares equal. *)
Lemma list_remove_first (x x' : Phone) (pre post : list Phone) :
  Forall (fun y => phone_value y <> phone_value x) pre ->
  phone_value x' = phone_value x ->
  list_remove x (pre ++ x' :: post) = Return (pre ++ post).
Proof.
  intros Hpre Hx. induction Hpre as [|y pre Hy Hpre IH]; cbn [app list_remove].
  - apply Phone_eq_true in Hx. now rewrite Hx.
  - apply Phone_eq_false in Hy. rewrite Hy, IH. reflexivity.
Qed.

(** The loop of [remove_phone], started anywhere in a list whose visited
    part holds no match. *)
Lemma remove_phone_loop_first (p x : Phone) (seen pre post : list Phone) :
  Forall (fun y => phone_value y <> phone_value p) (seen ++ pre) ->
  phone_value x = phone_value p ->
  remove_phone_loop p (pre ++ x :: post) (seen ++ pre ++ x :: post)
  = Return (seen ++ pre ++ post).
Proof.
  revert seen. induction pre as [|y pre IH]; intros seen Hno Hx;
    cbn [app remove_phone_loop].
  - apply Phone_eq_true in Hx as Hx'. rewrite Hx'.
    rewrite app_nil_r in Hno.
    apply list_remove_first; [|reflexivity].
    eapply Forall_impl; [exact Hno|]. intros y Hy. simpl in Hy. congruence.
  - assert (Hy : Phone_eq y p = false).
    { apply Phone_eq_false. apply Forall_app in Hno as [_ Hno].
      now apply Forall_cons in Hno as [Hy _]. }
    rewrite Hy.
    specialize (IH (seen ++ [y])). rewrite <- !app_assoc in IH.
    apply IH; [|exact Hx]. exact Hno.
Qed.

Lemma remove_phone_loop_none (p : Phone) (todo ps : list Phone) :
  Forall (fun y => phone_value y <> phone_value p) todo ->
  remove_phone_loop p todo ps = Return ps.
Proof.
  induction 1 as [|y todo Hy _ IH]; cbn [remove_phone_loop]; [reflexivity|].
  apply Phone_eq_false in Hy. now rewrite Hy.
Qed.

(** A list of phones either holds no entry with the value [s], or splits at
    the first such entry. *)
Lemma first_match_split (s : str) (ps : list Phone) :
  Forall (fun y => phone_value y <> s) ps
  \/ exists pre x post,
       ps = pre ++ x :: post
       /\ Forall (fun y => phone_value y <> s) pre
       /\ phone_value x = s.
Proof.
  induction ps as [|y ps [IH | (pre & x & post & -> & Hpre & Hx)]].
  - left. constructor.
  - destruct (decide (phone_value y = s)) as [Hy|Hy].
    + right. exists [], y, ps. repeat split; [constructor | exact Hy].
    + left. now constructor.
  - right. destruct (decide (phone_value y = s)) as [Hy|Hy].
    + exists [], y, (pre ++ x :: post). repeat split; [constructor | exact Hy].
    + exists (y :: pre), x, post. repeat split; [now constructor | exact Hx].
Qed.

Lemma remove_phone_first (s : str) (r : ContactRecord) pre x post :
  validate_number s = true ->
  phones r = pre ++ x :: post ->
  Forall (fun y => phone_value y <> s) pre ->
  phone_value x = s ->
  remove_phone s r = (Return tt, MkRecord (name r) (pre ++ post) (birthday r)).
Proof.
  intros Hs Hps Hpre Hx. unfold remove_phone.
  rewrite (Phone_init_valid s Hs).
  step_method. rewrite Hps.
  pose proof (remove_phone_loop_first (MkPhone s) x [] pre post) as E.
  cbn [app] in E. rewrite E; [reflexivity | exact Hpre | exact Hx].
Qed.

Lemma remove_phone_absent (s : str) (r : ContactRecord) :
  validate_number s = true ->
  Forall (fun y => phone_value y <> s) (phones r) ->
  remove_phone s r = (Return tt, r).
Proof.
  intros Hs Hno. unfold remove_phone.
  rewrite (Phone_init_valid s Hs).
  step_method.
  rewrite remove_phone_loop_none by exact Hno.
  destruct r; reflexivity.
Qed.

Lemma remove_phone_invalid (s : str) (r : ContactRecord) :
  validate_number s = false ->
  remove_phone s r = (Raise invalid_phone, r).
Proof.
  intros Hs. unfold remove_phone.
  rewrite (Phone_init_invalid s Hs). reflexivity.
Qed.

Lemma add_phone_valid (s : str) (r : ContactRecord) :
  validate_number s = true ->
  add_phone s r
  = (Return tt, MkRecord (name r) (phones r ++ [MkPhone s]) (birthday r)).
Proof.
  intros Hs. unfold add_phone. rewrite (Phone_init_valid s Hs). reflexivity.
Qed.

Lemma add_phone_invalid (s : str) (r : ContactRecord) :
  validate_number s = false ->
  add_phone s r = (Raise invalid_phone, r).
Proof.
  intros Hs. unfold add_phone. rewrite (Phone_init_invalid s Hs). reflexivity.
Qed.

Lemma find_phone_loop_first (s : str) pre x post :
  Forall (fun y => phone_value y <> s) pre ->
  phone_value x = s ->
  find_phone_loop s (pre ++ x :: post) = Return x.
Proof.
  intros Hpre Hx. induction Hpre as [|y pre Hy _ IH]; cbn [app find_phone_loop].
  - now rewrite bool_decide_eq_true_2.
  - now rewrite bool_decide_eq_false_2.
Qed.

Lemma find_phone_loop_none (s : str) ps :
  Forall (fun y => phone_value y <> s) ps ->
  find_phone_loop s ps = Raise phone_not_found.
Proof.
  induction 1 as [|y ps Hy _ IH]; cbn [find_phone_loop]; [reflexivity|].
  now rewrite bool_decide_eq_false_2.
Qed.

End RecordFacts.

(** *** Removing a phone *)

Lemma remove_first_split (s : str) pre x post :
  Forall (fun y => phone_value y <> s) pre ->
  phone_value x = s ->
  remove_first s (pre ++ x :: post) = pre ++ post.
Proof.
  intros Hpre Hx. induction Hpre as [|y pre Hy _ IH]; cbn [app remove_first].
  - now rewrite decide_True.
  - now rewrite decide_False, IH.
Qed.

Lemma remove_first_absent (s : str) ps :
  Forall (fun y => phone_value y <> s) ps -> remove_first s ps = ps.
Proof.
  induction 1 as [|y ps Hy _ IH]; cbn [remove_first]; [reflexivity|].
  now rewrite decide_False, IH.
Qed.

Section RemovePhone.
Context `{Platform}.

(** [remove_phone] as a function of the record: the whole behaviour. *)
Lemma remove_phone_total (s : str) (r : ContactRecord) :
  remove_phone s r =
    if validate_number s
    then (Return tt,
          MkRecord (name r) (remove_first s (phones r)) (birthday r))
    else (Raise invalid_phone, r).
Proof.
  destruct (validate_number s) eqn:Hs; [|now apply remove_phone_invalid].
  destruct (first_match_split s (phones r))
    as [Hno | (pre & x & post & Hps & Hpre & Hx)].
  - rewrite remove_first_absent by exact Hno.
    rewrite remove_phone_absent by assumption. now destruct r.
  - rewrite (remove_phone_first s r pre x post) by assumption.
    now rewrite Hps, remove_first_split.
Qed.

(** C7. For a valid phone string, [remove_phone] takes out exactly the
    first entry of that value and keeps every other entry, later duplicates
    included, in place; when no entry has that value the record is
    unchanged and nothing is raised; for an invalid phone string it raises
    the validation error and the record is unchanged. *)
Theorem remove_phone_removes_first (r : ContactRecord) (s : str) :
  (validate_number s = true ->
     (forall pre x post,
        phones r = pre ++ x :: post ->
        Forall (fun y => phone_value y <> s) pre ->
        phone_value x = s ->
        remove_phone s r
        = (Return tt, MkRecord (name r) (pre ++ post) (birthday r)))
     /\ (Forall (fun y => phone_value y <> s) (phones r) ->
         remove_phone s r = (Return tt, r)))
  /\ (validate_number s = false ->
      remove_phone s r = (Raise invalid_phone, r)).
Proof.
  split; [intros Hs; split|].
  - intros pre x post. now apply remove_phone_first.
  - now apply remove_phone_absent.
  - now apply remove_phone_invalid.
Qed.

End RemovePhone.

Lemma remove_phone_removes_first_witness :
  remove_phone (lit "0991234567")
    (mia [lit "0501112233"; lit "0991234567"; lit "0670000000";
          lit "0991234567"])
  = (Return tt,
     mia [lit "0501112233"; lit "0670000000"; lit "0991234567"])
  /\ remove_phone (lit "0991234567") (mia [lit "0501112233"])
     = (Return tt, mia [lit "0501112233"])
  /\ remove_phone (lit "099-123-45") (mia [lit "0501112233"])
     = (Raise invalid_phone, mia [lit "0501112233"]).
Proof.
  split; [|split].
  - destruct (remove_phone_removes_first
                (mia [lit "0501112233"; lit "0991234567"; lit "0670000000";
                      lit "0991234567"]) (lit "0991234567")) as [Hvalid _].
    destruct Hvalid as [Hfirst _]; [vm_compute; reflexivity|].
    apply (Hfirst [MkPhone (lit "0501112233")] (MkPhone (lit "0991234567"))
             [MkPhone (lit "0670000000"); MkPhone (lit "0991234567")]).
    + reflexivity.
    + repeat constructor. discriminate.
    + reflexivity.
  - destruct (remove_phone_removes_first
                (mia [lit "0501112233"]) (lit "0991234567")) as [Hvalid _].
    destruct Hvalid as [_ Habsent]; [vm_compute; reflexivity|].
    apply Habsent. repeat constructor. discriminate.
  - destruct (remove_phone_removes_first
                (mia [lit "0501112233"]) (lit "099-123-45")) as [_ Hinvalid].
    apply Hinvalid. vm_compute. reflexivity.
Defined.

(** *** Editing a phone *)

Section EditPhone.
Context `{Platform}.

Lemma edit_phone_sequence (old new : str) (r : ContactRecord) :
  edit_phone old new r =
    match remove_phone old r with
    | (Return _, r1) => add_phone new r1
    | (Raise e, r1) => (Raise e, r1)
    end.
Proof. reflexivity. Qed.

Lemma edit_phone_total (old new : str) (r : ContactRecord) :
  edit_phone old new r = editPhone_spec old new r.
Proof.
  rewrite edit_phone_sequence, remove_phone_total. unfold editPhone_spec.
  destruct (validate_number old); cbn [negb]; [|reflexivity].
  destruct (validate_number new) eqn:Hnew; cbn [negb].
  - now rewrite add_phone_valid.
  - now rewrite add_phone_invalid.
Qed.

(** C2. [edit_phone old new] is [remove_phone old] followed by
    [add_phone new]: what the removal raises is raised, and otherwise the
    addition runs on the record the removal left.  So with a valid [old]
    that the record holds and an invalid [new], the call raises the
    validation error and leaves the record without the first [old] and
    without a replacement. *)
Theorem edit_phone_remove_then_add (r : ContactRecord) (old new : str) :
  edit_phone old new r =
    match remove_phone old r with
    | (Return _, r1) => add_phone new r1
    | (Raise e, r1) => (Raise e, r1)
    end
  /\ edit_phone old new r = editPhone_spec old new r
  /\ (forall pre x post,
        validate_number old = true ->
        validate_number new = false ->
        phones r = pre ++ x :: post ->
        Forall (fun y => phone_value y <> old) pre ->
        phone_value x = old ->
        edit_phone old new r
        = (Raise invalid_phone,
           MkRecord (name r) (pre ++ post) (birthday r))).
Proof.
  split; [apply edit_phone_sequence|]. split; [apply edit_phone_total|].
  intros pre x post Hold Hnew Hps Hpre Hx.
  rewrite edit_phone_sequence.
  rewrite (remove_phone_first old r pre x post) by assumption.
  now apply add_phone_invalid.
Qed.

(** C6, as amended. When the record holds the valid number [old] exactly
    once and [new] is a valid number other than [old], then after
    [edit_phone old new] the search for [new] returns a phone of that value
    and the search for [old] raises "Phone number not found". *)
Theorem edit_phone_then_find (r : ContactRecord) (old new : str) pre x post :
  validate_number old = true ->
  validate_number new = true ->
  new <> old ->
  phones r = pre ++ x :: post ->
  phone_value x = old ->
  Forall (fun y => phone_value y <> old) pre ->
  Forall (fun y => phone_value y <> old) post ->
  let r' := (edit_phone old new r).2 in
  (edit_phone old new r).1 = Return tt
  /\ (exists p, (find_phone new r').1 = Return p /\ phone_value p = new)
  /\ (find_phone old r').1 = Raise phone_not_found.
Proof.
  intros Hold Hnew Hne Hps Hx Hpre Hpost r'. subst r'.
  rewrite edit_phone_sequence.
  rewrite (remove_phone_first old r pre x post) by assumption.
  rewrite add_phone_valid by assumption. cbn [fst snd].
  split; [reflexivity|]. unfold find_phone. step_method. cbn [phones fst].
  split.
  - destruct (first_match_split new ((pre ++ post) ++ [MkPhone new]))
      as [Hno | (pre' & x' & post' & Hsplit & Hpre' & Hx')].
    + apply Forall_app in Hno as [_ Hno].
      apply Forall_cons in Hno as [Hno _]. now contradiction Hno.
    + exists x'. rewrite Hsplit. split; [|exact Hx'].
      now apply find_phone_loop_first.
  - apply find_phone_loop_none.
    rewrite !Forall_app. repeat split; try assumption.
    repeat constructor. exact Hne.
Qed.

End EditPhone.

Lemma edit_phone_remove_then_add_witness :
  edit_phone (lit "0991234567") (lit "12345")
    (mia [lit "0501112233"; lit "0991234567"])
  = (Raise invalid_phone, mia [lit "0501112233"]).
Proof.
  destruct (edit_phone_remove_then_add
              (mia [lit "0501112233"; lit "0991234567"])
              (lit "0991234567") (lit "12345")) as (_ & _ & Hquirk).
  apply (Hquirk [MkPhone (lit "0501112233")] (MkPhone (lit "0991234567")) []).
  - vm_compute. reflexivity.
  - vm_compute. reflexivity.
  - reflexivity.
  - repeat constructor. discriminate.
  - reflexivity.
Defined.

Lemma edit_phone_then_find_witness :
  let r := mia [lit "0501112233"; lit "0991234567"] in
  let r' := (edit_phone (lit "0991234567") (lit "0670000000") r).2 in
  (edit_phone (lit "0991234567") (lit "0670000000") r).1 = Return tt
  /\ (exists p, (find_phone (lit "0670000000") r').1 = Return p
                /\ phone_value p = lit "0670000000")
  /\ (find_phone (lit "0991234567") r').1 = Raise phone_not_found.
Proof.
  apply (edit_phone_then_find
           (mia [lit "0501112233"; lit "0991234567"])
           (lit "0991234567") (lit "0670000000")
           [MkPhone (lit "0501112233")] (MkPhone (lit "0991234567")) []).
  - vm_compute. reflexivity.
  - vm_compute. reflexivity.
  - discriminate.
  - reflexivity.
  - reflexivity.
  - repeat constructor. discriminate.
  - constructor.
Defined.

(** C6, as stated, fails in two ways: when the new number is the old one,
    and when the record holds the old number twice; in both the search for
    the old number still succeeds after the edit. *)
Lemma edit_phone_then_find_counterexample :
  (let r := mia [lit "0991234567"] in
   let old := lit "0991234567" in
   let new := lit "0991234567" in
   MkPhone old ∈ phones r
   /\ validate_number new = true
   /\ (find_phone old (edit_phone old new r).2).1 = Return (MkPhone old))
  /\ (let r := mia [lit "0991234567"; lit "0991234567"] in
      let old := lit "0991234567" in
      let new := lit "0670000000" in
      MkPhone old ∈ phones r
      /\ validate_number new = true
      /\ (find_phone old (edit_phone old new r).2).1 = Return (MkPhone old)).
Proof.
  split; cbv zeta; (split; [apply list_elem_of_here|]);
    split; vm_compute; reflexivity.
Qed.

(** ** The dict of the book *)

Section DictFacts.
Context {V : Type}.
Implicit Types (d : list (str * V)) (k : str) (v : V).

Lemma dict_get_Some k v d : dict_get k d = Some v -> (k, v) ∈ d.
Proof.
  induction d as [|[k' v'] d IH]; cbn [dict_get]; [discriminate|].
  destruct (decide (k' = k)) as [->|Hne].
  - intros [= ->]. apply list_elem_of_here.
  - intros Hget. apply list_elem_of_further, IH, Hget.
Qed.

Lemma dict_get_None k d : dict_get k d = None <-> k ∉ d.*1.
Proof.
  induction d as [|[k' v'] d IH]; cbn [dict_get fmap list_fmap fst].
  - split; [intros _; apply not_elem_of_nil | reflexivity].
  - rewrite not_elem_of_cons. destruct (decide (k' = k)) as [->|Hne].
    + split; [discriminate | intros [Hk _]; now contradiction Hk].
    + rewrite IH. split; [intros Hk; split; [congruence | exact Hk] | now intros [_ Hk]].
Qed.

Lemma dict_set_keys k v d :
  (dict_set k v d).*1 = if dict_contains k d then d.*1 else d.*1 ++ [k].
Proof.
  unfold dict_contains.
  induction d as [|[k' v'] d IH]; cbn [dict_set dict_get fmap list_fmap fst app];
    [reflexivity|].
  destruct (decide (k' = k)) as [->|Hne]; [reflexivity|].
  cbn [fmap list_fmap fst]. change (list_fmap _ _ fst) with (fmap (M:=list) (@fst str V)).
  rewrite IH. now destruct (dict_get k d).
Qed.

Lemma dict_get_set_eq k v d : dict_get k (dict_set k v d) = Some v.
Proof.
  induction d as [|[k' v'] d IH]; cbn [dict_set dict_get].
  - now rewrite decide_True.
  - destruct (decide (k' = k)) as [->|Hne]; cbn [dict_get].
    + now rewrite decide_True.
    + now rewrite decide_False.
Qed.

Lemma dict_get_set_ne k k' v d :
  k' <> k -> dict_get k' (dict_set k v d) = dict_get k' d.
Proof.
  intros Hne. induction d as [|[k1 v1] d IH]; cbn [dict_set dict_get].
  - now rewrite decide_False.
  - destruct (decide (k1 = k)) as [->|Hk1]; cbn [dict_get].
    + now rewrite !decide_False by congruence.
    + now rewrite IH.
Qed.

Lemma dict_set_elem k v k' v' d :
  (k', v') ∈ dict_set k v d -> (k', v') = (k, v) \/ (k', v') ∈ d.
Proof.
  induction d as [|[k1 v1] d IH]; cbn [dict_set].
  - intros Hin. apply list_elem_of_singleton in Hin. now left.
  - destruct (decide (k1 = k)) as [->|Hk1]; rewrite !elem_of_cons.
    + intros [Heq | Hin]; [now left | right; now right].
    + intros [Heq | Hin]; [right; now left|].
      destruct (IH Hin) as [Heq | Hin']; [now left | right; now right].
Qed.

Lemma dict_set_NoDup k v d : NoDup d.*1 -> NoDup (dict_set k v d).*1.
Proof.
  intros Hd. rewrite dict_set_keys. unfold dict_contains.
  destruct (dict_get k d) eqn:Hget; [exact Hd|].
  apply NoDup_app. split; [exact Hd|]. split.
  - intros k' Hin Hin'. apply list_elem_of_singleton in Hin'. subst k'.
    now apply dict_get_None in Hget.
  - apply NoDup_singleton.
Qed.

Lemma dict_del_elem k k' v' d : (k', v') ∈ dict_del k d -> (k', v') ∈ d.
Proof.
  induction d as [|[k1 v1] d IH]; cbn [dict_del]; [easy|].
  destruct (decide (k1 = k)) as [->|Hk1]; rewrite !elem_of_cons.
  - now right.
  - intros [Heq | Hin]; [now left | right; now apply IH].
Qed.

Lemma dict_del_keys_sub k k' d : k' ∈ (dict_del k d).*1 -> k' ∈ d.*1.
Proof.
  intros Hin. apply list_elem_of_fmap in Hin as ([k1 v1] & -> & Hin).
  apply list_elem_of_fmap. exists (k1, v1). split; [reflexivity|].
  eapply dict_del_elem, Hin.
Qed.

Lemma dict_del_NoDup k d : NoDup d.*1 -> NoDup (dict_del k d).*1.
Proof.
  induction d as [|[k1 v1] d IH]; cbn [dict_del fmap list_fmap fst]; [easy|].
  intros Hd. apply NoDup_cons in Hd as [Hk1 Hd].
  destruct (decide (k1 = k)) as [->|Hne]; [exact Hd|].
  cbn [fmap list_fmap fst]. apply NoDup_cons. split; [|now apply IH].
  intros Hin. apply Hk1. eapply dict_del_keys_sub, Hin.
Qed.

Lemma dict_get_del_eq k d : NoDup d.*1 -> dict_get k (dict_del k d) = None.
Proof.
  induction d as [|[k1 v1] d IH]; cbn [dict_del fmap list_fmap fst];
    [reflexivity|].
  intros Hd. apply NoDup_cons in Hd as [Hk1 Hd].
  destruct (decide (k1 = k)) as [->|Hne].
  - now apply dict_get_None.
  - cbn [dict_get]. rewrite decide_False by exact Hne. now apply IH.
Qed.

Lemma dict_get_del_ne k k' d :
  k' <> k -> dict_get k' (dict_del k d) = dict_get k' d.
Proof.
  intros Hne. induction d as [|[k1 v1] d IH]; cbn [dict_del dict_get];
    [reflexivity|].
  destruct (decide (k1 = k)) as [->|Hk1]; cbn [dict_get].
  - now rewrite decide_False by congruence.
  - now rewrite IH.
Qed.

End DictFacts.

(** ** The address book *)

Section BookFacts.
Context `{Platform}.

Lemma indicators_differ (name : str) :
  lit "Contact " ++ name ++ lit " deleted"
  <> lit "Contact " ++ name ++ lit " not found".
Proof.
  intros Heq. apply app_inv_head, app_inv_head in Heq. discriminate Heq.
Qed.

(** C8. In a book (a dict, so without a repeated key), [delete_record] of a
    present name returns the "deleted" text, removes that entry and no
    other, so that [find] then raises "Record not found"; of an absent name
    it returns the "not found" text, raises nothing and changes nothing.
    The two texts differ. *)
Theorem delete_record_reports (w : World) (name : str) :
  NoDup (data w).*1 ->
  (dict_contains name (data w) = true ->
   (delete_record name w).1 = Return (lit "Contact " ++ name ++ lit " deleted")
   /\ heap (delete_record name w).2 = heap w
   /\ (find name (delete_record name w).2).1
      = Raise (KeyError "Record not found")
   /\ (forall k, k <> name ->
         dict_get k (data (delete_record name w).2) = dict_get k (data w)))
  /\ (dict_contains name (data w) = false ->
      delete_record name w
      = (Return (lit "Contact " ++ name ++ lit " not found"), w))
  /\ lit "Contact " ++ name ++ lit " deleted"
     <> lit "Contact " ++ name ++ lit " not found".
Proof.
  intros Hnodup. unfold delete_record.
  split; [|split; [|apply indicators_differ]]; intros Hin; rewrite Hin.
  - cbn [fst snd heap data]. split; [reflexivity|]. split; [reflexivity|].
    split.
    + unfold find. cbn [data]. now rewrite dict_get_del_eq.
    + intros k Hk. now apply dict_get_del_ne.
  - reflexivity.
Qed.

(** The record methods leave the name alone. *)
Lemma add_phone_name s r : name (add_phone s r).2 = name r.
Proof. unfold add_phone. step_method. now destruct (Phone_init s). Qed.

Lemma remove_phone_name s r : name (remove_phone s r).2 = name r.
Proof. rewrite remove_phone_total. now destruct (validate_number s). Qed.

Lemma edit_phone_name old new r : name (edit_phone old new r).2 = name r.
Proof.
  rewrite edit_phone_total. unfold editPhone_spec.
  now destruct (validate_number old), (validate_number new).
Qed.

Lemma add_birthday_name s r : name (add_birthday s r).2 = name r.
Proof. unfold add_birthday. step_method. now destruct (Birthday_init s). Qed.

Lemma on_record_inv a (m : M ContactRecord unit) (w : World) :
  (forall r, name (m r).2 = name r) ->
  book_inv w -> book_inv (on_record a m w).2.
Proof.
  intros Hname [Hnodup Hkeys]. unfold on_record.
  destruct (heap w !! a) as [r|] eqn:Ha; [|now split].
  specialize (Hname r). destruct (m r) as [res r']. cbn [snd] in Hname |- *.
  split; [exact Hnodup|]. cbn [heap data]. intros k a' Hin.
  destruct (Hkeys k a' Hin) as (r0 & Hr0 & Hk).
  destruct (decide (a' = a)) as [->|Hne].
  - exists r'. rewrite list_lookup_insert_eq by (eapply lookup_lt_Some, Ha).
    split; [reflexivity|]. congruence.
  - exists r0. now rewrite list_lookup_insert_ne by congruence.
Qed.

Lemma add_record_inv a (w : World) : book_inv w -> book_inv (add_record a w).2.
Proof.
  intros [Hnodup Hkeys]. unfold add_record.
  destruct (heap w !! a) as [r|] eqn:Ha; [|now split].
  cbn [snd]. split; cbn [heap data].
  - now apply dict_set_NoDup.
  - intros k a' Hin. apply dict_set_elem in Hin as [[= -> ->] | Hin].
    + now exists r.
    + now apply Hkeys.
Qed.

Lemma delete_record_inv name (w : World) :
  book_inv w -> book_inv (delete_record name w).2.
Proof.
  intros [Hnodup Hkeys]. unfold delete_record.
  destruct (dict_contains name (data w)); [|now split].
  cbn [snd]. split; cbn [heap data].
  - now apply dict_del_NoDup.
  - intros k a Hin. eapply Hkeys, dict_del_elem, Hin.
Qed.

Lemma new_record_inv name (w : World) :
  book_inv w -> book_inv (new_record name w).2.
Proof.
  intros [Hnodup Hkeys]. unfold new_record.
  destruct (Record_init name) as [r|e]; [|now split].
  cbn [snd]. split; [exact Hnodup|]. cbn [heap data]. intros k a Hin.
  destruct (Hkeys k a Hin) as (r0 & Hr0 & Hk). exists r0.
  split; [|exact Hk]. now apply lookup_app_l_Some.
Qed.

Lemma run_inv c (w : World) : book_inv w -> book_inv (run c w).
Proof.
  destruct c; cbn [run].
  - apply new_record_inv.
  - apply on_record_inv, add_phone_name.
  - apply on_record_inv, remove_phone_name.
  - apply on_record_inv, edit_phone_name.
  - apply on_record_inv, add_birthday_name.
  - apply add_record_inv.
  - apply delete_record_inv.
Qed.

Lemma reachable_inv (w : World) : reachable w -> book_inv w.
Proof.
  induction 1 as [|c w _ IH].
  - split; [constructor | intros k a Hin; now apply elem_of_nil in Hin].
  - now apply run_inv.
Qed.

(** C9. In every state reached from the empty book by creating records,
    calling their mutators, [add_record] and [delete_record], each entry of
    the dict refers to a record whose name is the entry's key, and no key
    occurs twice.  [add_record] of a record makes its name refer to that
    record whether or not the name was a key before, and changes no other
    key. *)
Theorem reachable_names_match_keys (w : World) :
  reachable w ->
  (forall k a, (k, a) ∈ data w ->
     exists r, heap w !! a = Some r /\ name_value (name r) = k)
  /\ NoDup (data w).*1
  /\ (forall a r, heap w !! a = Some r ->
        (find (name_value (name r)) (add_record a w).2).1 = Return a
        /\ (forall k, k <> name_value (name r) ->
              dict_get k (data (add_record a w).2) = dict_get k (data w))
        /\ (dict_contains (name_value (name r)) (data w) = true ->
            (data (add_record a w).2).*1 = (data w).*1)).
Proof.
  intros Hreach. destruct (reachable_inv w Hreach) as [Hnodup Hkeys].
  split; [exact Hkeys|]. split; [exact Hnodup|].
  intros a r Ha. unfold add_record, find. rewrite Ha. cbn [snd data fst].
  split; [now rewrite dict_get_set_eq|]. split.
  - intros k Hk. now apply dict_get_set_ne.
  - intros Hin. now rewrite dict_set_keys, Hin.
Qed.

End BookFacts.

Lemma delete_record_reports_witness :
  (delete_record (lit "Mia") book_mia).1 = Return (lit "Contact Mia deleted")
  /\ (find (lit "Mia") (delete_record (lit "Mia") book_mia).2).1
     = Raise (KeyError "Record not found")
  /\ delete_record (lit "Bob") book_mia
     = (Return (lit "Contact Bob not found"), book_mia).
Proof.
  assert (Hnodup : NoDup (data book_mia).*1).
  { apply (bool_decide_unpack _). vm_compute. reflexivity. }
  destruct (delete_record_reports book_mia (lit "Mia") Hnodup)
    as (Hpresent & _ & _).
  destruct (delete_record_reports book_mia (lit "Bob") Hnodup)
    as (_ & Habsent & _).
  destruct Hpresent as (Hres & _ & Hfind & _); [vm_compute; reflexivity|].
  split; [exact Hres|]. split; [exact Hfind|].
  apply Habsent. vm_compute. reflexivity.
Defined.

Lemma reachable_names_match_keys_witness :
  NoDup (data book_mia_and_namesake).*1
  /\ (forall k a, (k, a) ∈ data book_mia_and_namesake ->
        exists r, heap book_mia_and_namesake !! a = Some r
                  /\ name_value (name r) = k)
  /\ (find (lit "Mia") (add_record 1 book_mia_and_namesake).2).1
     = Return 1%nat.
Proof.
  assert (Hreach : reachable book_mia_and_namesake).
  { unfold book_mia_and_namesake, book_mia.
    repeat apply reachable_run. apply reachable_empty. }
  destruct (reachable_names_match_keys book_mia_and_namesake Hreach)
    as (Hkeys & Hnodup & Hlast).
  split; [exact Hnodup|]. split; [exact Hkeys|].
  destruct (Hlast 1%nat (MkRecord (MkName (lit "Mia")) [] None) eq_refl)
    as (Hfind & _).
  exact Hfind.
Defined.

(** ** Dates as text *)

(** Tactics for the case analyses on characters below: the tests on a
    character are comparisons with constants, decided by [lia] once the
    character is placed among the ASCII digits, the space and the dot. *)
Ltac chars_to_N :=
  unfold is_char, ascii_in;
  change (chr "0") with 48%N; change (chr "1") with 49%N;
  change (chr "2") with 50%N; change (chr "3") with 51%N;
  change (chr "9") with 57%N; change (chr " ") with 32%N;
  change (chr ".") with 46%N.

Ltac decide_atoms :=
  repeat match goal with
  | |- context [(?x =? ?y)%N] =>
      first [ rewrite (proj2 (N.eqb_eq x y)) by lia
            | rewrite (proj2 (N.eqb_neq x y)) by lia ]
  | |- context [(?x <=? ?y)%N] =>
      first [ rewrite (proj2 (N.leb_le x y)) by lia
            | rewrite (proj2 (N.leb_gt x y)) by lia ]
  end.

Section StrptimeFacts.
Context `{Platform}.

Lemma class_lit (a : ascii) (c : N) :
  cclass_matches (CLit (chr a)) c = is_char a c.
Proof. reflexivity. Qed.

Lemma class_range (lo hi : ascii) (c : N) :
  cclass_matches (CRange (chr lo) (chr hi)) c = ascii_in lo hi c.
Proof. reflexivity. Qed.

Lemma class_digit (c : N) : cclass_matches CDigit c = Py_UNICODE_ISDECIMAL c.
Proof. reflexivity. Qed.

Lemma isdecimal_ascii (c : N) :
  (c < 128)%N -> Py_UNICODE_ISDECIMAL c = ((48 <=? c) && (c <=? 57))%N.
Proof.
  intros Hc. unfold Py_UNICODE_ISDECIMAL. rewrite todecimal_ascii by exact Hc.
  now destruct (_ && _).
Qed.

Lemma orelse_None_r {R} (a : option R) : orelse a None = a.
Proof. now destruct a. Qed.

Lemma take_succ_sub {A} (p : nat) (a : A) (s : list A) :
  take (S p - p) (a :: s) = [a].
Proof. replace (S p - p)%nat with 1%nat by lia. reflexivity. Qed.

Lemma take_succ2_sub {A} (p : nat) (a b : A) (s : list A) :
  take (S (S p) - p) (a :: b :: s) = [a; b].
Proof. replace (S (S p) - p)%nat with 2%nat by lia. reflexivity. Qed.

(** Places a character: below the space, the space, between the space and
    the dot, the dot, the slash, one of the digits 0 to 3, a digit 4 to 9,
    or beyond the digits; there its being a decimal digit is open. *)
Lemma char_regions (a : N) :
  (a < 32 \/ a = 32 \/ 32 < a < 46 \/ a = 46 \/ a = 47 \/ a = 48 \/ a = 49
   \/ a = 50 \/ a = 51 \/ 52 <= a <= 57 \/ 57 < a)%N.
Proof. lia. Qed.

End StrptimeFacts.

Ltac settle :=
  repeat first
    [ progress decide_atoms
    | progress cbn [andb orb negb orelse length Nat.add]
    | rewrite orelse_None_r ].

Ltac region a :=
  let Hr := fresh "Hr" in
  destruct (char_regions a)
    as [Hr|[Hr|[Hr|[Hr|[Hr|[Hr|[Hr|[Hr|[Hr|[Hr|Hr]]]]]]]]]];
  [ rewrite ?(isdecimal_ascii a) by lia
  | rewrite ?(isdecimal_ascii a) by lia
  | rewrite ?(isdecimal_ascii a) by lia
  | rewrite ?(isdecimal_ascii a) by lia
  | rewrite ?(isdecimal_ascii a) by lia
  | rewrite ?(isdecimal_ascii a) by lia
  | rewrite ?(isdecimal_ascii a) by lia
  | rewrite ?(isdecimal_ascii a) by lia
  | rewrite ?(isdecimal_ascii a) by lia
  | rewrite ?(isdecimal_ascii a) by lia
  | try match goal with
        | |- context [Py_UNICODE_ISDECIMAL a] =>
            destruct (Py_UNICODE_ISDECIMAL a) eqn:?
        end ];
  settle.

(** Case analysis on whether a character is the dot. *)
Ltac dot_or_not b Hb :=
  destruct (is_char "." b) eqn:Hb;
  [ apply N.eqb_eq in Hb; change (chr ".") with 46%N in Hb
  | apply N.eqb_neq in Hb; change (chr ".") with 46%N in Hb ].

Section StrptimeMatch.
Context `{Platform}.

Lemma exec_day_dot {R} (st : mstate) (k : mstate -> option R) :
  exec directive_d st (fun st1 => exec (one ".") st1 k) =
    match token_dot (rest st) with
    | Some (dd, s1) =>
        match day_token dd with
        | Some _ =>
            k (MState (length dd + 1 + pos st) s1 (("d", dd) :: groups st))
        | None => None
        end
    | None => None
    end.
Proof.
  destruct st as [p s g]. unfold directive_d, one, range, digit.
  cbn [exec rest pos groups].
  destruct s as [|a [|b [|c s]]]; cbn [rest pos groups orelse token_dot].
  - reflexivity.
  - now repeat destruct (cclass_matches _ a).
  - rewrite ?take_succ_sub, ?take_succ2_sub, ?class_lit, ?class_range,
      ?class_digit.
    dot_or_not b Hb; cbn [day_token]; chars_to_N.
    all: region a; region b; first [reflexivity | exfalso; lia].
  - rewrite ?take_succ_sub, ?take_succ2_sub, ?class_lit, ?class_range,
      ?class_digit.
    dot_or_not b Hb; [|dot_or_not c Hc]; cbn [day_token]; chars_to_N.
    all: region a; region b; first [reflexivity | exfalso; lia].
Qed.

Lemma exec_month_dot {R} (st : mstate) (k : mstate -> option R) :
  exec directive_m st (fun st1 => exec (one ".") st1 k) =
    match token_dot (rest st) with
    | Some (mm, s1) =>
        match month_token mm with
        | Some _ =>
            k (MState (length mm + 1 + pos st) s1 (("m", mm) :: groups st))
        | None => None
        end
    | None => None
    end.
Proof.
  destruct st as [p s g]. unfold directive_m, one, range, digit.
  cbn [exec rest pos groups].
  destruct s as [|a [|b [|c s]]]; cbn [rest pos groups orelse token_dot].
  - reflexivity.
  - now repeat destruct (cclass_matches _ a).
  - rewrite ?take_succ_sub, ?take_succ2_sub, ?class_lit, ?class_range,
      ?class_digit.
    dot_or_not b Hb; cbn [month_token]; chars_to_N.
    all: region a; region b; first [reflexivity | exfalso; lia].
  - rewrite ?take_succ_sub, ?take_succ2_sub, ?class_lit, ?class_range,
      ?class_digit.
    dot_or_not b Hb; [|dot_or_not c Hc]; cbn [month_token]; chars_to_N.
    all: region a; region b; first [reflexivity | exfalso; lia].
Qed.

Lemma exec_year {R} (st : mstate) (k : mstate -> option R) :
  exec directive_Y st k =
    match rest st with
    | a :: b :: c :: d :: s' =>
        if forallb Py_UNICODE_ISDECIMAL [a; b; c; d]
        then k (MState (4 + pos st) s' (("Y", [a; b; c; d]) :: groups st))
        else None
    | _ => None
    end.
Proof.
  destruct st as [p s g]. unfold directive_Y, digit.
  cbn [exec rest pos groups forallb].
  destruct s as [|a [|b [|c [|d s]]]]; cbn [rest pos groups];
    rewrite ?class_digit.
  - reflexivity.
  - now destruct (Py_UNICODE_ISDECIMAL a).
  - now destruct (Py_UNICODE_ISDECIMAL a), (Py_UNICODE_ISDECIMAL b).
  - now destruct (Py_UNICODE_ISDECIMAL a), (Py_UNICODE_ISDECIMAL b),
      (Py_UNICODE_ISDECIMAL c).
  - replace (S (S (S (S p))) - p)%nat with 4%nat by lia.
    now destruct (Py_UNICODE_ISDECIMAL a), (Py_UNICODE_ISDECIMAL b),
      (Py_UNICODE_ISDECIMAL c), (Py_UNICODE_ISDECIMAL d).
Qed.

Lemma re_match_format (s : str) : re_match format_regex s = found_dmY s.
Proof.
  unfold re_match, format_regex, found_dmY.
  change (exec (RCat directive_d (RCat (one ".") (RCat directive_m
            (RCat (one ".") directive_Y)))) (MState 0 s []) Some)
    with (exec directive_d (MState 0 s [])
            (fun st1 => exec (one ".") st1
               (fun st2 => exec directive_m st2
                  (fun st3 => exec (one ".") st3
                     (fun st4 => exec directive_Y st4 Some))))).
  rewrite exec_day_dot. cbn [rest pos groups].
  destruct (token_dot s) as [[dd s1]|]; [|reflexivity]. cbn [mbind option_bind].
  destruct (day_token dd); [|reflexivity]. cbn [mbind option_bind].
  rewrite exec_month_dot. cbn [rest pos groups].
  destruct (token_dot s1) as [[mm s2]|]; [|reflexivity]. cbn [mbind option_bind].
  destruct (month_token mm); [|reflexivity]. cbn [mbind option_bind].
  rewrite exec_year. reflexivity.
Qed.

End StrptimeMatch.

Section IntFacts.
Context `{Platform}.

Lemma isspace_ascii_digit (a : N) :
  (48 <= a <= 57)%N -> is_int_space a = false.
Proof.
  intros Ha. unfold is_int_space, whitespace_ranges.
  cbn [existsb fst snd]. decide_atoms. reflexivity.
Qed.

Lemma isdecimal_value (a : N) :
  Py_UNICODE_ISDECIMAL a = true ->
  Py_UNICODE_TODECIMAL a = Some (Z.to_N (decimal_val a))
  /\ 0 <= decimal_val a <= 9.
Proof.
  unfold Py_UNICODE_ISDECIMAL, decimal_val.
  destruct (Py_UNICODE_TODECIMAL a) as [d|] eqn:Hd; [|discriminate].
  intros _. rewrite N2Z.id. split; [reflexivity|].
  apply todecimal_bound in Hd. lia.
Qed.

Lemma isspace_decimal (a : N) :
  Py_UNICODE_ISDECIMAL a = true -> is_int_space a = false.
Proof.
  unfold Py_UNICODE_ISDECIMAL.
  destruct (Py_UNICODE_TODECIMAL a) as [d|] eqn:Hd; [|discriminate].
  intros _. eapply todecimal_not_space, Hd.
Qed.

Lemma decimal_val_ascii (a : N) :
  (48 <= a <= 57)%N -> decimal_val a = ascii_val a.
Proof.
  intros Ha. unfold decimal_val, ascii_val.
  rewrite todecimal_ascii by lia. decide_atoms. cbn [andb]. lia.
Qed.

Lemma digits_value_cons (acc : Z) (a : N) (s : str) :
  Py_UNICODE_ISDECIMAL a = true ->
  digits_value acc (a :: s) = digits_value (10 * acc + decimal_val a) s.
Proof.
  intros Ha. cbn [digits_value]. unfold Py_UNICODE_ISDECIMAL in Ha.
  unfold decimal_val. now destruct (Py_UNICODE_TODECIMAL a).
Qed.

Lemma py_int_one (a : N) :
  Py_UNICODE_ISDECIMAL a = true -> py_int [a] = Return (decimal_val a).
Proof.
  intros Ha. unfold py_int, strip. cbn [lstrip].
  rewrite (isspace_decimal a Ha). cbn [reverse rev_append lstrip].
  rewrite (isspace_decimal a Ha). cbn [reverse rev_append].
  rewrite digits_value_cons by exact Ha. cbn [digits_value].
  f_equal; lia.
Qed.

Lemma py_int_two (a b : N) :
  Py_UNICODE_ISDECIMAL a = true -> Py_UNICODE_ISDECIMAL b = true ->
  py_int [a; b] = Return (10 * decimal_val a + decimal_val b).
Proof.
  intros Ha Hb. unfold py_int, strip. cbn [lstrip].
  rewrite (isspace_decimal a Ha). cbn [reverse rev_append lstrip].
  rewrite (isspace_decimal b Hb). cbn [reverse rev_append].
  rewrite !digits_value_cons by assumption. cbn [digits_value].
  f_equal; lia.
Qed.

Lemma py_int_space (b : N) :
  Py_UNICODE_ISDECIMAL b = true -> py_int [32%N; b] = Return (decimal_val b).
Proof.
  intros Hb. unfold py_int, strip. cbn [lstrip].
  change (is_int_space 32) with true. cbn iota. cbn [lstrip].
  rewrite (isspace_decimal b Hb). cbn [reverse rev_append lstrip].
  rewrite (isspace_decimal b Hb). cbn [reverse rev_append].
  rewrite digits_value_cons by exact Hb. cbn [digits_value].
  f_equal; lia.
Qed.

Lemma py_int_four (a b c d : N) :
  forallb Py_UNICODE_ISDECIMAL [a; b; c; d] = true ->
  py_int [a; b; c; d]
  = Return (1000 * decimal_val a + 100 * decimal_val b
            + 10 * decimal_val c + decimal_val d).
Proof.
  cbn [forallb]. rewrite !andb_true_iff. intros (Ha & Hb & Hc & Hd & _).
  unfold py_int, strip. cbn [lstrip].
  rewrite (isspace_decimal a Ha). cbn [reverse rev_append lstrip].
  rewrite (isspace_decimal d Hd). cbn [reverse rev_append].
  rewrite !digits_value_cons by assumption. cbn [digits_value].
  f_equal; lia.
Qed.

Lemma py_int_day (dd : str) (v : Z) :
  day_token dd = Some v -> py_int dd = Return v.
Proof.
  destruct dd as [|a [|b [|c dd]]]; cbn [day_token]; try discriminate.
  - chars_to_N. region a; intros [= <-]; try discriminate.
    all: rewrite py_int_one by (rewrite isdecimal_ascii by lia; decide_atoms; reflexivity).
    all: now rewrite decimal_val_ascii by lia.
  - chars_to_N. region a; region b; intros [= <-]; subst.
    all: try (rewrite py_int_space
                by (first [assumption | rewrite isdecimal_ascii by lia; decide_atoms; reflexivity]);
              now rewrite decimal_val_ascii by lia).
    all: rewrite py_int_two
           by (first [assumption | rewrite isdecimal_ascii by lia; decide_atoms; reflexivity]).
    all: rewrite ?decimal_val_ascii by lia.
    all: unfold ascii_val; f_equal; lia.
Qed.

Lemma py_int_month (mm : str) (v : Z) :
  month_token mm = Some v -> py_int mm = Return v.
Proof.
  destruct mm as [|a [|b [|c mm]]]; cbn [month_token]; try discriminate.
  - chars_to_N. region a; intros [= <-]; try discriminate.
    all: rewrite py_int_one by (rewrite isdecimal_ascii by lia; decide_atoms; reflexivity).
    all: now rewrite decimal_val_ascii by lia.
  - chars_to_N. region a; region b; intros [= <-]; subst.
    all: rewrite py_int_two
           by (rewrite isdecimal_ascii by lia; decide_atoms; reflexivity).
    all: rewrite ?decimal_val_ascii by lia.
    all: unfold ascii_val; f_equal; lia.
Qed.

Lemma token_dot_app (s dd s1 : str) :
  token_dot s = Some (dd, s1) ->
  s = dd ++ chr "." :: s1 /\ (length dd = 1 \/ length dd = 2)%nat.
Proof.
  unfold token_dot. destruct s as [|a [|b s]]; try discriminate.
  destruct (is_char "." b) eqn:Hb.
  - apply N.eqb_eq in Hb. intros [= <- <-]. subst b. split; [reflexivity|now left].
  - destruct s as [|c s]; [discriminate|].
    destruct (is_char "." c) eqn:Hc; [|discriminate].
    apply N.eqb_eq in Hc. intros [= <- <-]. subst c.
    split; [reflexivity|now right].
Qed.

Lemma is_leap_leap_year (y : Z) : is_leap y = leap_year y.
Proof.
  unfold is_leap, leap_year.
  destruct (Z.eqb_spec (y mod 4) 0), (Z.eqb_spec (y mod 100) 0),
    (Z.eqb_spec (y mod 400) 0); cbn [andb orb negb]; try reflexivity;
    exfalso; Z.div_mod_to_equations; lia.
Qed.

Lemma days_in_month_length (y m : Z) :
  1 <= m <= 12 -> days_in_month y m = month_length y m.
Proof.
  intros Hm. unfold days_in_month, month_length.
  rewrite is_leap_leap_year.
  assert (Hcases : m = 1 \/ m = 2 \/ m = 3 \/ m = 4 \/ m = 5 \/ m = 6
                   \/ m = 7 \/ m = 8 \/ m = 9 \/ m = 10 \/ m = 11 \/ m = 12)
    by lia.
  repeat (destruct Hcases as [-> | Hcases]); try subst m;
    now destruct (leap_year y).
Qed.

Lemma date_new_valid (y m d : Z) :
  date_new y m d =
    if valid_ymd y m d then Return (Date y m d)
    else Raise (ValueError
           (if negb ((MINYEAR <=? y) && (y <=? MAXYEAR))
            then "year " +:+ pretty y +:+ " is out of range"
            else if negb ((1 <=? m) && (m <=? 12))
            then "month must be in 1..12"
            else "day is out of range for month")).
Proof.
  unfold date_new, valid_ymd, MINYEAR, MAXYEAR.
  destruct (1 <=? y), (y <=? 9999); cbn [andb negb]; try reflexivity.
  destruct (Z.leb_spec 1 m), (Z.leb_spec m 12); cbn [andb negb];
    try reflexivity.
  rewrite days_in_month_length by lia.
  now destruct (1 <=? d), (d <=? month_length y m).
Qed.

(** [strptime] returns the date the text denotes, and raises [ValueError]
    for a text that denotes none. *)
Lemma strptime_date_text (s : str) :
  match date_text s with
  | Some d => strptime s = Return d
  | None => exists msg, strptime s = Raise (ValueError msg)
  end.
Proof.
  unfold strptime, date_text. rewrite re_match_format. unfold found_dmY.
  destruct (token_dot s) as [[dd s1]|] eqn:Hdd; cbn [mbind option_bind];
    [|eexists; reflexivity].
  destruct (token_dot s1) as [[mm s2]|] eqn:Hmm; cbn [mbind option_bind].
  2:{ destruct (day_token dd); cbn [mbind option_bind]; eexists; reflexivity. }
  destruct (day_token dd) as [d|] eqn:Hd; cbn [mbind option_bind];
    [|eexists; reflexivity].
  destruct (month_token mm) as [m|] eqn:Hm; cbn [mbind option_bind];
    [|eexists; reflexivity].
  apply token_dot_app in Hdd as [-> Hldd].
  apply token_dot_app in Hmm as [-> Hlmm].
  assert (Hnone : forall t : str,
            (length t <> 4)%nat -> year_token t = None).
  { intros [|a [|b [|c [|e [|f t]]]]] Ht; try reflexivity.
    now contradiction Ht. }
  destruct s2 as [|a [|b [|c [|e s']]]];
    try (rewrite Hnone by (cbn; lia); eexists; reflexivity).
  destruct (forallb Py_UNICODE_ISDECIMAL [a; b; c; e]) eqn:Hy.
  2:{ assert (Hyear : year_token (a :: b :: c :: e :: s') = None).
      { destruct s' as [|f s']; [|apply Hnone; cbn; lia].
        unfold year_token. now rewrite Hy. }
      rewrite Hyear. eexists; reflexivity. }
  cbn [pos groups]. unfold field.
  cbn [groups groupdict_get String.eqb Ascii.eqb Bool.eqb].
  rewrite (py_int_day dd d Hd), (py_int_month mm m Hm).
  rewrite (py_int_four a b c e Hy).
  cbn [mbind result_mbind result_bind]. rewrite date_new_valid.
  repeat (rewrite length_app; cbn [length]).
  destruct s' as [|f s']; cbn [length].
  - unfold year_token. rewrite Hy. cbn [mbind option_bind].
    destruct (Nat.eqb_spec (length dd + S (length mm + 5))
                (4 + (length mm + 1 + (length dd + 1 + 0)))) as [_|Hne];
      [|exfalso; lia].
    cbn [negb]. destruct (valid_ymd _ m d); [reflexivity|eexists; reflexivity].
  - rewrite Hnone by (cbn; lia). cbn [mbind option_bind].
    destruct (Nat.eqb_spec
                (length dd + S (length mm + S (S (S (S (S (S (length s'))))))))
                (4 + (length mm + 1 + (length dd + 1 + 0)))) as [Heq|_];
      [exfalso; lia|].
    eexists; reflexivity.
Qed.

(** [Birthday.__init__] as a function of the text. *)
Lemma Birthday_init_date_text (s : str) :
  Birthday_init s =
    match date_text s with
    | Some d => Return (MkBirthday d)
    | None => Raise invalid_date
    end.
Proof.
  unfold Birthday_init. pose proof (strptime_date_text s) as Hs.
  destruct (date_text s) as [d|].
  - now rewrite Hs.
  - destruct Hs as [msg ->]. reflexivity.
Qed.

End IntFacts.

(** ** Validation failures leave the record alone *)

Section Atomic.
Context `{Platform}.

Lemma add_birthday_total (s : str) (r : ContactRecord) :
  add_birthday s r =
    match date_text s with
    | Some d =>
        (Return tt, MkRecord (name r) (phones r) (Some (MkBirthday d)))
    | None => (Raise invalid_date, r)
    end.
Proof.
  unfold add_birthday. step_method. rewrite Birthday_init_date_text.
  now destruct (date_text s).
Qed.

(** C10. [add_phone] with an invalid phone string and [add_birthday] with
    an invalid date string raise the validation error and return the record
    as it was: same name, same phones, same birthday. *)
Theorem failed_validation_keeps_record (r : ContactRecord) (s : str) :
  (validate_number s = false -> add_phone s r = (Raise invalid_phone, r))
  /\ (is_return (Birthday_init s) = false ->
      add_birthday s r = (Raise invalid_date, r)).
Proof.
  split; [apply add_phone_invalid|].
  rewrite add_birthday_total, Birthday_init_date_text.
  now destruct (date_text s).
Qed.

End Atomic.

Lemma failed_validation_keeps_record_witness :
  add_phone (lit "12345") mia_born_1990 = (Raise invalid_phone, mia_born_1990)
  /\ add_birthday (lit "31.02.2020") mia_born_1990
     = (Raise invalid_date, mia_born_1990).
Proof.
  split.
  - apply (proj1 (failed_validation_keeps_record mia_born_1990 (lit "12345"))).
    vm_compute. reflexivity.
  - apply (proj2 (failed_validation_keeps_record mia_born_1990
                    (lit "31.02.2020"))).
    vm_compute. reflexivity.
Defined.

(** ** Birthdays written with two, two and four ASCII digits *)

Ltac decide_atomsZ :=
  repeat match goal with
  | |- context [(?x =? ?y)%Z] =>
      first [ rewrite (proj2 (Z.eqb_eq x y)) by lia
            | rewrite (proj2 (Z.eqb_neq x y)) by lia ]
  | |- context [(?x <=? ?y)%Z] =>
      first [ rewrite (proj2 (Z.leb_le x y)) by lia
            | rewrite (proj2 (Z.leb_gt x y)) by lia ]
  | |- context [(?x <? ?y)%Z] =>
      first [ rewrite (proj2 (Z.ltb_lt x y)) by lia
            | rewrite (proj2 (Z.ltb_ge x y)) by lia ]
  end.

Section BirthdayText.
Context `{Platform}.

Lemma day_token_digits (a b : N) :
  (48 <= a <= 57)%N -> (48 <= b <= 57)%N ->
  day_token [a; b] =
    if (1 <=? 10 * ascii_val a + ascii_val b)
       && (10 * ascii_val a + ascii_val b <=? 31)
    then Some (10 * ascii_val a + ascii_val b) else None.
Proof.
  intros Ha Hb. cbn [day_token]. chars_to_N. unfold ascii_val.
  region a; try (exfalso; lia); region b; try (exfalso; lia); subst;
    decide_atomsZ; cbn [andb]; rewrite ?decimal_val_ascii by lia;
    unfold ascii_val; first [reflexivity | f_equal; lia].
Qed.

Lemma month_token_digits (a b : N) :
  (48 <= a <= 57)%N -> (48 <= b <= 57)%N ->
  month_token [a; b] =
    if (1 <=? 10 * ascii_val a + ascii_val b)
       && (10 * ascii_val a + ascii_val b <=? 12)
    then Some (10 * ascii_val a + ascii_val b) else None.
Proof.
  intros Ha Hb. cbn [month_token]. chars_to_N. unfold ascii_val.
  region a; try (exfalso; lia); region b; try (exfalso; lia); subst;
    decide_atomsZ; cbn [andb]; first [reflexivity | f_equal; lia].
Qed.

Lemma year_token_digits (a b c d : N) :
  (48 <= a <= 57)%N -> (48 <= b <= 57)%N ->
  (48 <= c <= 57)%N -> (48 <= d <= 57)%N ->
  year_token [a; b; c; d]
  = Some (1000 * ascii_val a + 100 * ascii_val b + 10 * ascii_val c
          + ascii_val d).
Proof.
  intros Ha Hb Hc Hd. unfold year_token. cbn [forallb].
  rewrite !isdecimal_ascii by lia. decide_atoms. cbn [andb].
  now rewrite !decimal_val_ascii by lia.
Qed.

Lemma month_length_bounds (y m : Z) : 28 <= month_length y m <= 31.
Proof.
  unfold month_length.
  destruct (m =? 2), (leap_year y), ((m =? 4) || (m =? 6) || (m =? 9) || (m =? 11));
    lia.
Qed.

Lemma valid_ymd_bounds (y m d : Z) :
  valid_ymd y m d = true ->
  1 <= y <= 9999 /\ 1 <= m <= 12 /\ 1 <= d <= 31.
Proof.
  unfold valid_ymd. rewrite !andb_true_iff, !Z.leb_le.
  pose proof (month_length_bounds y m). lia.
Qed.

(** The date denoted by a text of the pattern. *)
Lemma date_text_digits (d1 d2 m1 m2 y1 y2 y3 y4 : N) :
  Forall (fun c => (48 <= c <= 57)%N) [d1; d2; m1; m2; y1; y2; y3; y4] ->
  date_text [d1; d2; chr "."; m1; m2; chr "."; y1; y2; y3; y4] =
    let d := 10 * ascii_val d1 + ascii_val d2 in
    let m := 10 * ascii_val m1 + ascii_val m2 in
    let y := 1000 * ascii_val y1 + 100 * ascii_val y2 + 10 * ascii_val y3
             + ascii_val y4 in
    if valid_ymd y m d then Some (Date y m d) else None.
Proof.
  intros Hall.
  repeat (apply Forall_cons in Hall as [? Hall]).
  unfold date_text, token_dot. chars_to_N.
  repeat (progress decide_atoms; cbn [mbind option_bind]).
  rewrite day_token_digits, month_token_digits, year_token_digits by assumption.
  cbv zeta.
  set (d := 10 * ascii_val d1 + ascii_val d2).
  set (m := 10 * ascii_val m1 + ascii_val m2).
  set (y := _ + ascii_val y4).
  destruct (valid_ymd y m d) eqn:Hv.
  - apply valid_ymd_bounds in Hv as Hb. destruct Hb as (Hy & Hm & Hd).
    decide_atomsZ. cbn [andb mbind option_bind]. now rewrite Hv.
  - destruct ((1 <=? d) && (d <=? 31)); cbn [mbind option_bind];
      [|reflexivity].
    destruct ((1 <=? m) && (m <=? 12)); cbn [mbind option_bind];
      [|reflexivity].
    now rewrite Hv.
Qed.

Lemma is_DD_MM_YYYY_inv (s : str) :
  is_DD_MM_YYYY s = true ->
  exists d1 d2 m1 m2 y1 y2 y3 y4,
    s = [d1; d2; chr "."; m1; m2; chr "."; y1; y2; y3; y4]
    /\ Forall (fun c => (48 <= c <= 57)%N) [d1; d2; m1; m2; y1; y2; y3; y4].
Proof.
  destruct s as [|d1 [|d2 [|p [|m1 [|m2 [|q [|y1 [|y2 [|y3 [|y4 [|z s]]]]]]]]]]];
    try discriminate.
  unfold is_DD_MM_YYYY. rewrite !andb_true_iff.
  intros [[Hdigits Hp] Hq].
  apply N.eqb_eq in Hp, Hq. subst p q.
  exists d1, d2, m1, m2, y1, y2, y3, y4. split; [reflexivity|].
  rewrite forallb_forall in Hdigits. apply Forall_forall. intros c Hc.
  apply list_elem_of_In in Hc. apply Hdigits in Hc. unfold ascii_in in Hc.
  apply andb_true_iff in Hc as [H1 H2].
  apply N.leb_le in H1, H2. change (chr "0") with 48%N in H1.
  change (chr "9") with 57%N in H2. lia.
Qed.

Lemma digit_char_ascii_val (a : N) :
  (48 <= a <= 57)%N -> digit_char (ascii_val a) = a.
Proof. intros Ha. unfold digit_char, ascii_val. lia. Qed.

Lemma fmt_02d_digits (a b : N) :
  (48 <= a <= 57)%N -> (48 <= b <= 57)%N ->
  fmt_02d (10 * ascii_val a + ascii_val b) = [a; b].
Proof.
  intros Ha Hb. unfold fmt_02d, digit_char, ascii_val.
  set (n := 10 * (Z.of_N a - 48) + (Z.of_N b - 48)).
  assert (E1 : n / 10 mod 10 = Z.of_N a - 48)
    by (subst n; Z.div_mod_to_equations; lia).
  assert (E2 : n mod 10 = Z.of_N b - 48)
    by (subst n; Z.div_mod_to_equations; lia).
  rewrite E1, E2. f_equal; [lia|]. f_equal. lia.
Qed.

Lemma fmt_04d_digits (a b c d : N) :
  (48 <= a <= 57)%N -> (48 <= b <= 57)%N ->
  (48 <= c <= 57)%N -> (48 <= d <= 57)%N ->
  fmt_04d (1000 * ascii_val a + 100 * ascii_val b + 10 * ascii_val c
           + ascii_val d) = [a; b; c; d].
Proof.
  intros Ha Hb Hc Hd. unfold fmt_04d, digit_char, ascii_val.
  set (n := _ + (Z.of_N d - 48)).
  assert (E1 : n / 1000 mod 10 = Z.of_N a - 48)
    by (subst n; Z.div_mod_to_equations; lia).
  assert (E2 : n / 100 mod 10 = Z.of_N b - 48)
    by (subst n; Z.div_mod_to_equations; lia).
  assert (E3 : n / 10 mod 10 = Z.of_N c - 48)
    by (subst n; Z.div_mod_to_equations; lia).
  assert (E4 : n mod 10 = Z.of_N d - 48)
    by (subst n; Z.div_mod_to_equations; lia).
  rewrite E1, E2, E3, E4.
  f_equal; [lia|]. f_equal; [lia|]. f_equal; [lia|]. f_equal. lia.
Qed.

Lemma fmt_d_four (y : Z) : 1000 <= y -> fmt_d y = fmt_04d y.
Proof. intros Hy. unfold fmt_d. now decide_atomsZ. Qed.

End BirthdayText.

Section BirthdayConstruction.
Context `{Platform}.

Lemma fmt_02d_inv (n : Z) :
  0 <= n <= 99 ->
  exists a b, fmt_02d n = [a; b] /\ (48 <= a <= 57)%N /\ (48 <= b <= 57)%N
              /\ 10 * ascii_val a + ascii_val b = n.
Proof.
  intros Hn. exists (digit_char (n / 10 mod 10)), (digit_char (n mod 10)).
  split; [reflexivity|]. unfold digit_char, ascii_val.
  repeat split; Z.div_mod_to_equations; lia.
Qed.

Lemma fmt_04d_inv (n : Z) :
  0 <= n <= 9999 ->
  exists a b c d,
    fmt_04d n = [a; b; c; d]
    /\ Forall (fun c => (48 <= c <= 57)%N) [a; b; c; d]
    /\ 1000 * ascii_val a + 100 * ascii_val b + 10 * ascii_val c
       + ascii_val d = n.
Proof.
  intros Hn.
  exists (digit_char (n / 1000 mod 10)), (digit_char (n / 100 mod 10)),
    (digit_char (n / 10 mod 10)), (digit_char (n mod 10)).
  split; [reflexivity|]. unfold digit_char, ascii_val.
  split; [repeat constructor|]; Z.div_mod_to_equations; lia.
Qed.

(** C4, as amended. [Birthday.__init__] raises the validation error for
    every text that is not a day, a dot, a month, a dot and a year denoting
    a date of the calendar of the years 1 to 9999, where the day and the
    month are written with one digit or two (the day also with a space and
    a digit) and the year with four.  Written with two, two and four
    digits, a text is accepted exactly when its numbers are a date of the
    calendar: month 13, day 32, and a day beyond the length of the month,
    leap years counted, are rejected. *)
Theorem Birthday_init_rejects :
  (forall s : str, date_text s = None -> Birthday_init s = Raise invalid_date)
  /\ (forall d m y : Z,
        0 <= d <= 99 -> 0 <= m <= 99 -> 0 <= y <= 9999 ->
        Birthday_init
          (fmt_02d d ++ lit "." ++ fmt_02d m ++ lit "." ++ fmt_04d y)
        = if valid_ymd y m d then Return (MkBirthday (Date y m d))
          else Raise invalid_date).
Proof.
  split.
  - intros s Hs. now rewrite Birthday_init_date_text, Hs.
  - intros d m y Hd Hm Hy.
    destruct (fmt_02d_inv d Hd) as (d1 & d2 & -> & Hd1 & Hd2 & <-).
    destruct (fmt_02d_inv m Hm) as (m1 & m2 & -> & Hm1 & Hm2 & <-).
    destruct (fmt_04d_inv y Hy) as (y1 & y2 & y3 & y4 & -> & Hys & <-).
    rewrite Birthday_init_date_text.
    change ([d1; d2] ++ lit "." ++ [m1; m2] ++ lit "." ++ [y1; y2; y3; y4])
      with [d1; d2; chr "."; m1; m2; chr "."; y1; y2; y3; y4].
    rewrite date_text_digits by (repeat (constructor; [assumption|]); exact Hys).
    cbv zeta. now destruct (valid_ymd _ _ _).
Qed.

(** C5, as amended. For a text written as two ASCII digits, a dot, two
    ASCII digits, a dot and four ASCII digits on which [Birthday.__init__]
    succeeds, formatting the stored date with ['%d.%m.%Y'] gives the text
    back, provided the year is at least 1000 or the platform's [strftime]
    pads the year to four digits. *)
Theorem strftime_Birthday_init (s : str) (b : Birthday) :
  is_DD_MM_YYYY s = true ->
  Birthday_init s = Return b ->
  strftime_Y_padded = true \/ 1000 <= year (birthday_value b) ->
  strftime (birthday_value b) = s.
Proof.
  intros Hs Hb Hyear.
  apply is_DD_MM_YYYY_inv in Hs
    as (d1 & d2 & m1 & m2 & y1 & y2 & y3 & y4 & -> & Hall).
  rewrite Birthday_init_date_text, date_text_digits in Hb by exact Hall.
  cbv zeta in Hb. destruct (valid_ymd _ _ _); [|discriminate].
  injection Hb as <-. cbn [birthday_value] in Hyear |- *.
  repeat (apply Forall_cons in Hall as [? Hall]).
  unfold strftime. cbn [year month day] in Hyear |- *.
  rewrite !fmt_02d_digits by assumption.
  assert (Hy : (if strftime_Y_padded
                then fmt_04d (1000 * ascii_val y1 + 100 * ascii_val y2
                              + 10 * ascii_val y3 + ascii_val y4)
                else fmt_d (1000 * ascii_val y1 + 100 * ascii_val y2
                            + 10 * ascii_val y3 + ascii_val y4))
               = [y1; y2; y3; y4]).
  { destruct strftime_Y_padded.
    - now apply fmt_04d_digits.
    - destruct Hyear as [|Hyear]; [discriminate|].
      rewrite fmt_d_four by exact Hyear. now apply fmt_04d_digits. }
  rewrite Hy. reflexivity.
Qed.

End BirthdayConstruction.

Lemma Birthday_init_rejects_witness :
  Birthday_init (lit "1990-12-25") = Raise invalid_date
  /\ Birthday_init (lit "25.13.1990") = Raise invalid_date
  /\ Birthday_init (lit "32.12.1990") = Raise invalid_date
  /\ Birthday_init (lit "29.02.1900") = Raise invalid_date
  /\ Birthday_init (lit "29.02.2000")
     = Return (MkBirthday (Date 2000 2 29)).
Proof.
  destruct Birthday_init_rejects as [Hshape Hnumbers].
  split; [apply Hshape; vm_compute; reflexivity|].
  split; [apply (Hnumbers 25 13 1990); lia|].
  split; [apply (Hnumbers 32 12 1990); lia|].
  split; [apply (Hnumbers 29 2 1900); lia|].
  apply (Hnumbers 29 2 2000); lia.
Defined.

(** C4, as stated, fails: a text with a one-digit day and month is not of
    the pattern DD.MM.YYYY, and the construction succeeds on it. *)
Lemma Birthday_init_rejects_counterexample :
  is_DD_MM_YYYY (lit "1.1.1990") = false
  /\ Birthday_init (lit "1.1.1990") = Return (MkBirthday (Date 1990 1 1)).
Proof. split; vm_compute; reflexivity. Qed.

Lemma strftime_Birthday_init_witness :
  strftime (Date 1990 12 25) = lit "25.12.1990".
Proof.
  apply (strftime_Birthday_init (lit "25.12.1990")
           (MkBirthday (Date 1990 12 25))).
  - vm_compute. reflexivity.
  - vm_compute. reflexivity.
  - right. cbn. lia.
Defined.

(** C5, as stated, fails: a one-digit day and month come back with two
    digits; and where [strftime] does not pad the year, so does a year
    below 1000 come back shorter. *)
Lemma strftime_Birthday_init_counterexample :
  (Birthday_init (lit "1.1.1990") = Return (MkBirthday (Date 1990 1 1))
   /\ strftime (Date 1990 1 1) = lit "01.01.1990"
   /\ lit "01.01.1990" <> lit "1.1.1990")
  /\ (Birthday_init (lit "01.01.0999") = Return (MkBirthday (Date 999 1 1))
      /\ strftime (Date 999 1 1) = lit "01.01.999"
      /\ lit "01.01.999" <> lit "01.01.0999").
Proof.
  repeat split; try (vm_compute; reflexivity); discriminate.
Qed.

(** ** Phone numbers *)

Section PhoneConstruction.
Context `{Platform}.

Lemma isdecimal_ascii_digit (c : N) :
  (48 <= c <= 57)%N -> Py_UNICODE_ISDECIMAL c = true.
Proof. intros Hc. rewrite isdecimal_ascii by lia. now decide_atoms. Qed.

(** Ten ASCII digits make a phone. *)
Lemma Phone_init_ascii_digits (s : str) :
  length s = 10%nat -> Forall (fun c => (48 <= c <= 57)%N) s ->
  Phone_init s = Return (MkPhone s).
Proof.
  intros Hlen Hall. apply Phone_init_valid, validate_number_spec.
  split; [exact Hlen|]. left.
  eapply Forall_impl; [exact Hall|]. intros c Hc.
  now apply isdecimal_ascii_digit.
Qed.

(** A text of another length, or with a character that is not a decimal
    digit anywhere but at its end, makes none. *)
Lemma Phone_init_rejects (s : str) :
  length s <> 10%nat
  \/ (exists pre c post,
        s = pre ++ c :: post /\ post <> []
        /\ Py_UNICODE_ISDECIMAL c = false)
  \/ (exists pre c, s = pre ++ [c] /\ c <> 10%N
                    /\ Py_UNICODE_ISDECIMAL c = false) ->
  Phone_init s = Raise invalid_phone.
Proof.
  intros Hbad. apply Phone_init_invalid.
  destruct (validate_number s) eqn:Hv; [|reflexivity]. exfalso.
  apply validate_number_spec in Hv as [Hlen Hv].
  destruct Hbad as [Hbad | [(pre & c & post & -> & Hpost & Hc)
                            | (pre & c & -> & Hc10 & Hc)]];
    [contradiction| |].
  - destruct Hv as [Hall | (ds & Hds & Hall)].
    + apply Forall_app in Hall as [_ Hall].
      apply Forall_cons in Hall as [Hc' _]. congruence.
    + destruct (exists_last Hpost) as (post' & z & ->).
      rewrite app_comm_cons, app_assoc in Hds.
      apply app_inj_tail in Hds as [<- _].
      apply Forall_app in Hall as [_ Hall].
      apply Forall_cons in Hall as [Hc' _]. congruence.
  - destruct Hv as [Hall | (ds & Hds & Hall)].
    + apply Forall_app in Hall as [_ Hall].
      apply Forall_cons in Hall as [Hc' _]. congruence.
    + apply app_inj_tail in Hds as [_ ->]. now contradiction Hc10.
Qed.

(** C3: the failing input.  A text of nine digits and a final newline has
    ten characters, one of them no digit, and [Phone.__init__] returns a
    phone holding it: [$] matches before a newline that ends the text. *)
Theorem Phone_init_accepts_final_newline :
  let number := lit "123456789" ++ [10%N] in
  length number = 10%nat
  /\ Py_UNICODE_ISDECIMAL 10 = false
  /\ Phone_init number = Return (MkPhone number).
Proof.
  cbv zeta. split; [reflexivity|]. split.
  - now rewrite isdecimal_ascii by lia.
  - apply Phone_init_valid, validate_number_spec. split; [reflexivity|].
    right. exists (lit "123456789"). split; [reflexivity|].
    repeat constructor; apply isdecimal_ascii_digit; vm_compute; split; discriminate.
Qed.

End PhoneConstruction.

(** ** The calendar arithmetic of [datetime.date] *)

Lemma all_from_spec (fuel : nat) (n : Z) (P : Z -> bool) :
  all_from fuel n P = true ->
  forall i, n <= i < n + Z.of_nat fuel -> P i = true.
Proof.
  revert n. induction fuel as [|fuel IH]; intros n Hall i Hi; [lia|].
  cbn [all_from] in Hall. apply andb_true_iff in Hall as [Hn Hall].
  destruct (Z.eq_dec i n) as [->|Hne]; [exact Hn|].
  apply (IH (n + 1) Hall). lia.
Qed.

Lemma ord2ymd_first_cycle (n : Z) :
  1 <= n <= 146097 -> date_ok n (ord2ymd n) = true.
Proof.
  assert (Hall : all_from (Z.to_nat 146097) 1
                   (fun i => date_ok i (ord2ymd i)) = true)
    by (vm_cast_no_check (@eq_refl bool true)).
  intros Hn.
  apply (all_from_spec _ _ (fun i => date_ok i (ord2ymd i)) Hall n).
  rewrite Z2Nat.id; lia.
Qed.

Lemma is_leap_shift (y k : Z) : is_leap (y + 400 * k) = is_leap y.
Proof.
  unfold is_leap.
  replace ((y + 400 * k) mod 4) with (y mod 4)
    by (Z.div_mod_to_equations; lia).
  replace ((y + 400 * k) mod 100) with (y mod 100)
    by (Z.div_mod_to_equations; lia).
  replace ((y + 400 * k) mod 400) with (y mod 400)
    by (Z.div_mod_to_equations; lia).
  reflexivity.
Qed.

Lemma days_before_year_shift (y k : Z) :
  days_before_year (y + 400 * k) = days_before_year y + 146097 * k.
Proof.
  unfold days_before_year. cbv zeta.
  Z.div_mod_to_equations. lia.
Qed.

Lemma ymd2ord_shift (y m d k : Z) :
  ymd2ord (y + 400 * k) m d = ymd2ord y m d + 146097 * k.
Proof.
  unfold ymd2ord, days_before_month.
  rewrite days_before_year_shift, is_leap_shift. lia.
Qed.

Lemma days_in_month_shift (y m k : Z) :
  days_in_month (y + 400 * k) m = days_in_month y m.
Proof. unfold days_in_month. now rewrite is_leap_shift. Qed.

Lemma ord2ymd_shift (n k : Z) :
  ord2ymd (n + 146097 * k) = add_years (400 * k) (ord2ymd n).
Proof.
  unfold ord2ymd. cbv zeta.
  replace (n + 146097 * k - 1) with (n - 1 + k * DI400Y)
    by (unfold DI400Y; lia).
  rewrite Z_div_plus_full, Z_mod_plus_full by (unfold DI400Y; lia).
  set (r := (n - 1) mod DI400Y).
  destruct ((r mod DI100Y mod DI4Y / 365 =? 4) || (r / DI100Y =? 4)).
  - unfold add_years. cbn [year month day]. f_equal. lia.
  - set (n1 := r mod DI100Y mod DI4Y mod 365).
    destruct (n1 <? _); unfold add_years; cbn [year month day]; f_equal; lia.
Qed.

Lemma split_cycle (n : Z) :
  1 <= n -> exists n' k, 1 <= n' <= 146097 /\ n = n' + 146097 * k.
Proof.
  intros Hn. exists ((n - 1) mod 146097 + 1), ((n - 1) / 146097).
  Z.div_mod_to_equations. lia.
Qed.

Lemma date_ok_spec (n : Z) (d : date) :
  date_ok n d = true ->
  toordinal d = n
  /\ 1 <= month d <= 12
  /\ 1 <= day d <= days_in_month (year d) (month d).
Proof.
  unfold date_ok. rewrite !andb_true_iff, !Z.leb_le, Z.eqb_eq.
  intros ((((Hord & Hm1) & Hm2) & Hd1) & Hd2). repeat split; assumption.
Qed.

Lemma date_ok_shift (n k : Z) (d : date) :
  date_ok n d = true ->
  date_ok (n + 146097 * k) (add_years (400 * k) d) = true.
Proof.
  destruct d as [y m d]. unfold date_ok, add_years, toordinal.
  cbn [year month day].
  rewrite ymd2ord_shift, days_in_month_shift.
  rewrite !andb_true_iff, !Z.leb_le, !Z.eqb_eq.
  intros ((((Hord & Hm1) & Hm2) & Hd1) & Hd2).
  repeat split; first [assumption | lia].
Qed.

Lemma ord2ymd_correct (n : Z) :
  1 <= n ->
  toordinal (ord2ymd n) = n
  /\ 1 <= month (ord2ymd n) <= 12
  /\ 1 <= day (ord2ymd n)
          <= days_in_month (year (ord2ymd n)) (month (ord2ymd n)).
Proof.
  intros Hn. apply date_ok_spec.
  destruct (split_cycle n Hn) as (n' & k & Hn' & ->).
  rewrite ord2ymd_shift. apply date_ok_shift.
  exact (ord2ymd_first_cycle n' Hn').
Qed.

(** Looks up the month tables at a literal month. *)
Ltac table_values :=
  repeat match goal with
  | |- context [Z.to_nat ?n] =>
      let t := eval vm_compute in (Z.to_nat n) in
      change (Z.to_nat n) with t
  | Hyp : context [Z.to_nat ?n] |- _ =>
      let t := eval vm_compute in (Z.to_nat n) in
      change (Z.to_nat n) with t in Hyp
  end;
  cbn in *.

Lemma month_cases (m : Z) :
  1 <= m <= 12 ->
  m = 1 \/ m = 2 \/ m = 3 \/ m = 4 \/ m = 5 \/ m = 6 \/ m = 7 \/ m = 8
  \/ m = 9 \/ m = 10 \/ m = 11 \/ m = 12.
Proof. lia. Qed.

Lemma days_before_year_succ (y : Z) :
  days_before_year (y + 1)
  = days_before_year y + (if is_leap y then 366 else 365).
Proof.
  unfold days_before_year, is_leap. cbv zeta.
  destruct (Z.eqb_spec (y mod 4) 0), (Z.eqb_spec (y mod 100) 0),
    (Z.eqb_spec (y mod 400) 0); cbn [andb orb negb];
    Z.div_mod_to_equations; lia.
Qed.

Lemma days_before_year_mono (y1 y2 : Z) :
  y1 <= y2 -> days_before_year y1 <= days_before_year y2.
Proof.
  intros Hy. unfold days_before_year. cbv zeta.
  Z.div_mod_to_equations. lia.
Qed.

Lemma day_of_year_bounds (y m d : Z) :
  1 <= m <= 12 -> 1 <= d <= days_in_month y m ->
  1 <= days_before_month y m + d <= (if is_leap y then 366 else 365).
Proof.
  intros Hm Hd. unfold days_in_month, days_before_month in *.
  destruct (month_cases m Hm) as [->|[->|[->|[->|[->|[->|[->|[->|[->|[->|[->| ->]]]]]]]]]]];
    table_values; destruct (is_leap y); cbn in *; lia.
Qed.

Lemma day_of_year_mono (y m1 d1 m2 d2 : Z) :
  1 <= m1 -> m1 < m2 -> m2 <= 12 ->
  d1 <= days_in_month y m1 -> 1 <= d2 ->
  days_before_month y m1 + d1 < days_before_month y m2 + d2.
Proof.
  intros H1 H12 H2 Hd1 Hd2. unfold days_in_month, days_before_month in *.
  destruct (month_cases m1 ltac:(lia)) as [->|[->|[->|[->|[->|[->|[->|[->|[->|[->|[->| ->]]]]]]]]]]];
    destruct (month_cases m2 ltac:(lia)) as [->|[->|[->|[->|[->|[->|[->|[->|[->|[->|[->| ->]]]]]]]]]]];
    try lia; table_values; destruct (is_leap y); cbn in *; lia.
Qed.

(** Dates compare as their ordinals do. *)
Lemma date_le_toordinal (a b : date) :
  valid_md a -> valid_md b ->
  date_le a b = (toordinal a <=? toordinal b).
Proof.
  intros [Hma Hda] [Hmb Hdb]. destruct a as [ya ma da], b as [yb mb db].
  unfold date_le, toordinal, ymd2ord. cbn [year month day] in *.
  pose proof (day_of_year_bounds ya ma da Hma Hda) as Ha.
  pose proof (day_of_year_bounds yb mb db Hmb Hdb) as Hb.
  destruct (Z.ltb_spec ya yb) as [Hlt|Hge]; cbn [orb].
  - pose proof (days_before_year_mono (ya + 1) yb ltac:(lia)) as Hmono.
    rewrite days_before_year_succ in Hmono.
    symmetry. apply Z.leb_le. destruct (is_leap ya); lia.
  - destruct (Z.eqb_spec ya yb) as [->|Hne]; cbn [andb].
    + destruct (Z.ltb_spec ma mb) as [Hmlt|Hmge]; cbn [orb].
      * pose proof (day_of_year_mono yb ma da mb db) as Hlt.
        symmetry. apply Z.leb_le. lia.
      * destruct (Z.eqb_spec ma mb) as [->|Hmne]; cbn [andb].
        -- destruct (Z.leb_spec da db); symmetry;
             [apply Z.leb_le | apply Z.leb_gt]; lia.
        -- pose proof (day_of_year_mono yb mb db ma da) as Hlt.
           symmetry. apply Z.leb_gt. lia.
    + pose proof (days_before_year_mono (yb + 1) ya ltac:(lia)) as Hmono.
      rewrite days_before_year_succ in Hmono.
      symmetry. apply Z.leb_gt. destruct (is_leap yb); lia.
Qed.

(** ** Upcoming birthdays *)

Section Upcoming.
Context `{Platform}.

Lemma replace_year_candidate (today b : date) :
  1 <= year today <= 9999 ->
  1 <= month b <= 12 ->
  1 <= day b <= days_in_month (year today) (month b) ->
  replace_year b (year today) = Return (candidate today b).
Proof.
  intros Hy Hm Hd. unfold replace_year, date_new, MINYEAR, MAXYEAR.
  now decide_atomsZ.
Qed.

Lemma toordinal_pos (d : date) :
  1 <= year d -> valid_md d -> 1 <= toordinal d.
Proof.
  intros Hy [Hm Hd]. unfold toordinal, ymd2ord.
  pose proof (day_of_year_bounds _ _ _ Hm Hd).
  pose proof (days_before_year_mono 1 (year d) Hy) as Hmono.
  change (days_before_year 1) with 0 in Hmono. lia.
Qed.

Lemma in_window_in_week (today c : date) :
  1 <= year today -> valid_md today -> valid_md c ->
  toordinal today + 7 <= MAXORDINAL ->
  in_window today c = Return (in_week today c).
Proof.
  intros Hy Htoday Hc Hmax. unfold in_window, in_week.
  rewrite (date_le_toordinal today c) by assumption.
  destruct (toordinal today <=? toordinal c); [|reflexivity].
  pose proof (toordinal_pos today Hy Htoday) as Hpos.
  unfold date_add_days. decide_atomsZ. cbn [andb mbind result_mbind result_bind].
  destruct (ord2ymd_correct (toordinal today + 7)) as (Hord & Hm & Hd); [lia|].
  rewrite (date_le_toordinal c) by (try assumption; now split).
  now rewrite Hord.
Qed.

Lemma upcoming_loop_spec (today : date) (records : list ContactRecord)
    (acc : list upcoming) :
  1 <= year today <= 9999 -> valid_md today ->
  toordinal today + 7 <= MAXORDINAL ->
  Forall (has_candidate today) records ->
  upcoming_loop today records acc
  = Return (acc ++ upcoming_spec today records).
Proof.
  intros Hy Htoday Hmax Hall. revert acc.
  induction Hall as [|r records Hr _ IH]; intros acc;
    cbn [upcoming_loop upcoming_spec omap list_omap].
  - now rewrite app_nil_r.
  - fold (upcoming_spec today records).
    destruct (birthday r) as [b|] eqn:Hb; cbn [mbind option_bind];
      [|apply IH].
    destruct (Hr b Hb) as [Hm Hd].
    rewrite replace_year_candidate by assumption.
    cbn [mbind result_mbind result_bind].
    rewrite in_window_in_week; [|lia|assumption|now split|assumption].
    cbn [mbind result_mbind result_bind].
    destruct (in_week today (candidate today (birthday_value b))).
    + rewrite IH. now rewrite <- app_assoc.
    + apply IH.
Qed.

(** The part of C1 that holds.  When today and the seven days after it are
    dates of the calendar and every birthday in the book has a candidate
    date in today's year, [get_upcoming_birthdays] returns, in the order of
    the book, the name and the candidate date of exactly the records whose
    candidate date lies in the window; a candidate date before today lies
    outside it, and is not moved to the next year. *)
Lemma get_upcoming_birthdays_window (today : date) (w : World) :
  1 <= year today <= 9999 -> valid_md today ->
  toordinal today + 7 <= MAXORDINAL ->
  Forall (has_candidate today) (values w) ->
  get_upcoming_birthdays today w
  = (Return (upcoming_spec today (values w)), w).
Proof.
  intros Hy Htoday Hmax Hall. unfold get_upcoming_birthdays.
  now rewrite (upcoming_loop_spec today (values w) []).
Qed.

End Upcoming.

(** C1: the failing input.  On 25.02.2023 Bob's candidate date 26.02.2023
    is in the window, and without Mia the book reports him; with Mia, whose
    birthday has no candidate date in 2023, the call raises instead of
    returning a list. *)
Theorem get_upcoming_birthdays_raises_for_leap_day :
  reachable book_bob_mia
  /\ get_upcoming_birthdays (Date 2023 2 25) book_bob
     = (Return [Upcoming (lit "Bob") (lit "26.02.2023")], book_bob)
  /\ get_upcoming_birthdays (Date 2023 2 25) book_bob_mia
     = (Raise (ValueError "day is out of range for month"), book_bob_mia).
Proof.
  split; [|split].
  - unfold book_bob_mia, book_bob. repeat apply reachable_run.
    apply reachable_empty.
  - vm_compute. reflexivity.
  - vm_compute. reflexivity.
Qed.

(** ** Birthdays in the states a client can reach *)

Section ReachableBirthdays.
Context `{Platform}.

Lemma date_text_valid (s : str) (d : date) :
  date_text s = Some d -> valid_ymd (year d) (month d) (day d) = true.
Proof.
  unfold date_text.
  destruct (token_dot s) as [[dd s1]|]; cbn [mbind option_bind];
    [|discriminate].
  destruct (token_dot s1) as [[mm yyyy]|]; cbn [mbind option_bind];
    [|discriminate].
  destruct (day_token dd) as [d0|]; cbn [mbind option_bind]; [|discriminate].
  destruct (month_token mm) as [m0|]; cbn [mbind option_bind];
    [|discriminate].
  destruct (year_token yyyy) as [y0|]; cbn [mbind option_bind];
    [|discriminate].
  destruct (valid_ymd y0 m0 d0) eqn:Hv; [|discriminate].
  now intros [= <-].
Qed.

Lemma add_phone_birthday s r : birthday (add_phone s r).2 = birthday r.
Proof. unfold add_phone. step_method. now destruct (Phone_init s). Qed.

Lemma remove_phone_birthday s r : birthday (remove_phone s r).2 = birthday r.
Proof. rewrite remove_phone_total. now destruct (validate_number s). Qed.

Lemma edit_phone_birthday old new r :
  birthday (edit_phone old new r).2 = birthday r.
Proof.
  rewrite edit_phone_total. unfold editPhone_spec.
  now destruct (validate_number old), (validate_number new).
Qed.

Lemma add_birthday_ok s r : birthday_ok r -> birthday_ok (add_birthday s r).2.
Proof.
  intros Hr. rewrite add_birthday_total.
  destruct (date_text s) as [d|] eqn:Hd; [|exact Hr].
  intros b [= <-]. cbn [birthday_value]. now apply date_text_valid in Hd.
Qed.

Lemma on_record_birthdays a (m : M ContactRecord unit) (w : World) :
  (forall r, birthday_ok r -> birthday_ok (m r).2) ->
  Forall birthday_ok (heap w) -> Forall birthday_ok (heap (on_record a m w).2).
Proof.
  intros Hm Hall. unfold on_record.
  destruct (heap w !! a) as [r|] eqn:Ha; [|exact Hall].
  specialize (Hm r). destruct (m r) as [res r']. cbn [snd heap] in Hm |- *.
  apply Forall_insert; [exact Hall|]. apply Hm.
  eapply Forall_lookup_1; [exact Hall | exact Ha].
Qed.

Lemma reachable_birthdays (w : World) :
  reachable w -> Forall birthday_ok (heap w).
Proof.
  induction 1 as [|c w _ IH]; [constructor|].
  destruct c; cbn [run].
  - unfold new_record, Record_init.
    destruct (Name_init name0) as [n|e]; cbn [mbind result_mbind result_bind];
      [|exact IH].
    cbn [snd heap]. apply Forall_app. split; [exact IH|].
    repeat constructor. intros b Hb. discriminate Hb.
  - apply on_record_birthdays; [|exact IH]. intros r Hr b.
    rewrite add_phone_birthday. apply Hr.
  - apply on_record_birthdays; [|exact IH]. intros r Hr b.
    rewrite remove_phone_birthday. apply Hr.
  - apply on_record_birthdays; [|exact IH]. intros r Hr b.
    rewrite edit_phone_birthday. apply Hr.
  - apply on_record_birthdays; [|exact IH]. intros r. apply add_birthday_ok.
  - unfold add_record. now destruct (heap w !! a).
  - unfold delete_record. now destruct (dict_contains name0 (data w)).
Qed.

Lemma values_in_heap (w : World) (r : ContactRecord) :
  r ∈ values w -> r ∈ heap w.
Proof.
  unfold values. intros Hr. apply list_elem_of_omap in Hr as ([k a] & _ & Ha).
  eapply list_elem_of_lookup_2, Ha.
Qed.

(** C1 off its failing inputs: in a reachable book, on a day of the
    calendar that has its seven next days, and with no birthday on a 29th
    of February unless today's year is a leap year, the call returns what
    the specification says. *)
Lemma reachable_upcoming_birthdays (today : date) (w : World) :
  reachable w ->
  valid_ymd (year today) (month today) (day today) = true ->
  toordinal today + 7 <= MAXORDINAL ->
  (forall r b, r ∈ values w -> birthday r = Some b ->
     month (birthday_value b) = 2 -> day (birthday_value b) = 29 ->
     is_leap (year today) = true) ->
  get_upcoming_birthdays today w
  = (Return (upcoming_spec today (values w)), w).
Proof.
  intros Hreach Htoday Hmax Hleap.
  unfold valid_ymd in Htoday. rewrite !andb_true_iff, !Z.leb_le in Htoday.
  destruct Htoday as (((((Hy1 & Hy2) & Hm1) & Hm2) & Hd1) & Hd2).
  apply get_upcoming_birthdays_window; try assumption; [lia | |].
  { split; [lia|]. rewrite days_in_month_length by lia. lia. }
  apply Forall_forall. intros r Hr b Hb.
  pose proof (reachable_birthdays w Hreach) as Hheap.
  rewrite Forall_forall in Hheap.
  specialize (Hheap r (values_in_heap w r Hr) b Hb).
  specialize (Hleap r b Hr Hb).
  unfold valid_ymd in Hheap. rewrite !andb_true_iff, !Z.leb_le in Hheap.
  destruct Hheap as (((((_ & _) & Hbm1) & Hbm2) & Hbd1) & Hbd2).
  split; [lia|]. split; [lia|].
  rewrite days_in_month_length by lia.
  unfold month_length in *. rewrite <- !is_leap_leap_year in *.
  destruct (Z.eqb_spec (month (birthday_value b)) 2) as [Hfeb|Hother];
    [|destruct (_ || _); lia].
  destruct (is_leap (year today)) eqn:Hl;
    [destruct (is_leap (year (birthday_value b))); lia|].
  destruct (Z.eq_dec (day (birthday_value b)) 29) as [H29|H29].
  - specialize (Hleap Hfeb H29). discriminate.
  - destruct (is_leap (year (birthday_value b))); lia.
Qed.

End ReachableBirthdays.

(** The two scenarios of the specification: a birthday in five days is
    reported with its date in today's year; a birthday on the first of
    January is not reported on the 28th of December. *)
Lemma upcoming_scenarios :
  get_upcoming_birthdays (Date 2023 12 20) (book_mia_born (lit "25.12.1990"))
  = (Return [Upcoming (lit "Mia") (lit "25.12.2023")],
     book_mia_born (lit "25.12.1990"))
  /\ get_upcoming_birthdays (Date 2023 12 28)
       (book_mia_born (lit "01.01.1990"))
     = (Return [], book_mia_born (lit "01.01.1990")).
Proof.
  split.
  - rewrite reachable_upcoming_birthdays.
    + vm_compute. reflexivity.
    + unfold book_mia_born. repeat apply reachable_run. apply reachable_empty.
    + vm_compute. reflexivity.
    + vm_compute. discriminate.
    + intros r b Hr Hb Hm. vm_compute in Hr.
      apply list_elem_of_singleton in Hr. subst r. injection Hb as <-.
      discriminate Hm.
  - rewrite reachable_upcoming_birthdays.
    + vm_compute. reflexivity.
    + unfold book_mia_born. repeat apply reachable_run. apply reachable_empty.
    + vm_compute. reflexivity.
    + vm_compute. discriminate.
    + intros r b Hr Hb Hm. vm_compute in Hr.
      apply list_elem_of_singleton in Hr. subst r. injection Hb as <-.
      discriminate Hm.
Qed.


(** * Further properties of the records *)

Section RecordExtras.
Context `{Platform}.

Lemma record_eta (r : ContactRecord) :
  MkRecord (name r) (phones r) (birthday r) = r.
Proof. now destruct r. Qed.

Lemma find_phone_loop_Raise (s : str) (ps : list Phone) (e : exn) :
  find_phone_loop s ps = Raise e ->
  Forall (fun y => phone_value y <> s) ps.
Proof.
  induction ps as [|p ps IH]; cbn [find_phone_loop]; [constructor|].
  destruct (decide (phone_value p = s)) as [Hp|Hp].
  - now rewrite bool_decide_eq_true_2.
  - rewrite bool_decide_eq_false_2 by exact Hp. intros Hr.
    constructor; [exact Hp | now apply IH].
Qed.

(** X1. [find_phone] looks for the string as it is given, without validating
    it: it returns the first phone of that value, raises "Phone number not
    found" exactly when no phone has it, and leaves the record as it
    was. *)
Theorem find_phone_first_match (r : ContactRecord) (s : str) :
  (find_phone s r).2 = r
  /\ (forall pre x post,
        phones r = pre ++ x :: post ->
        Forall (fun y => phone_value y <> s) pre ->
        phone_value x = s ->
        (find_phone s r).1 = Return x)
  /\ ((find_phone s r).1 = Raise phone_not_found
      <-> Forall (fun y => phone_value y <> s) (phones r))
  /\ (forall e, (find_phone s r).1 = Raise e -> e = phone_not_found).
Proof.
  unfold find_phone. step_method. cbn [fst snd].
  split; [reflexivity|]. split.
  - intros pre x post -> Hpre Hx. now apply find_phone_loop_first.
  - split; [split|].
    + apply find_phone_loop_Raise.
    + apply find_phone_loop_none.
    + intros e He. apply find_phone_loop_Raise in He as Hno.
      rewrite find_phone_loop_none in He by exact Hno. congruence.
Qed.

(** X2. After a successful [add_phone] the new number is the last entry, the
    entries before it are untouched (an equal number already held stays:
    there are then two), every number found before is found as before, and
    the new number is found. *)
Theorem add_phone_appends (r : ContactRecord) (s : str) :
  validate_number s = true ->
  add_phone s r
  = (Return tt, MkRecord (name r) (phones r ++ [MkPhone s]) (birthday r))
  /\ (forall t p, (find_phone t r).1 = Return p ->
        (find_phone t (add_phone s r).2).1 = Return p)
  /\ (exists p, (find_phone s (add_phone s r).2).1 = Return p
                /\ phone_value p = s)
  /\ length (phones (add_phone s r).2) = S (length (phones r)).
Proof.
  intros Hs. rewrite add_phone_valid by exact Hs. cbn [fst snd phones].
  split; [reflexivity|]. unfold find_phone. step_method. cbn [fst phones].
  split; [|split].
  - intros t p Hp.
    destruct (first_match_split t (phones r))
      as [Hno | (pre & x & post & Hps & Hpre & Hx)].
    + rewrite find_phone_loop_none in Hp by exact Hno. discriminate.
    + rewrite Hps in Hp |- *. rewrite <- app_assoc. cbn [app].
      rewrite find_phone_loop_first in Hp |- * by assumption. exact Hp.
  - destruct (first_match_split s (phones r ++ [MkPhone s]))
      as [Hno | (pre & x & post & Hps & Hpre & Hx)].
    + apply Forall_app in Hno as [_ Hno].
      apply Forall_cons in Hno as [Hno _]. now contradiction Hno.
    + exists x. rewrite Hps. split; [|exact Hx].
      now apply find_phone_loop_first.
  - rewrite length_app. cbn [length]. lia.
Qed.

(** X3. Adding a number and removing it again: if the record did not hold the
    number, the record is as before; if it did, the older entry is the one
    removed and the added one stays at the end. *)
Theorem add_then_remove_phone (r : ContactRecord) (s : str) :
  validate_number s = true ->
  (Forall (fun y => phone_value y <> s) (phones r) ->
   remove_phone s (add_phone s r).2 = (Return tt, r))
  /\ (forall pre x post,
        phones r = pre ++ x :: post ->
        Forall (fun y => phone_value y <> s) pre ->
        phone_value x = s ->
        remove_phone s (add_phone s r).2
        = (Return tt,
           MkRecord (name r) (pre ++ post ++ [MkPhone s]) (birthday r))).
Proof.
  intros Hs. rewrite add_phone_valid by exact Hs. cbn [snd].
  split.
  - intros Hno.
    rewrite (remove_phone_first s _ (phones r) (MkPhone s) [])
      by (try assumption; reflexivity).
    cbn [name birthday]. rewrite app_nil_r. now rewrite record_eta.
  - intros pre x post Hps Hpre Hx.
    rewrite (remove_phone_first s _ pre x (post ++ [MkPhone s]));
      try assumption; [reflexivity|].
    cbn [phones]. rewrite Hps, <- app_assoc. reflexivity.
Qed.

(** X4. [edit_phone] does not need the record to hold the old number: for a
    valid old number that is not held and a valid new one it raises nothing
    and adds the new number.  When the old number is held the number of
    entries stays, and the new number goes to the end of the list, not to
    the place of the old one. *)
Theorem edit_phone_absent_old (r : ContactRecord) (old new : str) :
  validate_number old = true ->
  validate_number new = true ->
  (Forall (fun y => phone_value y <> old) (phones r) ->
   edit_phone old new r
   = (Return tt, MkRecord (name r) (phones r ++ [MkPhone new]) (birthday r)))
  /\ (forall pre x post,
        phones r = pre ++ x :: post ->
        Forall (fun y => phone_value y <> old) pre ->
        phone_value x = old ->
        edit_phone old new r
        = (Return tt,
           MkRecord (name r) (pre ++ post ++ [MkPhone new]) (birthday r))
        /\ length (phones (edit_phone old new r).2) = length (phones r)).
Proof.
  intros Hold Hnew. rewrite edit_phone_total. unfold editPhone_spec.
  rewrite Hold, Hnew. cbn [negb]. split.
  - intros Hno. now rewrite remove_first_absent.
  - intros pre x post Hps Hpre Hx. rewrite Hps.
    rewrite remove_first_split by assumption. cbn [snd phones].
    rewrite <- app_assoc. split; [reflexivity|].
    repeat (rewrite length_app; cbn [length]). lia.
Qed.

(** X5. [add_birthday] with a text that denotes a date stores that date,
    whatever birthday was stored before, and changes nothing else; so of
    two such calls in a row the second decides.  A failed call after a
    successful one keeps the first date. *)
Theorem add_birthday_overwrites (r : ContactRecord) (s1 s2 : str) (d : date) :
  date_text s2 = Some d ->
  add_birthday s2 r
  = (Return tt, MkRecord (name r) (phones r) (Some (MkBirthday d)))
  /\ (add_birthday s2 (add_birthday s1 r).2) = add_birthday s2 r
  /\ (forall s3, date_text s3 = None ->
        (add_birthday s3 (add_birthday s2 r).2).2 = (add_birthday s2 r).2).
Proof.
  intros Hd. rewrite !add_birthday_total, Hd.
  split; [reflexivity|]. split.
  - now destruct (date_text s1).
  - intros s3 Hs3. rewrite add_birthday_total. now rewrite Hs3.
Qed.

End RecordExtras.

Lemma add_phone_appends_witness :
  add_phone (lit "0670000000") (mia [lit "0501112233"])
  = (Return tt, mia [lit "0501112233"; lit "0670000000"]).
Proof.
  apply (add_phone_appends (mia [lit "0501112233"]) (lit "0670000000")).
  vm_compute. reflexivity.
Defined.

Lemma add_then_remove_phone_witness :
  remove_phone (lit "0670000000")
    (add_phone (lit "0670000000") (mia [lit "0501112233"])).2
  = (Return tt, mia [lit "0501112233"])
  /\ remove_phone (lit "0501112233")
       (add_phone (lit "0501112233")
          (mia [lit "0501112233"; lit "0670000000"])).2
     = (Return tt, mia [lit "0670000000"; lit "0501112233"]).
Proof.
  split.
  - apply (add_then_remove_phone (mia [lit "0501112233"]) (lit "0670000000")).
    + vm_compute. reflexivity.
    + repeat constructor. discriminate.
  - destruct (add_then_remove_phone
                (mia [lit "0501112233"; lit "0670000000"])
                (lit "0501112233")) as [_ Hheld]; [vm_compute; reflexivity|].
    apply (Hheld [] (MkPhone (lit "0501112233"))
             [MkPhone (lit "0670000000")]).
    + reflexivity.
    + constructor.
    + reflexivity.
Defined.

Lemma edit_phone_absent_old_witness :
  edit_phone (lit "0991234567") (lit "0670000000") (mia [lit "0501112233"])
  = (Return tt, mia [lit "0501112233"; lit "0670000000"])
  /\ edit_phone (lit "0501112233") (lit "0670000000")
       (mia [lit "0501112233"; lit "0991234567"])
     = (Return tt, mia [lit "0991234567"; lit "0670000000"]).
Proof.
  split.
  - apply (edit_phone_absent_old (mia [lit "0501112233"])
             (lit "0991234567") (lit "0670000000")).
    + vm_compute. reflexivity.
    + vm_compute. reflexivity.
    + repeat constructor. discriminate.
  - destruct (edit_phone_absent_old
                (mia [lit "0501112233"; lit "0991234567"])
                (lit "0501112233") (lit "0670000000")) as [_ Hheld];
      [vm_compute; reflexivity | vm_compute; reflexivity|].
    apply (Hheld [] (MkPhone (lit "0501112233"))
             [MkPhone (lit "0991234567")]).
    + reflexivity.
    + constructor.
    + reflexivity.
Defined.

Lemma add_birthday_overwrites_witness :
  add_birthday (lit "1.2.2001") mia_born_1990
  = (Return tt,
     MkRecord (MkName (lit "Mia")) [MkPhone (lit "0991234567")]
       (Some (MkBirthday (Date 2001 2 1)))).
Proof.
  apply (add_birthday_overwrites mia_born_1990 (lit "x") (lit "1.2.2001")
           (Date 2001 2 1)).
  vm_compute. reflexivity.
Defined.


(** * Further properties of the book *)

Section BookExtras.
Context `{Platform}.

Lemma remove_first_Forall (P : Phone -> Prop) (s : str) (ps : list Phone) :
  Forall P ps -> Forall P (remove_first s ps).
Proof.
  induction 1 as [|y ps Hy Hps IH]; cbn [remove_first]; [constructor|].
  destruct (decide (phone_value y = s)); [exact Hps | now constructor].
Qed.

Lemma add_phone_record_valid s r :
  record_valid r -> record_valid (add_phone s r).2.
Proof.
  intros (Hn & Hp & Hb). destruct (validate_number s) eqn:Hs.
  - rewrite add_phone_valid by exact Hs. cbn [snd]. repeat split; try assumption.
    cbn [phones]. apply Forall_app. split; [exact Hp|]. now repeat constructor.
  - rewrite add_phone_invalid by exact Hs. now repeat split.
Qed.

Lemma remove_phone_record_valid s r :
  record_valid r -> record_valid (remove_phone s r).2.
Proof.
  intros (Hn & Hp & Hb). rewrite remove_phone_total.
  destruct (validate_number s); [|now repeat split]. cbn [snd].
  repeat split; try assumption. cbn [phones]. now apply remove_first_Forall.
Qed.

Lemma edit_phone_record_valid old new r :
  record_valid r -> record_valid (edit_phone old new r).2.
Proof.
  intros Hr. rewrite edit_phone_sequence.
  pose proof (remove_phone_record_valid old r Hr) as Hr1.
  destruct (remove_phone old r) as [[[]|e] r1]; cbn [snd] in Hr1 |- *;
    [now apply add_phone_record_valid | exact Hr1].
Qed.

Lemma add_birthday_record_valid s r :
  record_valid r -> record_valid (add_birthday s r).2.
Proof.
  intros (Hn & Hp & Hb). pose proof (add_birthday_ok s r Hb) as Hb'.
  rewrite add_birthday_total in Hb' |- *.
  destruct (date_text s); now repeat split.
Qed.

Lemma on_record_Forall (P : ContactRecord -> Prop) a
    (m : M ContactRecord unit) (w : World) :
  (forall r, P r -> P (m r).2) ->
  Forall P (heap w) -> Forall P (heap (on_record a m w).2).
Proof.
  intros Hm Hall. unfold on_record.
  destruct (heap w !! a) as [r|] eqn:Ha; [|exact Hall].
  specialize (Hm r). destruct (m r) as [res r']. cbn [snd heap] in Hm |- *.
  apply Forall_insert; [exact Hall|]. apply Hm.
  eapply Forall_lookup_1; [exact Hall | exact Ha].
Qed.

Lemma run_records_valid c (w : World) :
  Forall record_valid (heap w) -> Forall record_valid (heap (run c w)).
Proof.
  intros Hall. destruct c as [nm | a p | a p | a p q | a b | a | nm];
    cbn [run].
  - unfold new_record, Record_init, Name_init.
    destruct (length nm) as [|n] eqn:Hlen;
      cbn [Nat.eqb negb mbind result_mbind result_bind]; [exact Hall|].
    cbn [snd heap]. apply Forall_app. split; [exact Hall|].
    repeat constructor; cbn [name name_value phones].
    + intros ->. discriminate Hlen.
    + intros b Hb. discriminate Hb.
  - apply on_record_Forall; [apply add_phone_record_valid | exact Hall].
  - apply on_record_Forall; [apply remove_phone_record_valid | exact Hall].
  - apply on_record_Forall; [apply edit_phone_record_valid | exact Hall].
  - apply on_record_Forall; [apply add_birthday_record_valid | exact Hall].
  - unfold add_record. now destruct (heap w !! a).
  - unfold delete_record. now destruct (dict_contains nm (data w)).
Qed.

(** X6. In every state a client can reach, every record has a name that is not
    empty, only phones that passed the validation, and a birthday, if any,
    that is a date of the calendar; so no key of the book is empty, and a
    stored phone has ten characters. *)
Theorem reachable_records_valid (w : World) :
  reachable w ->
  Forall record_valid (heap w)
  /\ (forall k a, (k, a) ∈ data w -> k <> [])
  /\ (forall r p, r ∈ heap w -> p ∈ phones r ->
        length (phone_value p) = 10%nat).
Proof.
  intros Hreach.
  assert (Hall : Forall record_valid (heap w)).
  { induction Hreach as [|c w _ IH]; [constructor | now apply run_records_valid]. }
  split; [exact Hall|]. rewrite Forall_forall in Hall. split.
  - intros k a Hin.
    destruct (reachable_inv w Hreach) as [_ Hkeys].
    destruct (Hkeys k a Hin) as (r & Hr & <-).
    apply (Hall r). eapply list_elem_of_lookup_2, Hr.
  - intros r p Hr Hp. destruct (Hall r Hr) as (_ & Hps & _).
    rewrite Forall_forall in Hps. specialize (Hps p Hp).
    now apply validate_number_spec in Hps as [Hlen _].
Qed.

(** X7. Creating a record, adding it to the book and looking its name up: for
    a name that is not empty the three calls succeed, and [find] returns
    the new record, which has that name, no phone and no birthday, whatever
    the book held under the name before.  For the empty name the creation
    raises "Name cannot be empty" and nothing changes. *)
Theorem new_record_add_find (w : World) (nm : str) :
  (nm <> [] ->
   let a := length (heap w) in
   let w1 := (new_record nm w).2 in
   let w2 := (add_record a w1).2 in
   (new_record nm w).1 = Return a
   /\ (add_record a w1).1 = Return tt
   /\ (find nm w2).1 = Return a
   /\ heap w2 !! a = Some (MkRecord (MkName nm) [] None))
  /\ (nm = [] ->
      new_record nm w = (Raise (ValueError "Name cannot be empty"), w)).
Proof.
  split.
  - intros Hname. cbv zeta. unfold new_record, Record_init, Name_init.
    destruct nm as [|c nm]; [contradiction|].
    cbn [length Nat.eqb negb mbind result_mbind result_bind fst snd].
    unfold add_record. cbn [heap data].
    rewrite lookup_app_r by lia. rewrite Nat.sub_diag. cbn [lookup list_lookup].
    unfold find. cbn [fst snd data heap name name_value].
    rewrite dict_get_set_eq. repeat split.
    rewrite lookup_app_r by lia. now rewrite Nat.sub_diag.
  - intros ->. reflexivity.
Qed.

Lemma dict_del_set_fresh {V} (k : str) (v : V) (d : list (str * V)) :
  dict_get k d = None -> dict_del k (dict_set k v d) = d.
Proof.
  induction d as [|[k' v'] d IH]; cbn [dict_get dict_set dict_del].
  - intros _. now rewrite decide_True.
  - destruct (decide (k' = k)) as [->|Hne]; [discriminate|].
    intros Hd. cbn [dict_del]. rewrite decide_False by exact Hne.
    now rewrite IH.
Qed.

Lemma filter_keeps_all {A} (P : A -> Prop) `{forall x, Decision (P x)}
    (l : list A) :
  (forall x, x ∈ l -> P x) -> filter P l = l.
Proof.
  induction l as [|x l IH]; intros Hall; [reflexivity|].
  rewrite filter_cons_True by (apply Hall; apply list_elem_of_here).
  f_equal. apply IH. intros y Hy. apply Hall. now apply list_elem_of_further.
Qed.

Lemma dict_del_keys {V} (k : str) (d : list (str * V)) :
  NoDup d.*1 -> (dict_del k d).*1 = filter (fun k' => k' <> k) d.*1.
Proof.
  induction d as [|[k' v'] d IH]; cbn [dict_del fmap list_fmap fst];
    [reflexivity|].
  intros Hd. apply NoDup_cons in Hd as [Hk' Hd].
  change (list_fmap _ _ fst d) with (d.*1) in *.
  destruct (decide (k' = k)) as [->|Hne].
  - rewrite filter_cons_False by (intros Hk; now apply Hk).
    symmetry. apply filter_keeps_all. intros k' Hin ->. contradiction.
  - rewrite filter_cons_True by exact Hne. cbn [fmap list_fmap fst].
    f_equal. now apply IH.
Qed.

(** X8. The order of the book.  [add_record] of a record whose name is no key
    yet puts the name after all keys; [delete_record] of that name then
    gives the state before back.  [delete_record] of any key leaves the
    other keys in their order. *)
Theorem add_record_order (w : World) (a : nat) (r : ContactRecord) :
  NoDup (data w).*1 ->
  heap w !! a = Some r ->
  (dict_contains (name_value (name r)) (data w) = false ->
   (data (add_record a w).2).*1 = (data w).*1 ++ [name_value (name r)]
   /\ (delete_record (name_value (name r)) (add_record a w).2).2 = w)
  /\ (forall k,
        (data (delete_record k w).2).*1
        = filter (fun k' => k' <> k) (data w).*1).
Proof.
  intros Hnodup Ha. split.
  - intros Hfresh. unfold add_record. rewrite Ha. cbn [snd data heap].
    split; [now rewrite dict_set_keys, Hfresh|].
    unfold delete_record, dict_contains. cbn [data heap].
    rewrite dict_get_set_eq. cbn [snd].
    rewrite dict_del_set_fresh; [now destruct w|].
    unfold dict_contains in Hfresh. now destruct (dict_get _ (data w)).
  - intros k. unfold delete_record.
    destruct (dict_contains k (data w)) eqn:Hk; cbn [snd data].
    + now apply dict_del_keys.
    + symmetry. apply filter_keeps_all. intros k' Hin ->.
      unfold dict_contains in Hk.
      destruct (dict_get k (data w)) eqn:Hget; [discriminate|].
      now apply dict_get_None in Hget.
Qed.

End BookExtras.

Lemma reachable_records_valid_witness :
  Forall record_valid (heap book_mia_and_namesake)
  /\ (forall k a, (k, a) ∈ data book_mia_and_namesake -> k <> [])
  /\ (forall r p, r ∈ heap book_mia_and_namesake -> p ∈ phones r ->
        length (phone_value p) = 10%nat).
Proof.
  apply (reachable_records_valid book_mia_and_namesake).
  unfold book_mia_and_namesake, book_mia.
  repeat apply reachable_run. apply reachable_empty.
Defined.

Lemma add_record_order_witness :
  (data (add_record 1 (run (CNewRecord (lit "Mia")) book_bob)).2).*1
  = [lit "Bob"; lit "Mia"]
  /\ (delete_record (lit "Mia")
        (add_record 1 (run (CNewRecord (lit "Mia")) book_bob)).2).2
     = run (CNewRecord (lit "Mia")) book_bob.
Proof.
  assert (Hnodup : NoDup (data (run (CNewRecord (lit "Mia")) book_bob)).*1).
  { apply (bool_decide_unpack _). vm_compute. reflexivity. }
  destruct (add_record_order (run (CNewRecord (lit "Mia")) book_bob) 1%nat
              (MkRecord (MkName (lit "Mia")) [] None) Hnodup)
    as [Hadd _]; [vm_compute; reflexivity|].
  destruct Hadd as [Hkeys Hback]; [vm_compute; reflexivity|].
  split; [rewrite Hkeys; vm_compute; reflexivity | exact Hback].
Defined.


(** * Further properties of the upcoming birthdays *)

Section UpcomingExtras.
Context `{Platform}.

Lemma replace_year_leap_day (today b : date) :
  1 <= year today <= 9999 ->
  is_leap (year today) = false ->
  month b = 2 -> day b = 29 ->
  replace_year b (year today) = Raise leap_day_error.
Proof.
  intros Hy Hleap Hm Hd. unfold replace_year, date_new, MINYEAR, MAXYEAR.
  rewrite Hm, Hd. unfold days_in_month. rewrite Hleap.
  decide_atomsZ. cbn [andb negb]. reflexivity.
Qed.

Lemma birthday_has_candidate (today : date) (r : ContactRecord) :
  birthday_ok r ->
  is_leap (year today) = true \/ is_leap_day r = false ->
  has_candidate today r.
Proof.
  intros Hok Hcase b Hb. specialize (Hok b Hb).
  unfold valid_ymd in Hok. rewrite !andb_true_iff, !Z.leb_le in Hok.
  destruct Hok as (((((_ & _) & Hm1) & Hm2) & Hd1) & Hd2).
  split; [lia|]. split; [lia|].
  rewrite days_in_month_length by lia.
  unfold month_length in *. rewrite <- !is_leap_leap_year in *.
  destruct (Z.eqb_spec (month (birthday_value b)) 2) as [Hfeb|Hother];
    [|destruct (_ || _); lia].
  destruct (is_leap (year today)) eqn:Hl;
    [destruct (is_leap (year (birthday_value b))); lia|].
  destruct Hcase as [|Hcase]; [discriminate|].
  unfold is_leap_day in Hcase. rewrite Hb in Hcase.
  apply andb_false_iff in Hcase as [Hcase|Hcase];
    [apply Z.eqb_neq in Hcase; contradiction|].
  apply Z.eqb_neq in Hcase.
  destruct (is_leap (year (birthday_value b))); lia.
Qed.

Lemma upcoming_loop_leap_day (today : date) (records : list ContactRecord)
    (acc : list upcoming) :
  1 <= year today <= 9999 -> valid_md today ->
  toordinal today + 7 <= MAXORDINAL ->
  is_leap (year today) = false ->
  Forall birthday_ok records ->
  existsb is_leap_day records = true ->
  upcoming_loop today records acc = Raise leap_day_error.
Proof.
  intros Hy Htoday Hmax Hleap Hall. revert acc.
  induction Hall as [|r records Hr _ IH]; intros acc Hex;
    cbn [existsb] in Hex; [discriminate|].
  cbn [upcoming_loop].
  destruct (is_leap_day r) eqn:Hr29.
  - unfold is_leap_day in Hr29.
    destruct (birthday r) as [b|]; [|discriminate].
    apply andb_true_iff in Hr29 as [Hm Hd].
    apply Z.eqb_eq in Hm, Hd.
    now rewrite replace_year_leap_day.
  - cbn [orb] in Hex.
    pose proof (birthday_has_candidate today r Hr (or_intror Hr29)) as Hc.
    destruct (birthday r) as [b|] eqn:Hb; [|now apply IH].
    destruct (Hc b Hb) as [Hm Hd].
    rewrite replace_year_candidate by assumption.
    cbn [mbind result_mbind result_bind].
    rewrite in_window_in_week; [|lia|assumption|now split|assumption].
    cbn [mbind result_mbind result_bind].
    destruct (in_week today (candidate today (birthday_value b)));
      now apply IH.
Qed.

Lemma reachable_values_ok (w : World) :
  reachable w -> Forall birthday_ok (values w).
Proof.
  intros Hreach. pose proof (reachable_birthdays w Hreach) as Hheap.
  rewrite Forall_forall in Hheap |- *. intros r Hr.
  now apply Hheap, values_in_heap.
Qed.

Lemma upcoming_loop_cases (today : date) (records : list ContactRecord) :
  Forall birthday_ok records ->
  valid_ymd (year today) (month today) (day today) = true ->
  toordinal today + 7 <= MAXORDINAL ->
  upcoming_loop today records [] =
    if is_leap (year today) || negb (existsb is_leap_day records)
    then Return (upcoming_spec today records)
    else Raise leap_day_error.
Proof.
  intros Hrecords Htoday Hmax.
  unfold valid_ymd in Htoday. rewrite !andb_true_iff, !Z.leb_le in Htoday.
  destruct Htoday as (((((Hy1 & Hy2) & Hm1) & Hm2) & Hd1) & Hd2).
  assert (Hmd : valid_md today).
  { split; [lia|]. rewrite days_in_month_length by lia. lia. }
  destruct (is_leap (year today) || negb (existsb is_leap_day records))
    eqn:Hcase.
  - rewrite (upcoming_loop_spec today records []); try assumption;
      [reflexivity | lia |].
    rewrite Forall_forall in Hrecords |- *. intros r Hr.
    apply birthday_has_candidate; [now apply Hrecords|].
    apply orb_true_iff in Hcase as [Hl|Hno]; [now left|right].
    apply negb_true_iff in Hno.
    destruct (is_leap_day r) eqn:Hr29; [|reflexivity].
    assert (Hex : existsb is_leap_day records = true)
      by (apply existsb_exists; exists r; split;
          [now apply list_elem_of_In | exact Hr29]).
    congruence.
  - apply orb_false_iff in Hcase as [Hl Hex].
    apply negb_false_iff in Hex.
    apply upcoming_loop_leap_day; try assumption. lia.
Qed.

(** X9. [get_upcoming_birthdays] in full, for a reachable book and a day of the
    calendar with its seven next days: if today's year is a leap year or no
    record of the book has its birthday on a 29th of February, the call
    returns the records in the window; otherwise it raises "day is out of
    range for month" and returns no list, whichever records are in the
    window.  In both cases the book is as before. *)
Theorem get_upcoming_birthdays_total (today : date) (w : World) :
  reachable w ->
  valid_ymd (year today) (month today) (day today) = true ->
  toordinal today + 7 <= MAXORDINAL ->
  get_upcoming_birthdays today w =
    (if is_leap (year today) || negb (existsb is_leap_day (values w))
     then Return (upcoming_spec today (values w))
     else Raise leap_day_error, w).
Proof.
  intros Hreach Htoday Hmax. unfold get_upcoming_birthdays.
  rewrite upcoming_loop_cases by (try assumption; now apply reachable_values_ok).
  reflexivity.
Qed.

Lemma upcoming_loop_Return (today : date) (records : list ContactRecord)
    (acc l : list upcoming) :
  upcoming_loop today records acc = Return l ->
  exists l',
    l = acc ++ l'
    /\ up_name <$> l' `sublist_of` (fun r => name_value (name r)) <$> records
    /\ Forall (fun u => exists r b,
                 r ∈ records /\ birthday r = Some b
                 /\ u = Upcoming (name_value (name r))
                          (strftime (candidate today (birthday_value b)))) l'.
Proof.
  revert acc. induction records as [|r records IH]; intros acc;
    cbn [upcoming_loop].
  - intros [= <-]. exists []. rewrite app_nil_r. repeat split; constructor.
  - assert (Hskip : upcoming_loop today records acc = Return l ->
              exists l',
                l = acc ++ l'
                /\ up_name <$> l' `sublist_of`
                     (fun r => name_value (name r)) <$> (r :: records)
                /\ Forall (fun u => exists r0 b,
                     r0 ∈ r :: records /\ birthday r0 = Some b
                     /\ u = Upcoming (name_value (name r0))
                              (strftime (candidate today (birthday_value b))))
                     l').
    { intros Hl. destruct (IH acc Hl) as (l' & -> & Hsub & Hall).
      exists l'. split; [reflexivity|]. split.
      - cbn [fmap list_fmap]. now apply sublist_cons.
      - eapply Forall_impl; [exact Hall|]. intros u (r0 & b & Hr0 & Hb & Hu).
        exists r0, b. split; [now apply list_elem_of_further | now split]. }
    destruct (birthday r) as [b|] eqn:Hb; [|exact Hskip].
    unfold replace_year, date_new.
    destruct (negb _); cbn [mbind result_mbind result_bind]; [discriminate|].
    destruct (negb _); cbn [mbind result_mbind result_bind]; [discriminate|].
    destruct (negb _); cbn [mbind result_mbind result_bind]; [discriminate|].
    destruct (in_window today _) as [[|]|e];
      cbn [mbind result_mbind result_bind]; [|exact Hskip|discriminate].
    intros Hl. destruct (IH _ Hl) as (l' & -> & Hsub & Hall).
    eexists (_ :: l'). split; [now rewrite <- app_assoc|]. split.
    + cbn [fmap list_fmap up_name]. now apply sublist_skip.
    + constructor.
      * exists r, b. split; [apply list_elem_of_here | now split].
      * eapply Forall_impl; [exact Hall|]. intros u (r0 & b0 & Hr0 & Hb0 & Hu).
        exists r0, b0. split; [now apply list_elem_of_further | now split].
Qed.

Lemma values_names (w : World) :
  book_inv w ->
  (fun r => name_value (name r)) <$> values w = (data w).*1.
Proof.
  intros [_ Hkeys]. unfold values.
  assert (Hsub : forall d, (forall k a, (k, a) ∈ d -> (k, a) ∈ data w) ->
            (fun r => name_value (name r))
              <$> omap (fun kv => heap w !! kv.2) d = d.*1).
  { induction d as [|[k a] d IH]; intros Hd; [reflexivity|].
    cbn [omap list_omap fmap list_fmap fst snd].
    destruct (Hkeys k a (Hd k a (list_elem_of_here _ _))) as (r & -> & <-).
    cbn [fmap list_fmap]. f_equal. apply IH.
    intros k' a' Hin. now apply Hd, list_elem_of_further. }
  now apply Hsub.
Qed.

(** X10. What a returned list can hold, in any reachable book and on any day:
    the names are keys of the book, in the order of the book and none
    twice, and each entry is made from a record of the book that has a
    birthday, with that birthday's month and day in today's year; a record
    without a birthday is never reported. *)
Theorem get_upcoming_birthdays_reports (today : date) (w : World)
    (l : list upcoming) :
  reachable w ->
  (get_upcoming_birthdays today w).1 = Return l ->
  up_name <$> l `sublist_of` (data w).*1
  /\ NoDup (up_name <$> l)
  /\ Forall (fun u => exists r b,
               r ∈ values w /\ birthday r = Some b
               /\ u = Upcoming (name_value (name r))
                        (strftime (candidate today (birthday_value b)))) l.
Proof.
  intros Hreach Hl. unfold get_upcoming_birthdays in Hl. cbn [fst] in Hl.
  apply upcoming_loop_Return in Hl as (l' & -> & Hsub & Hall).
  cbn [app]. pose proof (reachable_inv w Hreach) as Hinv.
  rewrite (values_names w Hinv) in Hsub.
  split; [exact Hsub|]. split; [|exact Hall].
  eapply sublist_NoDup; [apply Hinv | exact Hsub].
Qed.

End UpcomingExtras.

Lemma get_upcoming_birthdays_total_witness :
  get_upcoming_birthdays (Date 2024 2 25) book_bob_mia
  = (Return [Upcoming (lit "Bob") (lit "26.02.2024");
             Upcoming (lit "Mia") (lit "29.02.2024")], book_bob_mia)
  /\ get_upcoming_birthdays (Date 2023 2 25) book_bob_mia
     = (Raise leap_day_error, book_bob_mia).
Proof.
  assert (Hreach : reachable book_bob_mia).
  { unfold book_bob_mia, book_bob. repeat apply reachable_run.
    apply reachable_empty. }
  split.
  - rewrite (get_upcoming_birthdays_total (Date 2024 2 25) book_bob_mia Hreach);
      vm_compute; first [reflexivity | discriminate].
  - rewrite (get_upcoming_birthdays_total (Date 2023 2 25) book_bob_mia Hreach);
      vm_compute; first [reflexivity | discriminate].
Defined.

Lemma get_upcoming_birthdays_reports_witness :
  up_name <$> [Upcoming (lit "Bob") (lit "26.02.2023")]
    `sublist_of` (data book_bob).*1.
Proof.
  apply (get_upcoming_birthdays_reports (Date 2023 2 25) book_bob
           [Upcoming (lit "Bob") (lit "26.02.2023")]).
  - unfold book_bob. repeat apply reachable_run. apply reachable_empty.
  - vm_compute. reflexivity.
Defined.

(** * Further properties of the fields *)

Section FieldExtras.
Context `{Platform}.

(** X11. [Phone.__init__] in full: it returns a phone holding the text given,
    or raises "Invalid phone number", and it returns exactly for a text of
    ten characters that are all decimal digits, or nine decimal digits and
    a final newline.  The decimal digits are those of Unicode, of any
    script; among the characters of ASCII they are [0] to [9]. *)
Theorem Phone_init_accepts_exactly (number : str) :
  (Phone_init number = Return (MkPhone number)
   \/ Phone_init number = Raise invalid_phone)
  /\ (Phone_init number = Return (MkPhone number) <->
      length number = 10%nat
      /\ (Forall (fun c => Py_UNICODE_ISDECIMAL c = true) number
          \/ exists ds, number = ds ++ [10%N]
                        /\ Forall (fun c => Py_UNICODE_ISDECIMAL c = true) ds))
  /\ (forall c, (c < 128)%N ->
        Py_UNICODE_ISDECIMAL c = true <-> (48 <= c <= 57)%N).
Proof.
  split; [|split].
  - unfold Phone_init. destruct (validate_number number); [now left | now right].
  - rewrite <- validate_number_spec. unfold Phone_init.
    destruct (validate_number number); [now split|].
    split; discriminate.
  - intros c Hc. rewrite isdecimal_ascii by exact Hc.
    rewrite andb_true_iff, !N.leb_le. reflexivity.
Qed.

(** X12. Every birthday that [Birthday.__init__] returns is a date of the
    calendar of the years 1 to 9999.  And the text that ['%d.%m.%Y']
    formats from such a date is read back as that date, provided the year
    is at least 1000 or the platform's [strftime] pads the year to four
    digits: what [show-birthday] prints, [add-birthday] accepts. *)
Theorem Birthday_init_strftime :
  (forall s b, Birthday_init s = Return b ->
     valid_ymd (year (birthday_value b)) (month (birthday_value b))
       (day (birthday_value b)) = true)
  /\ (forall d,
        valid_ymd (year d) (month d) (day d) = true ->
        strftime_Y_padded = true \/ 1000 <= year d ->
        Birthday_init (strftime d) = Return (MkBirthday d)).
Proof.
  split.
  - intros s b. rewrite Birthday_init_date_text.
    destruct (date_text s) as [d|] eqn:Hs; [|discriminate].
    intros [= <-]. cbn [birthday_value]. now apply (date_text_valid s).
  - intros [y m d] Hvalid Hyear. cbn [year month day] in *.
    assert (Hrange : 1 <= y <= 9999 /\ 1 <= m <= 12 /\ 1 <= d <= 31).
    { unfold valid_ymd in Hvalid.
      rewrite !andb_true_iff, !Z.leb_le in Hvalid.
      destruct Hvalid as (((((Hy1 & Hy2) & Hm1) & Hm2) & Hd1) & Hd2).
      assert (month_length y m <= 31)
        by (unfold month_length;
            repeat match goal with
                   | |- context [if ?b then _ else _] => destruct b
                   end; lia).
      lia. }
    destruct Hrange as (Hy & Hm & Hd).
    assert (Hfmt : strftime (Date y m d)
                   = fmt_02d d ++ lit "." ++ fmt_02d m ++ lit "."
                     ++ fmt_04d y).
    { unfold strftime. cbn [year month day].
      destruct strftime_Y_padded; [reflexivity|].
      destruct Hyear as [Hpad|Hyear]; [discriminate|].
      now rewrite fmt_d_four. }
    rewrite Hfmt.
    destruct (fmt_02d_inv d) as (d1 & d2 & -> & Hd1 & Hd2 & <-); [lia|].
    destruct (fmt_02d_inv m) as (m1 & m2 & -> & Hm1 & Hm2 & <-); [lia|].
    destruct (fmt_04d_inv y) as (y1 & y2 & y3 & y4 & -> & Hys & <-); [lia|].
    rewrite Birthday_init_date_text.
    change ([d1; d2] ++ lit "." ++ [m1; m2] ++ lit "." ++ [y1; y2; y3; y4])
      with [d1; d2; chr "."; m1; m2; chr "."; y1; y2; y3; y4].
    rewrite date_text_digits
      by (repeat (constructor; [assumption|]); exact Hys).
    cbv zeta. now rewrite Hvalid.
Qed.

End FieldExtras.

(** * Further properties of the handlers and of [main] *)

(** ** Words of a line *)

Lemma split_whitespace_words (word s t : str) :
  Forall (fun c => Py_UNICODE_ISSPACE c = false) word ->
  t ∈ split_whitespace word s ->
  t <> [] /\ Forall (fun c => Py_UNICODE_ISSPACE c = false) t.
Proof.
  revert word. induction s as [|c s IH]; intros word Hword;
    cbn [split_whitespace].
  - destruct word as [|c0 word]; [intros Hin; now apply elem_of_nil in Hin|].
    intros Hin. apply list_elem_of_singleton in Hin as ->. now split.
  - destruct (Py_UNICODE_ISSPACE c) eqn:Hc.
    + destruct word as [|c0 word]; [now apply IH|].
      intros Hin. apply elem_of_cons in Hin as [->|Hin]; [now split|].
      now apply (IH []).
    + apply IH. apply Forall_app. split; [exact Hword|]. now repeat constructor.
Qed.

Lemma split_whitespace_spaces (s : str) :
  Forall (fun c => Py_UNICODE_ISSPACE c = true) s ->
  split_whitespace [] s = [].
Proof.
  induction 1 as [|c s Hc _ IH]; cbn [split_whitespace]; [reflexivity|].
  now rewrite Hc.
Qed.

Lemma str_lstrip_spaces (s : str) :
  Forall (fun c => Py_UNICODE_ISSPACE c = true) s -> str_lstrip s = [].
Proof.
  induction 1 as [|c s Hc _ IH]; cbn [str_lstrip]; [reflexivity|].
  now rewrite Hc.
Qed.

Lemma str_strip_spaces (s : str) :
  Forall (fun c => Py_UNICODE_ISSPACE c = true) s -> str_strip s = [].
Proof.
  intros Hs. unfold str_strip. now rewrite (str_lstrip_spaces s Hs).
Qed.

Lemma join_nil (sep : str) (parts : list str) :
  Forall (fun part => part <> []) parts ->
  join sep parts = [] <-> parts = [].
Proof.
  intros Hparts. split; [|now intros ->].
  destruct Hparts as [|part parts Hpart _]; [reflexivity|].
  cbn [join]. destruct parts as [|part' parts]; [now intros ->|].
  intros Happ. apply app_eq_nil in Happ as [-> _]. now contradiction Hpart.
Qed.

Lemma join_singleton (sep part : str) : join sep [part] = part.
Proof. reflexivity. Qed.

Section HandlerFacts.
Context `{Platform}.

(** ** Words of a command line *)

(** X13. The words [main] cuts a line into are not empty and hold no white
    space, whatever the line; so a word is accepted as a phone number
    exactly when it is ten decimal digits: a number that ends in a newline
    cannot come from a command line. *)
Theorem tokens_are_words (lower : str -> str) (line t : str) :
  t ∈ tokens lower line ->
  t <> []
  /\ Forall (fun c => Py_UNICODE_ISSPACE c = false) t
  /\ (validate_number t = true <->
      length t = 10%nat
      /\ Forall (fun c => Py_UNICODE_ISDECIMAL c = true) t).
Proof.
  unfold tokens, str_split. intros Hin.
  apply split_whitespace_words in Hin as [Hne Hwords]; [|constructor].
  split; [exact Hne|]. split; [exact Hwords|].
  rewrite validate_number_spec. split.
  - intros [Hlen [Hall | (ds & -> & Hall)]]; [now split|].
    apply Forall_app in Hwords as [_ Hnl].
    apply Forall_cons in Hnl as [Hnl _]. vm_compute in Hnl. discriminate Hnl.
  - intros [Hlen Hall]. split; [exact Hlen | now left].
Qed.


(** ** The handlers *)

Lemma heap_extended (l : list ContactRecord) (r r' : ContactRecord) :
  (l ++ [r]) !! length l = Some r
  /\ <[length l := r']> (l ++ [r]) = l ++ [r'].
Proof.
  split.
  - rewrite lookup_app_r by lia. now rewrite Nat.sub_diag.
  - rewrite <- (Nat.add_0_r (length l)) at 1. now rewrite insert_app_r.
Qed.

Lemma add_contact_total (w : World) (nm phone : str) :
  add_contact [nm; phone] w =
    if decide (nm = []) then (lit "ValueError: Name cannot be empty", w)
    else if validate_number phone then
      (lit "Contact " ++ nm ++ lit " added with phone number " ++ phone,
       MkWorld (heap w ++ [MkRecord (MkName nm) [MkPhone phone] None])
         (dict_set nm (length (heap w)) (data w)))
    else
      (lit "ValueError: Invalid phone number",
       MkWorld (heap w ++ [MkRecord (MkName nm) [] None]) (data w)).
Proof.
  unfold add_contact, input_error, core. step_method.
  unfold new_record, Record_init, Name_init.
  destruct nm as [|c nm]; [reflexivity|].
  rewrite decide_False by discriminate.
  cbn [length Nat.eqb negb mbind result_mbind result_bind].
  step_method. unfold on_record. cbn [heap data].
  destruct (heap_extended (heap w) (MkRecord (MkName (c :: nm)) [] None)
              (MkRecord (MkName (c :: nm)) [MkPhone phone] None)) as [Hget Hset].
  rewrite Hget.
  destruct (validate_number phone) eqn:Hphone.
  - rewrite add_phone_valid by exact Hphone. cbn [name phones birthday app].
    step_method. unfold add_record. cbn [heap data]. rewrite Hset.
    destruct (heap_extended (heap w)
                (MkRecord (MkName (c :: nm)) [MkPhone phone] None)
                (MkRecord (MkName (c :: nm)) [MkPhone phone] None)) as [-> _].
    reflexivity.
  - rewrite add_phone_invalid by exact Hphone. cbn beta iota.
    destruct (heap_extended (heap w) (MkRecord (MkName (c :: nm)) [] None)
                (MkRecord (MkName (c :: nm)) [] None)) as [_ ->].
    reflexivity.
Qed.

Lemma on_record_at (a : nat) (m : M ContactRecord unit) (w : World)
    (r : ContactRecord) :
  heap w !! a = Some r ->
  on_record a m w = ((m r).1, MkWorld (<[a := (m r).2]> (heap w)) (data w)).
Proof. intros Ha. unfold on_record. rewrite Ha. now destruct (m r). Qed.

Lemma record_at_Some (a : nat) (w : World) (r : ContactRecord) :
  heap w !! a = Some r -> record_at a w = r.
Proof. intros Ha. unfold record_at. now rewrite Ha. Qed.

Lemma book_inv_record (w : World) (k : str) (a : nat) :
  book_inv w -> dict_get k (data w) = Some a ->
  heap w !! a = Some (record_at a w)
  /\ name_value (name (record_at a w)) = k.
Proof.
  intros [_ Hkeys] Hget. apply dict_get_Some in Hget.
  destruct (Hkeys k a Hget) as (r & Hr & Hname).
  now rewrite (record_at_Some a w r Hr).
Qed.

Lemma show_phones_total (w : World) (nm : str) (rest : list str) :
  show_phones (nm :: rest) w =
    (match dict_get nm (data w) with
     | Some a =>
         nm ++ lit "'s phones: "
         ++ join (lit ", ") (phone_value <$> phones (record_at a w))
     | None => lit "KeyError: 'Record not found'"
     end, w).
Proof.
  unfold show_phones, input_error, core, find. step_method.
  now destruct (dict_get nm (data w)).
Qed.

Lemma change_phone_total (w : World) (nm old new : str) :
  change_phone [nm; old; new] w =
    match dict_get nm (data w) with
    | Some a =>
        match heap w !! a with
        | Some r =>
            (if validate_number old && validate_number new then
               lit "Phone number for " ++ nm ++ lit " changed from " ++ old
               ++ lit " to " ++ new
             else lit "ValueError: Invalid phone number",
             MkWorld (<[a := (edit_phone old new r).2]> (heap w)) (data w))
        | None =>
            (lit "Phone number for " ++ nm ++ lit " changed from " ++ old
             ++ lit " to " ++ new, w)
        end
    | None => (lit "KeyError: 'Record not found'", w)
    end.
Proof.
  unfold change_phone, input_error, core, find. step_method.
  destruct (dict_get nm (data w)) as [a|]; [|reflexivity].
  unfold on_record.
  destruct (heap w !! a) as [r|]; [|reflexivity].
  rewrite edit_phone_total. unfold editPhone_spec.
  destruct (validate_number old), (validate_number new); reflexivity.
Qed.

(** X14. [add_contact] with a name that is not empty and a valid phone number
    answers that the contact was added, and the book then knows the name
    as a contact with this one phone and no birthday: a contact of that
    name that the book had before is replaced, its phones and its birthday
    are gone.  No other name of the book is touched, and the name keeps its
    place among the keys or goes last. *)
Theorem add_contact_replaces (w : World) (nm phone : str) :
  nm <> [] ->
  validate_number phone = true ->
  let after := add_contact [nm; phone] w in
  after.1 = lit "Contact " ++ nm ++ lit " added with phone number " ++ phone
  /\ show_phones [nm] after.2 = (nm ++ lit "'s phones: " ++ phone, after.2)
  /\ (exists a, dict_get nm (data after.2) = Some a
                /\ record_at a after.2 = MkRecord (MkName nm) [MkPhone phone] None)
  /\ (forall k, k <> nm -> dict_get k (data after.2) = dict_get k (data w))
  /\ (data after.2).*1
     = (if dict_contains nm (data w) then (data w).*1 else (data w).*1 ++ [nm]).
Proof.
  intros Hnm Hphone after. subst after. rewrite add_contact_total.
  rewrite decide_False by exact Hnm. rewrite Hphone. cbn [fst snd].
  destruct (heap_extended (heap w) (MkRecord (MkName nm) [MkPhone phone] None)
              (MkRecord (MkName nm) [MkPhone phone] None)) as [Hget _].
  assert (Hat : record_at (length (heap w))
                  (MkWorld (heap w ++ [MkRecord (MkName nm) [MkPhone phone] None])
                     (dict_set nm (length (heap w)) (data w)))
                = MkRecord (MkName nm) [MkPhone phone] None)
    by now apply record_at_Some.
  split; [reflexivity|]. split.
  - rewrite show_phones_total. cbn [data]. rewrite dict_get_set_eq, Hat.
    reflexivity.
  - split.
    + exists (length (heap w)). cbn [data]. now rewrite dict_get_set_eq.
    + split.
      * intros k Hk. cbn [data]. now apply dict_get_set_ne.
      * cbn [data]. apply dict_set_keys.
Qed.

(** X15. When [add_contact] does not add: with other than two arguments it
    answers with the text of the failed unpacking and changes nothing;
    with an empty name it answers "Name cannot be empty" and changes
    nothing; with a phone number that is not valid it answers "Invalid
    phone number", the book has the entries it had, and every record is
    where it was, so a contact of that name keeps its phones. *)
Theorem add_contact_rejects (w : World) :
  (forall args, (length args < 2)%nat ->
     add_contact args w =
       (lit ("ValueError: not enough values to unpack (expected 2, got "
             +:+ pretty (length args) +:+ ")"), w))
  /\ (forall args, (2 < length args)%nat ->
        add_contact args w =
          (lit "ValueError: too many values to unpack (expected 2)", w))
  /\ (forall phone,
        add_contact [[]; phone] w = (lit "ValueError: Name cannot be empty", w))
  /\ (forall nm phone, nm <> [] -> validate_number phone = false ->
        (add_contact [nm; phone] w).1 = lit "ValueError: Invalid phone number"
        /\ data (add_contact [nm; phone] w).2 = data w
        /\ forall a r, heap w !! a = Some r ->
             heap (add_contact [nm; phone] w).2 !! a = Some r).
Proof.
  split; [|split; [|split]].
  - intros [|nm [|phone args]] Hlen; cbn [length] in Hlen; try lia;
      reflexivity.
  - intros [|nm [|phone [|x args]]] Hlen; cbn [length] in Hlen; try lia.
    unfold add_contact, input_error, core, call, unpack_error.
    replace (length (nm :: phone :: x :: args) <? 2)%nat with false
      by (symmetry; apply Nat.ltb_ge; cbn [length]; lia).
    reflexivity.
  - intros phone. now rewrite add_contact_total.
  - intros nm phone Hnm Hphone. rewrite add_contact_total.
    rewrite decide_False by exact Hnm. rewrite Hphone. cbn [fst snd heap data].
    split; [reflexivity|]. split; [reflexivity|].
    intros a r Ha. now apply lookup_app_l_Some.
Qed.

(** X16. [change_phone] on a book: it never changes the keys.  For a name the
    book does not know it answers "KeyError: 'Record not found'" and
    changes nothing.  For a contact it answers that the number was changed
    exactly when both numbers are valid, and "Invalid phone number"
    otherwise; the contact then has its phones without the first [old]
    whenever [old] is valid, and with [new] at the end whenever both are
    valid: so a valid [old] is removed also when the answer is the error
    for [new], and [new] is added also when the contact never had [old].
    The birthday stays. *)
Theorem change_phone_answers (w : World) (nm old new : str) :
  book_inv w ->
  let after := change_phone [nm; old; new] w in
  data after.2 = data w
  /\ match dict_get nm (data w) with
     | None => after = (lit "KeyError: 'Record not found'", w)
     | Some a =>
         let held :=
           if validate_number old then
             remove_first old (phones (record_at a w))
             ++ (if validate_number new then [MkPhone new] else [])
           else phones (record_at a w) in
         after.1
         = (if validate_number old && validate_number new then
              lit "Phone number for " ++ nm ++ lit " changed from " ++ old
              ++ lit " to " ++ new
            else lit "ValueError: Invalid phone number")
         /\ show_phones [nm] after.2
            = (nm ++ lit "'s phones: "
               ++ join (lit ", ") (phone_value <$> held), after.2)
         /\ birthday (record_at a after.2) = birthday (record_at a w)
     end.
Proof.
  intros Hinv after. subst after. rewrite change_phone_total.
  destruct (dict_get nm (data w)) as [a|] eqn:Hget; [|now split].
  destruct (book_inv_record w nm a Hinv Hget) as [Ha _].
  rewrite Ha. cbn [fst snd data]. split; [reflexivity|].
  cbv zeta. split; [reflexivity|].
  assert (Hat : record_at a
                  (MkWorld (<[a := (edit_phone old new (record_at a w)).2]> (heap w))
                     (data w))
                = (edit_phone old new (record_at a w)).2).
  { apply record_at_Some. cbn [heap].
    apply list_lookup_insert_eq. eapply lookup_lt_Some, Ha. }
  rewrite show_phones_total. cbn [data]. rewrite Hget, Hat.
  rewrite edit_phone_total. unfold editPhone_spec.
  destruct (validate_number old), (validate_number new);
    cbn [negb snd phones birthday]; rewrite ?app_nil_r; now split.
Qed.

(** X17. [show_phones] only reads: the book is as before, whatever the
    arguments.  Without arguments it answers with the text for an
    [IndexError]; for a name the book does not know, with "KeyError:
    'Record not found'"; arguments after the name are ignored. *)
Theorem show_phones_reads (w : World) :
  (forall args, (show_phones args w).2 = w)
  /\ show_phones [] w
     = (lit "IndexError: Invalid input, please try again.", w)
  /\ (forall nm rest, show_phones (nm :: rest) w = show_phones [nm] w)
  /\ (forall nm, dict_get nm (data w) = None ->
        (show_phones [nm] w).1 = lit "KeyError: 'Record not found'").
Proof.
  split; [|split; [reflexivity|split]].
  - intros [|nm rest]; [reflexivity|]. now rewrite show_phones_total.
  - intros nm rest. now rewrite !show_phones_total.
  - intros nm Hget. now rewrite show_phones_total, Hget.
Qed.

Lemma values_records (w : World) :
  book_inv w -> values w = (fun kv => record_at kv.2 w) <$> data w.
Proof.
  intros [_ Hkeys]. unfold values.
  assert (Hsub : forall d : list (str * nat),
            (forall k a, (k, a) ∈ d -> (k, a) ∈ data w) ->
            omap (fun kv => heap w !! kv.2) d
            = (fun kv => record_at kv.2 w) <$> d).
  { induction d as [|[k a] d IH]; intros Hd; [reflexivity|].
    cbn [omap list_omap fmap list_fmap snd].
    destruct (Hkeys k a (Hd k a (list_elem_of_here _ _))) as (r & Hr & _).
    rewrite Hr, (record_at_Some a w r Hr). f_equal. apply IH.
    intros k' a' Hin. now apply Hd, list_elem_of_further. }
  now apply Hsub.
Qed.

(** X18. [show_all_contacts] only reads, and on a book it answers with one line
    for each key, in the order of the keys, that begins with "Name: " and
    the key; the answer is the empty text exactly when the book has no
    contact. *)
Theorem show_all_contacts_lists (w : World) :
  book_inv w ->
  show_all_contacts w
  = (join [10%N] ((fun kv => contact_line (record_at kv.2 w)) <$> data w), w)
  /\ (forall k a, (k, a) ∈ data w ->
        exists rest,
          contact_line (record_at a w)
          = lit "Name: " ++ k ++ lit ", Phones: " ++ rest)
  /\ ((show_all_contacts w).1 = [] <-> data w = []).
Proof.
  intros Hinv.
  assert (Hshow : show_all_contacts w
            = (join [10%N]
                 ((fun kv => contact_line (record_at kv.2 w)) <$> data w), w)).
  { unfold show_all_contacts, input_error, core. step_method.
    now rewrite (values_records w Hinv), <- list_fmap_compose. }
  split; [exact Hshow|]. split.
  - intros k a Hin. destruct Hinv as [_ Hkeys].
    destruct (Hkeys k a Hin) as (r & Hr & <-).
    rewrite (record_at_Some a w r Hr). unfold contact_line. eauto.
  - rewrite Hshow. cbn [fst]. rewrite join_nil.
    + split; [apply fmap_nil_inv | now intros ->].
    + apply Forall_fmap, Forall_forall. intros kv _. cbn. discriminate.
Qed.
End HandlerFacts.

Lemma tokens_are_words_witness :
  lit "0991234567" <> []
  /\ validate_number (lit "0991234567") = true.
Proof.
  destruct (tokens_are_words ascii_lower (lit " Add  Mia 0991234567 ")
              (lit "0991234567")) as (Hne & _ & Hphone).
  - apply list_elem_of_In. vm_compute. tauto.
  - split; [exact Hne|]. apply Hphone. split; [reflexivity|].
    repeat constructor.
Defined.

Lemma add_contact_replaces_witness :
  (add_contact [lit "Mia"; lit "0501112233"]
     book_mia_born_1990).1
  = lit "Contact Mia added with phone number 0501112233"
  /\ show_phones [lit "Mia"]
       (add_contact [lit "Mia"; lit "0501112233"]
          book_mia_born_1990).2
     = (lit "Mia's phones: 0501112233",
        (add_contact [lit "Mia"; lit "0501112233"]
           book_mia_born_1990).2).
Proof.
  destruct (add_contact_replaces
              book_mia_born_1990
              (lit "Mia") (lit "0501112233")) as (Htext & Hshow & _).
  - discriminate.
  - vm_compute. reflexivity.
  - split; [exact Htext | exact Hshow].
Defined.

Lemma change_phone_answers_witness :
  (change_phone [lit "Mia"; lit "0991234567"; lit "12345"]
     book_mia_born_1990).1
  = lit "ValueError: Invalid phone number"
  /\ show_phones [lit "Mia"]
       (change_phone [lit "Mia"; lit "0991234567"; lit "12345"]
          book_mia_born_1990).2
     = (lit "Mia's phones: ",
        (change_phone [lit "Mia"; lit "0991234567"; lit "12345"]
           book_mia_born_1990).2).
Proof.
  assert (Hinv : book_inv book_mia_born_1990).
  { unfold book_mia_born_1990. apply run_inv. split; [constructor|].
    intros k a Hin. now apply elem_of_nil in Hin. }
  destruct (change_phone_answers
              book_mia_born_1990
              (lit "Mia") (lit "0991234567") (lit "12345") Hinv)
    as [_ Hcase].
  vm_compute in Hcase. destruct Hcase as (Htext & Hshow & _).
  split; [exact Htext | exact Hshow].
Defined.

Lemma show_all_contacts_lists_witness :
  show_all_contacts book_mia_born_1990
  = (lit "Name: Mia, Phones: 0991234567, Birthday: 25.12.1990",
     book_mia_born_1990).
Proof.
  assert (Hinv : book_inv book_mia_born_1990).
  { unfold book_mia_born_1990. apply run_inv. split; [constructor|].
    intros k a Hin. now apply elem_of_nil in Hin. }
  destruct (show_all_contacts_lists
              book_mia_born_1990 Hinv)
    as (Hshow & _).
  rewrite Hshow. vm_compute. reflexivity.
Defined.

(** ** The loop of [main] *)

Ltac dispatch :=
  unfold main_step;
  repeat match goal with
  | |- context [bool_decide ?P] =>
      let b := eval vm_compute in (bool_decide P) in
      change (bool_decide P) with b
  end;
  cbn iota.

Section MainFacts.
Context `{Platform}.









Lemma show_phones_unchanged args w : (show_phones args w).2 = w.
Proof. destruct args; [reflexivity|]. now rewrite show_phones_total. Qed.

Lemma show_all_contacts_unchanged w : (show_all_contacts w).2 = w.
Proof. reflexivity. Qed.

Lemma goes_on_say P lines : lines <> [] -> goes_on P (say lines).
Proof. intros Hlines w. split; [trivial|]. cbn. now split. Qed.

Lemma goes_on_shown P (handler : World -> str * World) :
  (forall w, P w -> P (handler w).2) ->
  goes_on P (shown handler).
Proof.
  intros Hh w. unfold shown. specialize (Hh w).
  destruct (handler w) as [text w']. cbn [fst snd] in *.
  split; [exact Hh|]. now split.
Qed.

Lemma goes_on_delete P args :
  (forall nm w, P w -> P (delete_record nm w).2) ->
  goes_on P
    match args with
    | name :: _ => text ← delete_record name; say [text]
    | [] => say [lit "Please provide the name of the contact to delete."]
    end.
Proof.
  intros Hdel. destruct args as [|nm rest]; [now apply goes_on_say|].
  intros w. step_method. unfold say. step_method.
  specialize (Hdel nm w).
  destruct (delete_record nm w) as [[text|e] w1]; cbn [fst snd] in *;
    split; try exact Hdel; try trivial. now split.
Qed.

Lemma caught_goes_on P (m : M World (list str * control))
    (f : exn -> list str) (w : World) :
  goes_on P m ->
  (forall e, f e <> []) ->
  (P w -> P (try_except m (fun e => say (f e)) w).2)
  /\ exists printed,
       (try_except m (fun e => say (f e)) w).1 = Return (printed, Continue)
       /\ printed <> [].
Proof.
  intros Hm Hf. unfold try_except. destruct (Hm w) as [Hkeep Hret].
  destruct (m w) as [[[printed c]|e] w']; cbn [fst snd] in *.
  - destruct Hret as [-> Hprinted]. split; [exact Hkeep|]. now exists printed.
  - split; [exact Hkeep|]. exists (f e). split; [reflexivity | apply Hf].
Qed.

(** One turn of the loop on a line with a word: what it keeps of the book,
    given what the operations it calls keep, and what it returns. *)
Lemma main_step_spec (P : World -> Prop) (today : date) (command : str)
    (args : list str) (w : World) :
  (forall w, P w -> P (add_contact args w).2) ->
  (forall w, P w -> P (change_phone args w).2) ->
  (forall nm w, P w -> P (delete_record nm w).2) ->
  (forall a bd w, P w -> P (on_record a (add_birthday bd) w).2) ->
  (P w -> P (main_step today (command :: args) w).2)
  /\ exists printed,
       (main_step today (command :: args) w).1
       = Return (printed,
                 if bool_decide (command ∈ [lit "close"; lit "exit"])
                 then Break else Continue)
       /\ printed <> [].
Proof.
  intros Hadd Hchange Hdelete Hbirthday. unfold main_step.
  destruct (bool_decide (command ∈ [lit "close"; lit "exit"])).
  { split; [trivial|]. now exists [lit "Good bye!"]. }
  apply caught_goes_on; [|discriminate].
  destruct (bool_decide (command = lit "hello")); [now apply goes_on_say|].
  destruct (bool_decide (command = lit "add")); [now apply goes_on_shown|].
  destruct (bool_decide (command = lit "change")); [now apply goes_on_shown|].
  destruct (bool_decide (command = lit "phone")).
  { apply goes_on_shown. intros w0. now rewrite show_phones_unchanged. }
  destruct (bool_decide (command = lit "all")).
  { apply goes_on_shown. intros w0. now rewrite show_all_contacts_unchanged. }
  destruct (bool_decide (command = lit "delete"));
    [now apply goes_on_delete|].
  destruct (bool_decide (command = lit "add-birthday")).
  { destruct args as [|nm [|bd [|x rest]]]; try now apply goes_on_say.
    intros w0. step_method.
    destruct (dict_get nm (data w0)) as [a|]; [|now apply goes_on_say].
    unfold try_except. step_method.
    specialize (Hbirthday a bd w0).
    destruct (on_record a (add_birthday bd) w0) as [[[]|e] w1];
      cbn [fst snd] in *.
    - split; [exact Hbirthday | now split].
    - destruct e; cbn [fst snd]; split; try exact Hbirthday; try trivial.
      now split. }
  destruct (bool_decide (command = lit "show-birthday")).
  { destruct args as [|nm rest]; [now apply goes_on_say|].
    intros w0. step_method.
    destruct (dict_get nm (data w0)) as [a|]; [|now apply goes_on_say].
    destruct (birthday (record_at a w0)); now apply goes_on_say. }
  destruct (bool_decide (command = lit "birthdays")); [|now apply goes_on_say].
  intros w0. step_method. unfold get_upcoming_birthdays, say. step_method.
  destruct (upcoming_loop today (values w0) []) as [[|u l]|e]; cbn [fst snd];
    (split; [trivial|]); [now split | | trivial].
  split; [reflexivity | discriminate].
Qed.


(** X19. Every line with at least one word is answered: [main] prints at least
    one line for it and no exception leaves the loop, whatever the command
    and its arguments; the loop ends exactly on [close] and [exit]. *)
Theorem main_step_answers (today : date) (command : str) (args : list str)
    (w : World) :
  exists printed,
    (main_step today (command :: args) w).1
    = Return (printed,
              if bool_decide (command ∈ [lit "close"; lit "exit"])
              then Break else Continue)
    /\ printed <> [].
Proof.
  destruct (main_step_spec (fun _ => True) today command args w)
    as [_ (printed & Hprinted & Hlines)]; try trivial.
  now exists printed.
Qed.

Lemma main_loop_spec (P : World -> Prop) (lower : str -> str)
    (inputs : list (date * str)) (w : World) :
  (forall today command args w,
     Forall word (command :: args) ->
     P w -> P (main_step today (command :: args) w).2) ->
  P w ->
  P (main_loop lower inputs w).2
  /\ forall e,
       (main_loop lower inputs w).1.2 = Crashed e ->
       e = ValueError "not enough values to unpack (expected at least 1, got 0)".
Proof.
  intros Hstep. revert w.
  induction inputs as [|[today line] inputs IH]; intros w Hw; cbn [main_loop].
  - split; [exact Hw | discriminate].
  - assert (Hwords : Forall word (tokens lower line)).
    { apply Forall_forall. intros t Ht. unfold tokens, str_split in Ht.
      now apply split_whitespace_words in Ht as [_ Ht]; [|constructor]. }
    destruct (tokens lower line) as [|command args].
    + cbn. split; [exact Hw | now intros e [= <-]].
    + specialize (Hstep today command args w Hwords Hw).
      destruct (main_step_spec (fun _ => True) today command args w)
        as [_ (printed & Hret & _)]; try trivial.
      destruct (main_step today (command :: args) w) as [res w'].
      cbn [fst snd] in *. subst res.
      destruct (bool_decide _).
      * split; [exact Hstep | discriminate].
      * destruct (IH w' Hstep) as [IH1 IH2].
        destruct (main_loop lower inputs w') as [[printed' e'] w''].
        cbn [fst snd] in *. now split.
Qed.


Lemma word_plain_number (t : str) :
  word t -> validate_number t = true -> plain_number t.
Proof.
  intros Hword Ht. apply validate_number_spec in Ht
    as [Hlen [Hall | (ds & -> & Hall)]]; [now split|].
  apply Forall_app in Hword as [_ Hnl].
  apply Forall_cons in Hnl as [Hnl _]. vm_compute in Hnl. discriminate Hnl.
Qed.

Lemma add_contact_plain args w :
  Forall word args -> plain_phones w -> plain_phones (add_contact args w).2.
Proof.
  intros Hargs Hw. destruct args as [|nm [|phone [|x rest]]]; try exact Hw.
  rewrite add_contact_total.
  destruct (decide (nm = [])); [exact Hw|].
  apply Forall_cons in Hargs as [_ Hargs].
  apply Forall_cons in Hargs as [Hphone _].
  destruct (validate_number phone) eqn:Hvalid; cbn [snd];
    apply Forall_app; (split; [exact Hw|]);
    apply Forall_singleton; cbn [phones].
  - apply Forall_singleton. now apply word_plain_number.
  - constructor.
Qed.

Lemma change_phone_plain args w :
  Forall word args -> plain_phones w -> plain_phones (change_phone args w).2.
Proof.
  intros Hargs Hw. destruct args as [|nm [|old [|new [|x rest]]]];
    try exact Hw.
  rewrite change_phone_total.
  destruct (dict_get nm (data w)) as [a|]; [|exact Hw].
  destruct (heap w !! a) as [r|] eqn:Ha; [|exact Hw].
  cbn [snd]. apply Forall_insert; [exact Hw|].
  pose proof (Forall_lookup_1 _ _ _ _ Hw Ha) as Hr. cbn beta in Hr.
  apply Forall_cons in Hargs as [_ Hargs].
  apply Forall_cons in Hargs as [_ Hargs].
  apply Forall_cons in Hargs as [Hnew _].
  rewrite edit_phone_total. unfold editPhone_spec.
  destruct (validate_number old); cbn [negb]; [|exact Hr].
  destruct (validate_number new) eqn:Hvalid; cbn [negb snd phones].
  - apply Forall_app. split; [now apply remove_first_Forall|].
    apply Forall_singleton. now apply word_plain_number.
  - now apply remove_first_Forall.
Qed.

Lemma main_step_plain (today : date) (command : str) (args : list str)
    (w : World) :
  Forall word (command :: args) ->
  plain_phones w -> plain_phones (main_step today (command :: args) w).2.
Proof.
  intros Hwords. apply Forall_cons in Hwords as [_ Hargs].
  apply (main_step_spec plain_phones).
  - intros w0. now apply add_contact_plain.
  - intros w0. now apply change_phone_plain.
  - intros nm w0 Hw0. unfold delete_record.
    now destruct (dict_contains nm (data w0)).
  - intros a bd w0 Hw0. apply on_record_Forall; [|exact Hw0].
    intros r Hr. rewrite add_birthday_total. now destruct (date_text bd).
Qed.

(** X21. Whatever lines are entered, every phone of every record of [main] is
    ten decimal digits: a number that ends in a newline, which [Phone]
    accepts, cannot get into the book from the command line. *)
Theorem main_phones_are_digits (lower : str -> str)
    (inputs : list (date * str)) (r : ContactRecord) (p : Phone) :
  r ∈ heap (main lower inputs).2 ->
  p ∈ phones r ->
  length (phone_value p) = 10%nat
  /\ Forall (fun c => Py_UNICODE_ISDECIMAL c = true) (phone_value p).
Proof.
  unfold main.
  destruct (main_loop_spec plain_phones lower inputs empty_world)
    as [Hplain _]; [apply main_step_plain | constructor |].
  destruct (main_loop lower inputs empty_world) as [[printed e] w].
  cbn [snd] in *. intros Hr Hp.
  unfold plain_phones in Hplain. rewrite Forall_forall in Hplain.
  specialize (Hplain r Hr). rewrite Forall_forall in Hplain.
  exact (Hplain p Hp).
Qed.

(** X22. A line that is empty or all white space ends the program: its
    unpacking is outside the [try], so the [ValueError] leaves [main]; no
    line entered after it is read. *)
Theorem blank_line_leaves_main (lower : str -> str) (today : date)
    (line : str) (inputs : list (date * str)) (w : World) :
  lower [] = [] ->
  Forall (fun c => Py_UNICODE_ISSPACE c = true) line ->
  main_loop lower ((today, line) :: inputs) w
  = ([],
     Crashed
       (ValueError "not enough values to unpack (expected at least 1, got 0)"),
     w).
Proof.
  intros Hlower Hline. cbn [main_loop]. unfold tokens, str_split.
  rewrite (str_strip_spaces line Hline), Hlower. reflexivity.
Qed.

Lemma show_birthday_total (today : date) (nm : str) (rest : list str)
    (w : World) :
  main_step today (lit "show-birthday" :: nm :: rest) w =
    (Return ([match dict_get nm (data w) with
              | Some a =>
                  match birthday (record_at a w) with
                  | Some b =>
                      nm ++ lit "'s birthday is " ++ strftime (birthday_value b)
                  | None => lit "No birthday found for " ++ nm ++ lit "."
                  end
              | None => lit "No birthday found for " ++ nm ++ lit "."
              end], Continue), w).
Proof.
  dispatch. unfold try_except. step_method.
  destruct (dict_get nm (data w)) as [a|]; [|reflexivity].
  now destruct (birthday (record_at a w)).
Qed.

(** X23. The command [add-birthday name date] on a book.  For a name the book
    does not know it prints that the contact was not found, and for a text
    that is no date the message of the validation error; in both cases the
    book is as before.  Otherwise it prints that the birthday was added,
    the keys and the phones stay, and [show-birthday name] then prints the
    date read, formatted anew. *)
Theorem add_birthday_command (today : date) (w : World) (nm bd : str) :
  book_inv w ->
  let step := main_step today [lit "add-birthday"; nm; bd] w in
  match dict_get nm (data w), date_text bd with
  | None, _ =>
      step = (Return ([lit "Contact " ++ nm ++ lit " not found."], Continue), w)
  | Some a, None =>
      step = (Return ([lit "Invalid date format. Use DD.MM.YYYY"], Continue), w)
  | Some a, Some d =>
      step.1 = Return ([lit "Birthday for " ++ nm ++ lit " added."], Continue)
      /\ data step.2 = data w
      /\ phones (record_at a step.2) = phones (record_at a w)
      /\ main_step today [lit "show-birthday"; nm] step.2
         = (Return ([nm ++ lit "'s birthday is " ++ strftime d], Continue),
            step.2)
  end.
Proof.
  intros Hinv step.
  assert (Hstep : step
            = match dict_get nm (data w) with
              | Some a =>
                  match date_text bd with
                  | Some d =>
                      (Return ([lit "Birthday for " ++ nm ++ lit " added."],
                               Continue),
                       MkWorld
                         (<[a := MkRecord (name (record_at a w))
                                   (phones (record_at a w))
                                   (Some (MkBirthday d))]> (heap w))
                         (data w))
                  | None =>
                      (Return ([lit "Invalid date format. Use DD.MM.YYYY"],
                               Continue), w)
                  end
              | None =>
                  (Return ([lit "Contact " ++ nm ++ lit " not found."],
                           Continue), w)
              end).
  { subst step. dispatch. unfold try_except. step_method.
    destruct (dict_get nm (data w)) as [a|] eqn:Hget; [|reflexivity].
    destruct (book_inv_record w nm a Hinv Hget) as [Ha _].
    rewrite (on_record_at a _ w _ Ha), add_birthday_total.
    destruct (date_text bd) as [d|]; cbn [fst snd]; [reflexivity|].
    rewrite list_insert_id by exact Ha. now destruct w. }
  destruct (dict_get nm (data w)) as [a|] eqn:Hget; [|exact Hstep].
  destruct (date_text bd) as [d|]; [|exact Hstep].
  destruct (book_inv_record w nm a Hinv Hget) as [Ha _].
  rewrite show_birthday_total, Hstep. cbn [fst snd data]. rewrite Hget.
  rewrite (record_at_Some a _
             (MkRecord (name (record_at a w)) (phones (record_at a w))
                (Some (MkBirthday d))))
    by (cbn [heap]; apply list_lookup_insert_eq; eapply lookup_lt_Some, Ha).
  repeat split.
Qed.

(** X24. The command [birthdays] on a reachable book, on a day of the calendar
    that has its seven next days.  If today's year is a leap year or no
    contact has its birthday on a 29th of February, it prints one line for
    each contact in the window, or that there are none.  Otherwise it
    prints "An error occurred: day is out of range for month" and names no
    contact, whoever has a birthday in the week.  Arguments are ignored
    and the book is as before. *)
Theorem birthdays_command_prints (today : date) (w : World)
    (args : list str) :
  reachable w ->
  valid_ymd (year today) (month today) (day today) = true ->
  toordinal today + 7 <= MAXORDINAL ->
  main_step today (lit "birthdays" :: args) w =
    (Return
       (if is_leap (year today) || negb (existsb is_leap_day (values w))
        then
          match upcoming_spec today (values w) with
          | [] => [lit "No upcoming birthdays in the next 7 days."]
          | l =>
              (fun u => lit "Name: " ++ up_name u ++ lit ", Birthday: "
                        ++ up_birthday u) <$> l
          end
        else [lit "An error occurred: day is out of range for month"],
        Continue), w).
Proof.
  intros Hreach Htoday Hmax. dispatch.
  unfold try_except, get_upcoming_birthdays. step_method.
  rewrite upcoming_loop_cases by (try assumption; now apply reachable_values_ok).
  destruct (is_leap (year today) || negb (existsb is_leap_day (values w)));
    [|reflexivity].
  now destruct (upcoming_spec today (values w)).
Qed.

(** X25. The command [delete name] on a book prints what [delete_record]
    returns, and afterwards the name is unknown to every command: [phone]
    answers with the [KeyError], [show-birthday] finds no birthday, and a
    second [delete] reports "not found" and changes nothing.  Arguments
    after the name are ignored. *)
Theorem delete_command_forgets (today : date) (w : World) (nm : str)
    (rest : list str) :
  NoDup (data w).*1 ->
  let step := main_step today (lit "delete" :: nm :: rest) w in
  step.1
  = Return ([lit "Contact " ++ nm
             ++ (if dict_contains nm (data w) then lit " deleted"
                 else lit " not found")], Continue)
  /\ show_phones [nm] step.2 = (lit "KeyError: 'Record not found'", step.2)
  /\ main_step today [lit "show-birthday"; nm] step.2
     = (Return ([lit "No birthday found for " ++ nm ++ lit "."], Continue),
        step.2)
  /\ main_step today (lit "delete" :: nm :: rest) step.2
     = (Return ([lit "Contact " ++ nm ++ lit " not found"], Continue), step.2).
Proof.
  intros Hnodup step.
  assert (Hstep : step
            = (Return ([lit "Contact " ++ nm
                        ++ (if dict_contains nm (data w) then lit " deleted"
                            else lit " not found")], Continue),
               if dict_contains nm (data w)
               then MkWorld (heap w) (dict_del nm (data w)) else w)).
  { subst step. dispatch. unfold try_except, delete_record, say. step_method.
    now destruct (dict_contains nm (data w)). }
  assert (Hgone : dict_get nm (data step.2) = None).
  { rewrite Hstep. cbn [snd]. destruct (dict_contains nm (data w)) eqn:Hin.
    - cbn [data]. now apply dict_get_del_eq.
    - unfold dict_contains in Hin. now destruct (dict_get nm (data w)). }
  split; [now rewrite Hstep|]. split; [|split].
  - now rewrite show_phones_total, Hgone.
  - now rewrite show_birthday_total, Hgone.
  - dispatch. unfold try_except, delete_record, say, dict_contains.
    step_method. now rewrite Hgone.
Qed.
End MainFacts.

Lemma blank_line_leaves_main_witness :
  main_loop ascii_lower
    [(Date 2023 2 25, lit "   "); (Date 2023 2 25, lit "hello")] book_mia
  = ([],
     Crashed
       (ValueError "not enough values to unpack (expected at least 1, got 0)"),
     book_mia).
Proof.
  apply (blank_line_leaves_main ascii_lower (Date 2023 2 25) (lit "   ")
           [(Date 2023 2 25, lit "hello")] book_mia).
  - reflexivity.
  - repeat constructor.
Defined.

Lemma add_birthday_command_witness :
  (main_step (Date 2023 2 25) [lit "add-birthday"; lit "Mia"; lit "1.3.1999"]
     book_mia).1
  = Return ([lit "Birthday for Mia added."], Continue)
  /\ main_step (Date 2023 2 25) [lit "show-birthday"; lit "Mia"]
       (main_step (Date 2023 2 25)
          [lit "add-birthday"; lit "Mia"; lit "1.3.1999"] book_mia).2
     = (Return ([lit "Mia's birthday is 01.03.1999"], Continue),
        (main_step (Date 2023 2 25)
           [lit "add-birthday"; lit "Mia"; lit "1.3.1999"] book_mia).2).
Proof.
  assert (Hinv : book_inv book_mia).
  { apply reachable_inv. unfold book_mia. repeat apply reachable_run.
    apply reachable_empty. }
  pose proof (add_birthday_command (Date 2023 2 25) book_mia (lit "Mia")
                (lit "1.3.1999") Hinv) as Hcase.
  vm_compute in Hcase. destruct Hcase as (Hprinted & _ & _ & Hshow).
  split; [exact Hprinted | exact Hshow].
Defined.

Lemma birthdays_command_prints_witness :
  main_step (Date 2023 2 25) [lit "birthdays"] book_bob_mia
  = (Return ([lit "An error occurred: day is out of range for month"],
             Continue), book_bob_mia)
  /\ main_step (Date 2024 2 25) [lit "birthdays"] book_bob_mia
     = (Return ([lit "Name: Bob, Birthday: 26.02.2024";
                 lit "Name: Mia, Birthday: 29.02.2024"], Continue),
        book_bob_mia).
Proof.
  assert (Hreach : reachable book_bob_mia).
  { unfold book_bob_mia, book_bob. repeat apply reachable_run.
    apply reachable_empty. }
  split.
  - rewrite (birthdays_command_prints (Date 2023 2 25) book_bob_mia [] Hreach);
      vm_compute; first [reflexivity | discriminate].
  - rewrite (birthdays_command_prints (Date 2024 2 25) book_bob_mia [] Hreach);
      vm_compute; first [reflexivity | discriminate].
Defined.

Lemma delete_command_forgets_witness :
  (main_step (Date 2023 2 25) [lit "delete"; lit "Mia"] book_mia).1
  = Return ([lit "Contact Mia deleted"], Continue)
  /\ show_phones [lit "Mia"]
       (main_step (Date 2023 2 25) [lit "delete"; lit "Mia"] book_mia).2
     = (lit "KeyError: 'Record not found'",
        (main_step (Date 2023 2 25) [lit "delete"; lit "Mia"] book_mia).2).
Proof.
  destruct (delete_command_forgets (Date 2023 2 25) book_mia (lit "Mia") [])
    as (Hprinted & Hshow & _).
  - vm_compute. repeat constructor. intros Hin. now apply elem_of_nil in Hin.
  - split; [exact Hprinted | exact Hshow].
Defined.

Lemma main_phones_are_digits_witness :
  length (lit "0991234567") = 10%nat
  /\ Forall (fun c => Py_UNICODE_ISDECIMAL c = true) (lit "0991234567").
Proof.
  apply (main_phones_are_digits ascii_lower
           [(Date 2023 2 25, lit "add Mia 0991234567")]
           (MkRecord (MkName (lit "mia")) [MkPhone (lit "0991234567")] None)
           (MkPhone (lit "0991234567"))).
  - vm_compute. apply list_elem_of_here.
  - apply list_elem_of_here.
Defined.
